(** * benchmark_plot.py: the iperf3 MACsec / plain bandwidth comparison

    A shallow embedding of [src/benchmark_plot.py] and the properties of
    its three parts: the telemetry parser ([parse_iperf_output]), the
    statistics and axis range of the visualizer ([plot_bandwidth]) and the
    two sequential sessions of the entry routine ([main]).

    Conventions.
    - A Python [float] is a binary64 number: Rocq's primitive [float], with
      the IEEE operations of [PrimFloat].  A Python [int] is a [Z].
    - A Python [str] and a [bytes] object are both a [string] (a list of
      8-bit characters): a [str] is held in its UTF-8 form.
    - A raised exception is the [Raise] outcome of a [result]; everything
      the program does to the outside (console, processes, the figure) is an
      [event] appended to the trace of the run.
    - Functions of the Python library that the script calls but does not
      define ([bytes.decode], [str.strip], [json.loads], [int], [np.mean])
      are the fields of a [Runtime]; a theorem holds for any runtime unless
      it names [ref_runtime], one that runs. *)

From Stdlib Require Import ZArith QArith Qabs List String Ascii Bool Floats Lia.
From Stdlib Require Import DecimalString Sorted.
From stdpp Require Import base option list gmap strings.

Import ListNotations.
Local Set Warnings "-register-all".
Local Open Scope Z_scope.
Local Open Scope string_scope.

(** ** Exceptions and results *)

Inductive exn : Type :=
| JSONDecodeError (msg : string)
| AttributeError
| TypeError
| KeyError
| OverflowError
| ZeroDivisionError
| UnicodeDecodeError
| ValueError
| EOFError
| OSError
| NameError (name : string)
| OtherError (what : string).

Inductive result (A : Type) : Type :=
| Ret (a : A)
| Raise (e : exn).

Arguments Ret {A} a.
Arguments Raise {A} e.

Definition rbind {A B : Type} (r : result A) (k : A -> result B) : result B :=
  match r with
  | Ret a => k a
  | Raise e => Raise e
  end.

Declare Scope result_scope.
Delimit Scope result_scope with result.
Notation "x <- r ;; k" := (rbind r (fun x => k))
  (at level 100, r at next level, right associativity) : result_scope.

(** ** Values that [json.loads] returns

    A decoded object is a [dict]; it keeps its keys in insertion order and
    iterating over it yields the keys, so it is an association list (with
    distinct keys, looked up from the front). *)

Inductive json : Type :=
| JNull
| JBool (b : bool)
| JInt (n : Z)
| JFloat (x : float)
| JStr (s : string)
| JList (items : list json)
| JDict (fields : list (string * json)).

Fixpoint assoc (k : string) (d : list (string * json)) : option json :=
  match d with
  | [] => None
  | (k', v) :: rest => if String.eqb k k' then Some v else assoc k rest
  end.

(** [v.get(k, default)]: only a dict has the method. *)
Definition py_get (v : json) (k : string) (default : json) : result json :=
  match v with
  | JDict d => Ret (match assoc k d with Some x => x | None => default end)
  | _ => Raise AttributeError
  end.

(** The items a [for] loop (here under [enumerate]) takes from a value: the
    elements of a list, the keys of a dict, the characters of a str; any
    other decoded value is not iterable. *)
Definition py_iter (v : json) : result (list json) :=
  match v with
  | JList l => Ret l
  | JDict d => Ret (map (fun kv => JStr (fst kv)) d)
  | JStr s => Ret (map (fun c => JStr (String c EmptyString)) (list_ascii_of_string s))
  | _ => Raise TypeError
  end.

(** [needle in s] for two strs. *)
Fixpoint is_substring (needle s : string) : bool :=
  String.prefix needle s
  || match s with
     | EmptyString => false
     | String _ rest => is_substring needle rest
     end.

Definition is_str (k : string) (v : json) : bool :=
  match v with
  | JStr s => String.eqb s k
  | _ => false
  end.

(** [k in v] for a str [k]: key of a dict, element of a list, substring of
    a str. *)
Definition py_contains (k : string) (v : json) : result bool :=
  match v with
  | JDict d => Ret (match assoc k d with Some _ => true | None => false end)
  | JList l => Ret (existsb (is_str k) l)
  | JStr s => Ret (is_substring k s)
  | _ => Raise TypeError
  end.

(** [v[k]] for a str [k]. *)
Definition py_getitem (v : json) (k : string) : result json :=
  match v with
  | JDict d => match assoc k d with Some x => Ret x | None => Raise KeyError end
  | _ => Raise TypeError
  end.

(** ** Numbers *)

(** [float(n)] for an int: the nearest binary64 number, ties to even;
    [OverflowError] when it is out of range. *)
Definition float_of_int (n : Z) : result float :=
  match binary_normalize prec emax n 0 false with
  | S754_infinity _ => Raise OverflowError
  | sf => Ret (SF2Prim sf)
  end.

(** The literal [1e9]. *)
Definition giga : float := 0x1.dcd65p+29%float.

(** [v / y] for a float [y]: an int (a bool is one) is converted first. *)
Definition py_truediv (v : json) (y : float) : result float :=
  match v with
  | JFloat x => if PrimFloat.eqb y 0 then Raise ZeroDivisionError else Ret (x / y)%float
  | JInt n =>
      (x <- float_of_int n ;;
       if PrimFloat.eqb y 0 then Raise ZeroDivisionError else Ret (x / y)%float)%result
  | JBool b =>
      (x <- float_of_int (if b then 1 else 0) ;;
       if PrimFloat.eqb y 0 then Raise ZeroDivisionError else Ret (x / y)%float)%result
  | _ => Raise TypeError
  end.

(** ** The extraction loop of [parse_iperf_output] (lines 64-75)

<<
        timestamps = []
        bandwidths = []
        for idx, interval in enumerate(data.get("intervals", [])):
            sum_data = interval.get("sum", {})
            if "bits_per_second" in sum_data:
                bandwidth = sum_data["bits_per_second"] / 1e9
                bandwidths.append(bandwidth)
                timestamps.append(idx + 1)
        return timestamps, bandwidths
>>
    [idx] is the position [enumerate] gives: it advances on every item. *)

Fixpoint extract_loop (idx : Z) (items : list json)
  (timestamps : list Z) (bandwidths : list float) : result (list Z * list float) :=
  match items with
  | [] => Ret (timestamps, bandwidths)
  | interval :: rest =>
      (sum_data <- py_get interval "sum" (JDict []) ;;
       has <- py_contains "bits_per_second" sum_data ;;
       if has : bool then
         raw <- py_getitem sum_data "bits_per_second" ;;
         bandwidth <- py_truediv raw giga ;;
         extract_loop (idx + 1) rest (timestamps ++ [idx + 1]) (bandwidths ++ [bandwidth])
       else
         extract_loop (idx + 1) rest timestamps bandwidths)%result
  end.

Definition extract (data : json) : result (list Z * list float) :=
  (intervals <- py_get data "intervals" (JList []) ;;
   items <- py_iter intervals ;;
   extract_loop 0 items [] [])%result.

(** ** The Python library the script calls

    [bytes_decode b] is [b.decode('utf-8')], [str_strip s] is [s.strip()],
    [json_loads s] is [json.loads(s)], [int_of_str s] is [int(s)] and
    [np_mean l] is [np.mean(l)] on a list of floats. *)

Class Runtime : Type := {
  bytes_decode : string -> result string;
  str_strip : string -> string;
  json_loads : string -> result json;
  int_of_str : string -> result Z;
  np_mean : list float -> float
}.

(** ** The outside world, events and programs *)

(** A process is named by the order in which it was spawned. *)
Definition handle : Type := nat.

(** What [plot_bandwidth] hands to the plotting library. *)
Record figure : Type := {
  fig_series1 : list Z * list float;
  fig_series2 : list Z * list float;
  fig_min1 : float; fig_max1 : float; fig_avg1 : float;
  fig_min2 : float; fig_max2 : float; fig_avg2 : float;
  fig_ylim : float * float
}.

(** What the operator, the operating system and the plotting library
    answer: the line typed at the prompt (if any); for the [n]-th [Popen] of
    a command either the exception it raises or the lines the new process
    writes to its standard output before it closes it; and for the values
    handed to the plotting library either the exception that one of its
    calls raises (a [ValueError] for axis limits that are not finite, for
    one) or nothing, when the figure is drawn and shown. *)
Record world : Type := {
  stdin_line : option string;
  spawn : nat -> list string -> result (list string);
  draws : figure -> result unit
}.

(** [EvReadAll h]: the output of process [h] is read to its end;
    [EvReadSome h n]: its first [n] lines are read and the rest is left;
    [EvShow fig]: the values [fig] are handed to the plotting library. *)
Inductive event : Type :=
| EvInput (prompt : string)
| EvPrint (text : string)
| EvPopen (cmd : list string) (h : handle)
| EvSleep (seconds : Z)
| EvProgress (desc : string) (total : Z)
| EvReadAll (h : handle)
| EvReadSome (h : handle) (taken : nat)
| EvTerminate (h : handle)
| EvShow (fig : figure).

(** The state of a run: the events so far, oldest first, and the output of
    every process spawned so far, by handle. *)
Record state : Type := {
  trace : list event;
  procs : list (list string)
}.

Definition init : state := {| trace := []; procs := [] |}.

Definition M (A : Type) : Type := world -> state -> result A * state.

Definition ret {A : Type} (a : A) : M A := fun _ s => (Ret a, s).

Definition raise {A : Type} (e : exn) : M A := fun _ s => (Raise e, s).

Definition bind {A B : Type} (m : M A) (k : A -> M B) : M B :=
  fun w s =>
    match m w s with
    | (Ret a, s') => k a w s'
    | (Raise e, s') => (Raise e, s')
    end.

Definition lift {A : Type} (r : result A) : M A := fun _ s => (r, s).

Declare Scope prog_scope.
Delimit Scope prog_scope with prog.
Notation "x <- m ;; k" := (bind m (fun x => k))
  (at level 100, m at next level, right associativity) : prog_scope.
Notation "m ;; k" := (bind m (fun _ => k))
  (at level 100, right associativity) : prog_scope.

Definition emit (e : event) : M unit :=
  fun _ s => (Ret tt, {| trace := trace s ++ [e]; procs := procs s |}).

(** [try: body  except json.JSONDecodeError as e: handler(e)]. *)
Definition try_except_json {A : Type} (body : M A) (handler : string -> M A) : M A :=
  fun w s =>
    match body w s with
    | (Raise (JSONDecodeError msg), s') => handler msg w s'
    | other => other
    end.

Definition print (text : string) : M unit := emit (EvPrint text).

Definition sleep (seconds : Z) : M unit := emit (EvSleep seconds).

Definition input (prompt : string) : M string :=
  fun w s =>
    let s' := {| trace := trace s ++ [EvInput prompt]; procs := procs s |} in
    match stdin_line w with
    | Some line => (Ret line, s')
    | None => (Raise EOFError, s')
    end.

(** [subprocess.Popen(cmd, stdout=PIPE, stderr=PIPE)]. *)
Definition popen (cmd : list string) : M handle :=
  fun w s =>
    match spawn w (length (procs s)) cmd with
    | Ret out =>
        (Ret (length (procs s)),
         {| trace := trace s ++ [EvPopen cmd (length (procs s))];
            procs := procs s ++ [out] |})
    | Raise e => (Raise e, s)
    end.

(** [process.terminate()]: the signal is sent, or nothing is done when the
    process has exited; either way the call returns. *)
Definition terminate (process : handle) : M unit := emit (EvTerminate process).

(** [str(n)] for an int. *)
Definition str_of_int (n : Z) : string := NilZero.string_of_int (Z.to_int n).

(** ** [run_iperf] and [start_iperf_s] (lines 44-52) *)

Definition run_iperf (server_ip : string) (duration : Z) (namespace : string) : M handle :=
  let cmd := ["ip"; "netns"; "exec"; namespace; "iperf3"; "-c"; server_ip;
              "-t"; str_of_int duration; "-i"; "1"; "--json"] in
  (process <- popen cmd ;;
   ret process)%prog.

Definition start_iperf_s (namespace : string) : M handle :=
  let cmd := ["ip"; "netns"; "exec"; namespace; "iperf3"; "-s"] in
  (process <- popen cmd ;;
   ret process)%prog.

(** ** [parse_iperf_output] (lines 54-78) *)

(** Lines 55-57.  The loop takes a line from [process.stdout], decodes and
    strips it, and takes the next: [lines] is what the process has yet to
    yield (it is one that closes its output) and [taken] counts the lines
    taken so far.  At the end of the output the loop is over; when a line
    does not decode, the exception leaves the loop, and what follows that
    line is never read. *)
Fixpoint read_lines `{Runtime} (process : handle) (lines : list string) (taken : nat)
  (output_lines : list string) : M (list string) :=
  match lines with
  | [] => (emit (EvReadAll process) ;; ret output_lines)%prog
  | line :: rest =>
      match bytes_decode line with
      | Ret text => read_lines process rest (S taken) (output_lines ++ [str_strip text])
      | Raise e => (emit (EvReadSome process (S taken)) ;; raise e)%prog
      end
  end.

(** ['\n'.join(output_lines)]. *)
Definition join_lines (output_lines : list string) : string :=
  String.concat (String "010"%char EmptyString) output_lines.

Definition parse_iperf_output `{Runtime} (process : handle) : M (list Z * list float) :=
  (output_lines <- (fun w s => read_lines process (default [] (procs s !! process)) O [] w s) ;;
   let output := join_lines output_lines in
   try_except_json
     (data <- lift (json_loads output) ;;
      lift (extract data))
     (fun e =>
        print ("Error parsing JSON: " ++ e) ;;
        ret ([], [])))%prog.

(** ** [plot_bandwidth] (lines 80-133) *)

(** The builtin [min] over a list keeps the first item and replaces it by a
    later one that is [<] it; [max] replaces it by a later one that is [>]
    it.  On the empty list both raise [ValueError]. *)
Fixpoint min_loop (best : float) (rest : list float) : float :=
  match rest with
  | [] => best
  | item :: rest' => min_loop (if (item <? best)%float then item else best) rest'
  end.

Fixpoint max_loop (best : float) (rest : list float) : float :=
  match rest with
  | [] => best
  | item :: rest' => max_loop (if (best <? item)%float then item else best) rest'
  end.

Definition py_min (l : list float) : result float :=
  match l with
  | [] => Raise ValueError
  | first :: rest => Ret (min_loop first rest)
  end.

Definition py_max (l : list float) : result float :=
  match l with
  | [] => Raise ValueError
  | first :: rest => Ret (max_loop first rest)
  end.

(** [min(a, b)] and [max(a, b)]. *)
Definition py_min2 (a b : float) : float := min_loop a [b].

Definition py_max2 (a b : float) : float := max_loop a [b].

(** The literals [0.8], [0.01] and [1.2] (the nearest binary64 numbers). *)
Definition lit_0_8 : float := 0x1.999999999999ap-1%float.

Definition lit_0_01 : float := 0x1.47ae147ae147bp-7%float.

Definition lit_1_2 : float := 0x1.3333333333333p+0%float.

(** Lines 82-96: the statistics of each series and the shared y range. *)
Definition plot_figure `{Runtime} (timestamps1 : list Z) (bandwidths1 : list float)
  (timestamps2 : list Z) (bandwidths2 : list float) : result figure :=
  (min_bandwidth1 <- py_min bandwidths1 ;;
   max_bandwidth1 <- py_max bandwidths1 ;;
   let avg_bandwidth1 := np_mean bandwidths1 in
   min_bandwidth2 <- py_min bandwidths2 ;;
   max_bandwidth2 <- py_max bandwidths2 ;;
   let avg_bandwidth2 := np_mean bandwidths2 in
   let min_bandwidth := py_min2 min_bandwidth1 min_bandwidth2 in
   let max_bandwidth := py_max2 max_bandwidth1 max_bandwidth2 in
   let min_bandwidth := py_max2 (min_bandwidth * lit_0_8)%float lit_0_01 in
   let max_bandwidth := (max_bandwidth * lit_1_2)%float in
   Ret {| fig_series1 := (timestamps1, bandwidths1);
          fig_series2 := (timestamps2, bandwidths2);
          fig_min1 := min_bandwidth1; fig_max1 := max_bandwidth1;
          fig_avg1 := avg_bandwidth1;
          fig_min2 := min_bandwidth2; fig_max2 := max_bandwidth2;
          fig_avg2 := avg_bandwidth2;
          fig_ylim := (min_bandwidth, max_bandwidth) |})%result.

(** Lines 98-133 hand these values to the plotting library, call by call
    (the two series with the means in their labels, the y range, the ticks
    computed from it, the four horizontal lines, then [plt.show()]): one
    event, and what the library makes of them, an exception of one of the
    calls or the figure on the screen. *)
Definition draw (fig : figure) : M unit :=
  fun w s => (draws w fig, s).

Definition plot_bandwidth `{Runtime} (timestamps1 : list Z) (bandwidths1 : list float)
  (timestamps2 : list Z) (bandwidths2 : list float) : M unit :=
  (fig <- lift (plot_figure timestamps1 bandwidths1 timestamps2 bandwidths2) ;;
   emit (EvShow fig) ;;
   draw fig)%prog.

(** ** [main] (lines 135-178) *)

(** The six string literals of [main] that the module docstring asks the
    user to fill in, by the line that assigns them. *)
Record config : Type := {
  line137 : string;   (* server_macsec = "" *)
  line138 : string;   (* server_plain = "" *)
  line142 : string;   (* namespace_macsec = "" *)
  line143 : string;   (* namespace_plain = "" *)
  line146 : string;   (* server_macsec = "", again *)
  line147 : string    (* server_plain = "", again *)
}.

(** The file as it is: every literal is the empty string. *)
Definition as_written : config :=
  {| line137 := ""; line138 := ""; line142 := ""; line143 := "";
     line146 := ""; line147 := "" |}.

(** [main] never assigns [server1] or [server2], so Python looks them up
    among the module's globals when the line runs.  The globals that hold a
    string are an argument of the model; the module itself binds only its
    imports and its five functions, so it has none. *)
Definition globals : Type := gmap string string.

Definition module_globals : globals := ∅.

Definition load_global (g : globals) (name : string) : M string :=
  match g !! name with
  | Some v => ret v
  | None => raise (NameError name)
  end.

(** [for _ in tqdm(range(duration), desc=desc): time.sleep(1)]. *)
Fixpoint sleep_ticks (n : nat) : M unit :=
  match n with
  | O => ret tt
  | S n' => (sleep 1 ;; sleep_ticks n')%prog
  end.

Definition progress_wait (desc : string) (duration : Z) : M unit :=
  (emit (EvProgress desc duration) ;;
   sleep_ticks (Z.to_nat duration))%prog.

(** Truth value of a list: it is not empty. *)
Definition truthy {A : Type} (l : list A) : bool :=
  match l with
  | [] => false
  | _ :: _ => true
  end.

Definition no_data_message : string :=
  "No data received. Check if the iperf server is running properly.".

Definition main_with `{Runtime} (c : config) (g : globals) : M unit :=
  (let server_macsec := line137 c in
   let server_plain := line138 c in
   answer <- input "Enter the duration of the iperf test in seconds: " ;;
   duration <- lift (int_of_str answer) ;;
   let namespace_macsec := line142 c in
   let namespace_plain := line143 c in
   let server_macsec := line146 c in
   let server_plain := line147 c in

   print ("Starting iperf server in namespace " ++ server_macsec ++ "...") ;;
   server1 <- load_global g "server1" ;;
   server_proc1 <- start_iperf_s server1 ;;
   sleep 1 ;;

   print ("Running first iperf test in namespace " ++ namespace_macsec
          ++ " for " ++ str_of_int duration ++ " seconds...") ;;
   process1 <- run_iperf server_macsec duration namespace_macsec ;;

   progress_wait "MACsec Progress" duration ;;

   parsed1 <- parse_iperf_output process1 ;;
   let '(timestamps1, bandwidths1) := parsed1 in
   terminate server_proc1 ;;

   print ("Starting iperf server in namespace " ++ server_plain ++ "...") ;;
   server2 <- load_global g "server2" ;;
   server_proc2 <- start_iperf_s server2 ;;
   sleep 1 ;;

   print ("Running second iperf test in namespace " ++ namespace_plain
          ++ " for " ++ str_of_int duration ++ " seconds...") ;;
   process2 <- run_iperf server_macsec duration namespace_plain ;;

   progress_wait "Plain Progress" duration ;;

   parsed2 <- parse_iperf_output process2 ;;
   let '(timestamps2, bandwidths2) := parsed2 in
   terminate server_proc2 ;;

   if truthy timestamps1 && truthy bandwidths1 && truthy timestamps2 && truthy bandwidths2
   then plot_bandwidth timestamps1 bandwidths1 timestamps2 bandwidths2
   else print no_data_message)%prog.

(** The script as shipped. *)
Definition main `{Runtime} : M unit := main_with as_written module_globals.

(** ** A runtime that runs

    The library functions for the text iperf3 writes: strict UTF-8
    decoding, [str.strip] of Unicode white space, the JSON grammar that
    [json.loads] accepts, [int] of a decimal literal, and the mean as NumPy
    computes it (pairwise summation, then one division).  General theorems
    do not depend on it; it lets the model run on concrete output, and the
    statements about concrete output name it. *)

Module Ref.

Local Open Scope N_scope.

Definition code (c : ascii) : N := N_of_ascii c.

Definition is_cont (b : ascii) : bool := (0x80 <=? code b) && (code b <=? 0xBF).

Definition between (lo : N) (b : ascii) (hi : N) : bool := (lo <=? code b) && (code b <=? hi).

(** Well-formed UTF-8 (no overlong forms, no surrogates, at most U+10FFFF). *)
Fixpoint utf8_valid (l : list ascii) : bool :=
  match l with
  | [] => true
  | b0 :: r =>
      if code b0 <? 0x80 then utf8_valid r
      else if between 0xC2 b0 0xDF then
        match r with
        | b1 :: r1 => is_cont b1 && utf8_valid r1
        | _ => false
        end
      else if between 0xE0 b0 0xEF then
        match r with
        | b1 :: b2 :: r2 =>
            (if code b0 =? 0xE0 then between 0xA0 b1 0xBF
             else if code b0 =? 0xED then between 0x80 b1 0x9F
             else is_cont b1)
            && is_cont b2 && utf8_valid r2
        | _ => false
        end
      else if between 0xF0 b0 0xF4 then
        match r with
        | b1 :: b2 :: b3 :: r3 =>
            (if code b0 =? 0xF0 then between 0x90 b1 0xBF
             else if code b0 =? 0xF4 then between 0x80 b1 0x8F
             else is_cont b1)
            && is_cont b2 && is_cont b3 && utf8_valid r3
        | _ => false
        end
      else false
  end.

Definition bytes_decode (b : string) : result string :=
  if utf8_valid (list_ascii_of_string b) then Ret b else Raise UnicodeDecodeError.

(** The characters [str.isspace] accepts, in UTF-8: U+0009..000D,
    U+001C..0020, U+0085, U+00A0, U+1680, U+2000..200A, U+2028, U+2029,
    U+202F, U+205F, U+3000. *)
Definition whitespace : list (list N) :=
  map (fun b => [b]) [0x09; 0x0A; 0x0B; 0x0C; 0x0D; 0x1C; 0x1D; 0x1E; 0x1F; 0x20]
  ++ [[0xC2; 0x85]; [0xC2; 0xA0]; [0xE1; 0x9A; 0x80]]
  ++ map (fun b => [0xE2; 0x80; b])
       [0x80; 0x81; 0x82; 0x83; 0x84; 0x85; 0x86; 0x87; 0x88; 0x89; 0x8A; 0xA8; 0xA9; 0xAF]
  ++ [[0xE2; 0x81; 0x9F]; [0xE3; 0x80; 0x80]].

Fixpoint drop_prefix (p : list N) (l : list ascii) : option (list ascii) :=
  match p, l with
  | [], _ => Some l
  | b :: p', c :: l' => if b =? code c then drop_prefix p' l' else None
  | _ :: _, [] => None
  end.

Fixpoint drop_any (ps : list (list N)) (l : list ascii) : option (list ascii) :=
  match ps with
  | [] => None
  | p :: ps' =>
      match drop_prefix p l with
      | Some l' => Some l'
      | None => drop_any ps' l
      end
  end.

Fixpoint lstrip (ps : list (list N)) (fuel : nat) (l : list ascii) : list ascii :=
  match fuel with
  | O => l
  | S fuel' =>
      match drop_any ps l with
      | Some l' => lstrip ps fuel' l'
      | None => l
      end
  end.

Definition strip_chars (l : list ascii) : list ascii :=
  let l1 := lstrip whitespace (length l) l in
  rev (lstrip (map (@rev N) whitespace) (length l1) (rev l1)).

Definition str_strip (s : string) : string :=
  string_of_list_ascii (strip_chars (list_ascii_of_string s)).

(** *** Decimal digits *)

Definition digit (c : ascii) : option Z :=
  if between 0x30 c 0x39 then Some (Z.of_N (code c - 0x30)) else None.

(** The longest run of digits at the front: its value, its length, the rest. *)
Fixpoint digits (acc : Z) (n : Z) (l : list ascii) : Z * Z * list ascii :=
  match l with
  | c :: r =>
      match digit c with
      | Some d => digits (10 * acc + d)%Z (n + 1)%Z r
      | None => (acc, n, l)
      end
  | [] => (acc, n, l)
  end.

(** [int(s)]: white space around, a sign, digits with single underscores
    between them. *)
Fixpoint int_digits (acc : Z) (after_digit : bool) (l : list ascii) : option Z :=
  match l with
  | [] => if after_digit then Some acc else None
  | c :: r =>
      match digit c with
      | Some d => int_digits (10 * acc + d)%Z true r
      | None =>
          if (code c =? 0x5F) && after_digit then
            match r with
            | c' :: _ => match digit c' with Some _ => int_digits acc false r | None => None end
            | [] => None
            end
          else None
      end
  end.

Definition int_of_str (s : string) : result Z :=
  let l := strip_chars (list_ascii_of_string s) in
  let '(neg, body) :=
    match l with
    | "-"%char :: r => (true, r)
    | "+"%char :: r => (false, r)
    | _ => (false, l)
    end in
  match int_digits 0 false body with
  | Some n => Ret (if neg then (- n)%Z else n)
  | None => Raise ValueError
  end.

(** *** Decimal text to binary64 *)

(** The binary64 number nearest to [m * 10^e] (ties to even), for [m >= 0]. *)
Definition float_of_decimal (neg : bool) (m e : Z) : float :=
  let sf :=
    if (m =? 0)%Z then S754_zero neg
    else if (0 <=? e)%Z then
      binary_normalize prec emax ((if neg then - m else m) * 10 ^ e)%Z 0 false
    else
      let '(mz, ez, lz) := SFdiv_core_binary prec emax m 0 (10 ^ (- e))%Z 0 in
      binary_round_aux prec emax neg mz ez lz in
  SF2Prim sf.

(** *** JSON *)

Definition error : Type := string * nat.

Fixpoint skip_ws (l : list ascii) : list ascii :=
  match l with
  | c :: r =>
      if (code c =? 0x20) || (code c =? 0x09) || (code c =? 0x0A) || (code c =? 0x0D)
      then skip_ws r else l
  | [] => l
  end.

Definition hex (c : ascii) : option N :=
  if between 0x30 c 0x39 then Some (code c - 0x30)
  else if between 0x41 c 0x46 then Some (code c - 0x37)
  else if between 0x61 c 0x66 then Some (code c - 0x57)
  else None.

Definition hex4 (a b c d : ascii) : option N :=
  match hex a, hex b, hex c, hex d with
  | Some x, Some y, Some z, Some w => Some (((x * 16 + y) * 16 + z) * 16 + w)
  | _, _, _, _ => None
  end.

Definition utf8_encode (cp : N) : list ascii :=
  map ascii_of_N
    (if cp <? 0x80 then [cp]
     else if cp <? 0x800 then [0xC0 + cp / 64; 0x80 + cp mod 64]
     else if cp <? 0x10000 then [0xE0 + cp / 4096; 0x80 + (cp / 64) mod 64; 0x80 + cp mod 64]
     else [0xF0 + cp / 262144; 0x80 + (cp / 4096) mod 64; 0x80 + (cp / 64) mod 64;
           0x80 + cp mod 64]).

Definition dquote : ascii := "034"%char.

Definition backslash : ascii := "092"%char.

Definition surrogate_pair (hi lo : N) : bool :=
  (0xD800 <=? hi) && (hi <=? 0xDBFF) && (0xDC00 <=? lo) && (lo <=? 0xDFFF).

(** The body of a string literal, after its opening quote. *)
Fixpoint string_body (acc : list ascii) (l : list ascii) : error + (string * list ascii) :=
  match l with
  | [] => inl ("Unterminated string starting at", O)
  | c :: r =>
      if code c =? 0x22 then inr (string_of_list_ascii (rev acc), r)
      else if code c <? 0x20 then inl ("Invalid control character at", length l)
      else if code c =? 0x5C then
        match r with
        | "u"%char :: a :: b :: c' :: d :: r' =>
            match hex4 a b c' d with
            | None => inl ("Invalid \uXXXX escape", length l)
            | Some hi =>
                match r' with
                | "092"%char :: "u"%char :: a2 :: b2 :: c2 :: d2 :: r'' =>
                    match hex4 a2 b2 c2 d2 with
                    | Some lo =>
                        if surrogate_pair hi lo
                        then string_body (rev (utf8_encode (0x10000 + (hi - 0xD800) * 1024 + (lo - 0xDC00))) ++ acc) r''
                        else string_body (rev (utf8_encode hi) ++ acc) r'
                    | None => string_body (rev (utf8_encode hi) ++ acc) r'
                    end
                | _ => string_body (rev (utf8_encode hi) ++ acc) r'
                end
            end
        | e :: r' =>
            match (if code e =? 0x22 then Some dquote
                   else if code e =? 0x5C then Some backslash
                   else if code e =? 0x2F then Some "/"%char
                   else if code e =? 0x62 then Some "008"%char
                   else if code e =? 0x66 then Some "012"%char
                   else if code e =? 0x6E then Some "010"%char
                   else if code e =? 0x72 then Some "013"%char
                   else if code e =? 0x74 then Some "009"%char
                   else None) with
            | Some x => string_body (x :: acc) r'
            | None => inl ("Invalid \escape", length l)
            end
        | [] => inl ("Unterminated string starting at", O)
        end
      else string_body (c :: acc) r
  end.

(** A number: an optional minus sign, then 0 or a run of digits that does
    not start with 0, then optionally a point and digits, then optionally
    e or E, a sign and digits.  It is an int when it has neither fraction
    nor exponent, a float otherwise. *)
Definition number (l : list ascii) : option (json * list ascii) :=
  let '(neg, l0) :=
    match l with
    | "-"%char :: r => (true, r)
    | _ => (false, l)
    end in
  let int_part :=
    match l0 with
    | "0"%char :: r => Some (0%Z, r)
    | _ =>
        let '(v, n, r) := digits 0 0 l0 in
        if (n =? 0)%Z then None else Some (v, r)
    end in
  match int_part with
  | None => None
  | Some (ip, l1) =>
      let '(frac, l2) :=
        match l1 with
        | "."%char :: r =>
            let '(v, n, r') := digits ip 0 r in
            if (n =? 0)%Z then (None, l1) else (Some (v, n), r')
        | _ => (None, l1)
        end in
      let '(expo, l3) :=
        match l2 with
        | c :: r =>
            if (code c =? 0x65) || (code c =? 0x45) then
              let '(eneg, r0) :=
                match r with
                | "-"%char :: r' => (true, r')
                | "+"%char :: r' => (false, r')
                | _ => (false, r)
                end in
              let '(v, n, r') := digits 0 0 r0 in
              if (n =? 0)%Z then (None, l2) else (Some (if eneg then (- v)%Z else v), r')
            else (None, l2)
        | [] => (None, l2)
        end in
      match frac, expo with
      | None, None => Some (JInt (if neg then (- ip)%Z else ip), l3)
      | _, _ =>
          let '(m, fd) := match frac with Some (v, n) => (v, n) | None => (ip, 0%Z) end in
          let e := match expo with Some e => e | None => 0%Z end in
          Some (JFloat (float_of_decimal neg m (e - fd)), l3)
      end
  end.

Definition literal (word : string) (v : json) (l : list ascii) : option (json * list ascii) :=
  match drop_prefix (map code (list_ascii_of_string word)) l with
  | Some r => Some (v, r)
  | None => None
  end.

(** Insertion into a dict: a repeated key keeps its place and takes the
    new value. *)
Fixpoint dict_set (k : string) (v : json) (d : list (string * json)) : list (string * json) :=
  match d with
  | [] => [(k, v)]
  | (k', v') :: rest => if String.eqb k k' then (k, v) :: rest else (k', v') :: dict_set k v rest
  end.

Fixpoint value (fuel : nat) (l : list ascii) {struct fuel} : error + (json * list ascii) :=
  match fuel with
  | O => inl ("Expecting value"%string, length l)
  | S fuel' =>
      match l with
      | c :: r =>
          if code c =? 0x22 then
            match string_body [] r with
            | inr (s, r') => inr (JStr s, r')
            | inl (msg, O) => inl (msg, length l)
            | inl e => inl e
            end
          else if code c =? 0x7B then
            match skip_ws r with
            | "}"%char :: r' => inr (JDict [], r')
            | r' => members fuel' [] r'
            end
          else if code c =? 0x5B then
            match skip_ws r with
            | "]"%char :: r' => inr (JList [], r')
            | r' => elements fuel' [] r'
            end
          else
            match
              (if code c =? 0x6E then literal "null" JNull l
               else if code c =? 0x74 then literal "true" (JBool true) l
               else if code c =? 0x66 then literal "false" (JBool false) l
               else match number l with
                    | Some x => Some x
                    | None =>
                        if code c =? 0x4E then literal "NaN" (JFloat nan) l
                        else if code c =? 0x49 then literal "Infinity" (JFloat infinity) l
                        else if code c =? 0x2D then literal "-Infinity" (JFloat neg_infinity) l
                        else None
                    end)
            with
            | Some x => inr x
            | None => inl ("Expecting value"%string, length l)
            end
      | [] => inl ("Expecting value"%string, O)
      end
  end
with elements (fuel : nat) (acc : list json) (l : list ascii) {struct fuel}
  : error + (json * list ascii) :=
  match fuel with
  | O => inl ("Expecting value"%string, length l)
  | S fuel' =>
      match value fuel' l with
      | inl e => inl e
      | inr (v, r) =>
          match skip_ws r with
          | "]"%char :: r' => inr (JList (acc ++ [v]), r')
          | ","%char :: r' => elements fuel' (acc ++ [v]) (skip_ws r')
          | r' => inl ("Expecting ',' delimiter"%string, length r')
          end
      end
  end
with members (fuel : nat) (acc : list (string * json)) (l : list ascii) {struct fuel}
  : error + (json * list ascii) :=
  match fuel with
  | O => inl ("Expecting value"%string, length l)
  | S fuel' =>
      match l with
      | "034"%char :: r =>
          match string_body [] r with
          | inl (msg, O) => inl (msg, length l)
          | inl e => inl e
          | inr (k, r1) =>
              match skip_ws r1 with
              | ":"%char :: r2 =>
                  match value fuel' (skip_ws r2) with
                  | inl e => inl e
                  | inr (v, r3) =>
                      match skip_ws r3 with
                      | "}"%char :: r' => inr (JDict (dict_set k v acc), r')
                      | ","%char :: r' => members fuel' (dict_set k v acc) (skip_ws r')
                      | r' => inl ("Expecting ',' delimiter"%string, length r')
                      end
                  end
              | r2 => inl ("Expecting ':' delimiter"%string, length r2)
              end
          end
      | _ => inl ("Expecting property name enclosed in double quotes"%string, length l)
      end
  end.

Fixpoint until_newline (l : list ascii) : nat :=
  match l with
  | [] => O
  | c :: r => if code c =? 0x0A then O else S (until_newline r)
  end.

(** The message of a [JSONDecodeError]: what was expected, and where. *)
Definition message (text : list ascii) (e : error) : string :=
  let pos := (length text - snd e)%nat in
  let before := firstn pos text in
  let line := S (length (filter (fun c => code c =? 0x0A) before)) in
  let col := S (until_newline (rev before)) in
  (fst e ++ ": line " ++ str_of_int (Z.of_nat line) ++ " column " ++ str_of_int (Z.of_nat col)
   ++ " (char " ++ str_of_int (Z.of_nat pos) ++ ")")%string.

Definition json_loads (s : string) : result json :=
  let text := list_ascii_of_string s in
  match value (2 * length text + 2) (skip_ws text) with
  | inl e => Raise (JSONDecodeError (message text e))
  | inr (v, r) =>
      match skip_ws r with
      | [] => Ret v
      | r' => Raise (JSONDecodeError (message text ("Extra data"%string, length r')))
      end
  end.

(** *** The mean

    NumPy adds the items of a float64 array pairwise: fewer than eight
    items in order; up to 128 items in eight interleaved running sums that
    are then combined; a longer array as the sum of its two halves, the
    first of a length that is a multiple of eight. *)

Definition add_all (acc : float) (l : list float) : float :=
  fold_left PrimFloat.add l acc.

Fixpoint add_lanes (fuel : nat) (lanes : list float) (l : list float) : list float * list float :=
  match fuel with
  | O => (lanes, l)
  | S fuel' =>
      if (8 <=? length l)%nat
      then add_lanes fuel' (zip_with PrimFloat.add lanes (firstn 8 l)) (skipn 8 l)
      else (lanes, l)
  end.

Definition sum_block (l : list float) : float :=
  let '(lanes, tail) := add_lanes (length l) (firstn 8 l) (skipn 8 l) in
  match lanes with
  | [r0; r1; r2; r3; r4; r5; r6; r7] =>
      add_all (((r0 + r1) + (r2 + r3)) + ((r4 + r5) + (r6 + r7)))%float tail
  | _ => add_all 0%float l
  end.

Fixpoint pairwise_sum (fuel : nat) (l : list float) : float :=
  let n := length l in
  if (n <? 8)%nat then add_all 0%float l
  else if (n <=? 128)%nat then sum_block l
  else
    match fuel with
    | O => sum_block l
    | S fuel' =>
        let n2 := (n / 2 - (n / 2) mod 8)%nat in
        (pairwise_sum fuel' (firstn n2 l) + pairwise_sum fuel' (skipn n2 l))%float
    end.

Definition np_mean (l : list float) : float :=
  (pairwise_sum (length l) l / SF2Prim (binary_normalize prec emax (Z.of_nat (length l)) 0 false))%float.

End Ref.

#[export] Instance ref_runtime : Runtime := {|
  bytes_decode := Ref.bytes_decode;
  str_strip := Ref.str_strip;
  json_loads := Ref.json_loads;
  int_of_str := Ref.int_of_str;
  np_mean := Ref.np_mean
|}.

(** * Vocabulary of the properties

    What the theorems are stated with.  Nothing here is part of the
    program: these are the words for its inputs, its traces and its runs. *)

(** ** Structured documents

    The document iperf3 writes is an object whose ["intervals"] field is a
    list of interval records; a record is an object whose ["sum"] object
    may hold a numeric ["bits_per_second"].  A record is summed up by that
    number when it has one: [Some x], or [None]. *)

(** The binary64 value of a JSON number (a float, or an int that [float]
    can convert). *)
Definition number_value (v : json) : option float :=
  match v with
  | JFloat x => Some x
  | JInt n => match float_of_int n with Ret x => Some x | Raise _ => None end
  | _ => None
  end.

Inductive interval_record : json -> option float -> Prop :=
| record_with_field fields agg v x :
    assoc "sum" fields = Some (JDict agg) ->
    assoc "bits_per_second" agg = Some v ->
    number_value v = Some x ->
    interval_record (JDict fields) (Some x)
| record_without_field fields agg :
    assoc "sum" fields = Some (JDict agg) ->
    assoc "bits_per_second" agg = None ->
    interval_record (JDict fields) None
| record_without_sum fields :
    assoc "sum" fields = None ->
    interval_record (JDict fields) None.

Definition structured_document (doc : json) (recs : list (option float)) : Prop :=
  exists fields items,
    doc = JDict fields /\
    assoc "intervals" fields = Some (JList items) /\
    Forall2 interval_record items recs.

(** How many of the records lack the field. *)
Fixpoint lacking (recs : list (option float)) : nat :=
  match recs with
  | [] => O
  | None :: rest => S (lacking rest)
  | Some _ :: rest => lacking rest
  end.

(** The samples of the records that have the field, each with the position
    of its record, counted from [pos]. *)
Fixpoint samples_from (pos : Z) (recs : list (option float)) : list (Z * float) :=
  match recs with
  | [] => []
  | Some x :: rest => (pos, (x / giga)%float) :: samples_from (pos + 1) rest
  | None :: rest => samples_from (pos + 1) rest
  end.

(** ** States

    [extend s events outs] is [s] after these events and the spawning of
    processes that write [outs]. *)

Definition extend (s : state) (events : list event) (outs : list (list string)) : state :=
  {| trace := trace s ++ events; procs := procs s ++ outs |}.

Definition after_read (s : state) (process : handle) : state :=
  {| trace := trace s ++ [EvReadAll process]; procs := procs s |}.

Definition log (s : state) (e : event) : state :=
  {| trace := trace s ++ [e]; procs := procs s |}.

(** What process [process] wrote. *)
Definition stdout_of (s : state) (process : handle) : list string :=
  default [] (procs s !! process).

(** A state in which process 0 has written [lines], and a world where
    nothing is typed, nothing can be spawned and every figure is drawn. *)
Definition wrote (lines : list string) : state := {| trace := []; procs := [lines] |}.

Definition idle : world :=
  {| stdin_line := None; spawn := fun _ _ => Raise OSError; draws := fun _ => Ret tt |}.

(** ** What the parser is given and what it makes of it *)

(** The texts that the loop of lines 55-57 gathers from [lines], after
    [output_lines]: every line decoded and stripped, or the exception of the
    first line that does not decode. *)
Fixpoint decode_lines `{Runtime} (lines output_lines : list string) : result (list string) :=
  match lines with
  | [] => Ret output_lines
  | line :: rest =>
      (text <- bytes_decode line ;;
       decode_lines rest (output_lines ++ [str_strip text]))%result
  end.

(** How many of [lines] the loop takes: all of them, or those up to the
    first that does not decode, that one included. *)
Fixpoint lines_taken `{Runtime} (lines : list string) : nat :=
  match lines with
  | [] => O
  | line :: rest =>
      match bytes_decode line with
      | Ret _ => S (lines_taken rest)
      | Raise _ => 1%nat
      end
  end.

(** The reading of the output [lines] of [process], as an event. *)
Definition read_event `{Runtime} (process : handle) (lines : list string) : event :=
  match decode_lines lines [] with
  | Ret _ => EvReadAll process
  | Raise _ => EvReadSome process (lines_taken lines)
  end.

(** The lines decode, and their text is what [json.loads] is given. *)
Definition captured_text `{Runtime} (lines : list string) (output : string) : Prop :=
  exists texts, decode_lines lines [] = Ret texts /\ output = join_lines texts.

(** ... and [json.loads] returns [doc] for it. *)
Definition decodes_to `{Runtime} (lines : list string) (doc : json) : Prop :=
  exists output, captured_text lines output /\ json_loads output = Ret doc.

(** What [parse_iperf_output] returns, and what it prints, for a process
    that wrote [lines]: the function itself, run on [wrote lines]. *)
Definition parsed `{Runtime} (lines : list string) : result (list Z * list float) :=
  fst (parse_iperf_output O idle (wrote lines)).

Definition parse_prints `{Runtime} (lines : list string) : list event :=
  drop 1 (trace (snd (parse_iperf_output O idle (wrote lines)))).

(** ** Numbers, least and greatest

    [<?] and [<=?] are the IEEE comparisons: on numbers they are a total
    order (with [-0 = +0]); every comparison with a NaN is false. *)

(** A binary64 value that is not a NaN. *)
Definition is_number (x : float) : Prop := PrimFloat.is_nan x = false.

(** [m] is an item of [l] and no item is below it. *)
Definition is_least (m : float) (l : list float) : Prop :=
  In m l /\ Forall (fun v => (m <=? v)%float = true) l.

(** [m] is an item of [l] and no item is above it. *)
Definition is_greatest (m : float) (l : list float) : Prop :=
  In m l /\ Forall (fun v => (v <=? m)%float = true) l.

(** The rational number a finite binary64 number stands for. *)
Definition exact_value (x : float) : option Q :=
  match Prim2SF x with
  | S754_zero _ => Some 0%Q
  | S754_finite s m e =>
      Some (inject_Z (if s then Z.neg m else Z.pos m) * Qpower 2 e)%Q
  | _ => None
  end.

(** [x] is within a relative 1e-9 of the rational [q]. *)
Definition close_to (x : float) (q : Q) : bool :=
  match exact_value x with
  | Some v => Qle_bool (Qabs (v - q)) ((1 # 1000000000) * Qabs q)
  | None => false
  end.

(** The arithmetic mean of a non-empty list of finite binary64 numbers,
    as a rational number. *)
Fixpoint exact_sum (l : list float) : option Q :=
  match l with
  | [] => Some 0%Q
  | x :: rest =>
      match exact_value x, exact_sum rest with
      | Some v, Some t => Some (v + t)%Q
      | _, _ => None
      end
  end.

Definition arithmetic_mean (l : list float) : option Q :=
  match l, exact_sum l with
  | _ :: _, Some t => Some (t / inject_Z (Z.of_nat (length l)))%Q
  | _, _ => None
  end.

(** [m] is within a relative 1e-9 of the arithmetic mean of [l]. *)
Definition mean_within (m : float) (l : list float) : bool :=
  match arithmetic_mean l with
  | Some q => close_to m q
  | None => false
  end.

(** ** Events *)

(** The command lines of [start_iperf_s] and [run_iperf]. *)
Definition server_cmd (namespace : string) : list string :=
  ["ip"; "netns"; "exec"; namespace; "iperf3"; "-s"].

Definition client_cmd (server_ip : string) (duration : Z) (namespace : string) : list string :=
  ["ip"; "netns"; "exec"; namespace; "iperf3"; "-c"; server_ip;
   "-t"; str_of_int duration; "-i"; "1"; "--json"].

Definition prompt : string := "Enter the duration of the iperf test in seconds: ".

Definition is_terminate (h : handle) (e : event) : bool :=
  match e with
  | EvTerminate h' => Nat.eqb h h'
  | _ => false
  end.

Definition is_show (e : event) : bool :=
  match e with
  | EvShow _ => true
  | _ => false
  end.

Definition is_print_of (text : string) (e : event) : bool :=
  match e with
  | EvPrint text' => String.eqb text text'
  | _ => false
  end.

(** How many events of a trace satisfy [p]. *)
Definition count (p : event -> bool) (l : list event) : nat :=
  length (List.filter p l).

(** The process an event is about. *)
Definition about (e : event) : option handle :=
  match e with
  | EvPopen _ h | EvReadAll h | EvReadSome h _ | EvTerminate h => Some h
  | _ => None
  end.

(** A step of the encrypted session: an event about its server (process 0)
    or its client (process 1), or its progress bar; and the same for the
    plain session (processes 2 and 3). *)
Definition encrypted_step (e : event) : Prop :=
  about e = Some 0%nat \/ about e = Some 1%nat
  \/ exists d, e = EvProgress "MACsec Progress" d.

Definition plain_step (e : event) : Prop :=
  about e = Some 2%nat \/ about e = Some 3%nat
  \/ exists d, e = EvProgress "Plain Progress" d.

(** The encrypted session from server start to server termination, in
    order (other events may lie between). *)
Definition encrypted_done (l : list event) : Prop :=
  exists server_ns target duration namespace,
    [EvPopen (server_cmd server_ns) 0%nat;
     EvSleep 1;
     EvPopen (client_cmd target duration namespace) 1%nat;
     EvProgress "MACsec Progress" duration;
     EvReadAll 1%nat;
     EvTerminate 0%nat] `sublist_of` l.

(** ** Sessions

    Lines 149-160 and lines 162-173 of [main] are the same nine statements;
    [session] is that block, with what differs between the two as
    arguments, [finish] is lines 175-178, and [main_in_sessions] is [main]
    written with them ([main_with_sessions] proves it equal to
    [main_with]). *)

Definition session `{Runtime} (g : globals) (name : string) (starting running : string)
  (target : string) (duration : Z) (namespace desc : string) : M (list Z * list float) :=
  (print starting ;;
   server <- load_global g name ;;
   server_proc <- start_iperf_s server ;;
   sleep 1 ;;
   print running ;;
   process <- run_iperf target duration namespace ;;
   progress_wait desc duration ;;
   parsed <- parse_iperf_output process ;;
   terminate server_proc ;;
   ret parsed)%prog.

Definition starting (namespace : string) : string :=
  "Starting iperf server in namespace " ++ namespace ++ "...".

Definition running (which namespace : string) (duration : Z) : string :=
  which ++ namespace ++ " for " ++ str_of_int duration ++ " seconds...".

Definition finish `{Runtime} (parsed1 parsed2 : list Z * list float) : M unit :=
  let '(timestamps1, bandwidths1) := parsed1 in
  let '(timestamps2, bandwidths2) := parsed2 in
  if truthy timestamps1 && truthy bandwidths1 && truthy timestamps2 && truthy bandwidths2
  then plot_bandwidth timestamps1 bandwidths1 timestamps2 bandwidths2
  else print no_data_message.

Definition main_in_sessions `{Runtime} (c : config) (g : globals) : M unit :=
  (answer <- input prompt ;;
   duration <- lift (int_of_str answer) ;;
   parsed1 <- session g "server1" (starting (line146 c))
                (running "Running first iperf test in namespace " (line142 c) duration)
                (line146 c) duration (line142 c) "MACsec Progress" ;;
   parsed2 <- session g "server2" (starting (line147 c))
                (running "Running second iperf test in namespace " (line143 c) duration)
                (line146 c) duration (line143 c) "Plain Progress" ;;
   finish parsed1 parsed2)%prog.

(** The events of a session up to the start of its client, up to the
    return of the parser, and up to the end. *)
Definition to_client (starting running : string) (server : handle) (server_ns : string)
  : list event :=
  [EvPrint starting; EvPopen (server_cmd server_ns) server; EvSleep 1; EvPrint running].

Definition to_parse `{Runtime} (starting running : string) (server : handle) (server_ns : string)
  (target : string) (duration : Z) (namespace desc : string) (lines : list string)
  : list event :=
  to_client starting running server server_ns
  ++ [EvPopen (client_cmd target duration namespace) (S server); EvProgress desc duration]
  ++ replicate (Z.to_nat duration) (EvSleep 1)
  ++ read_event (S server) lines :: parse_prints lines.

Definition to_done `{Runtime} (starting running : string) (server : handle) (server_ns : string)
  (target : string) (duration : Z) (namespace desc : string) (lines : list string)
  : list event :=
  to_parse starting running server server_ns target duration namespace desc lines
  ++ [EvTerminate server].

(** The kinds of event in a session whose server is process [server]. *)
Definition session_event (server : handle) (desc : string) (e : event) : Prop :=
  (exists text, e = EvPrint text)
  \/ e = EvSleep 1
  \/ (exists cmd, e = EvPopen cmd server)
  \/ (exists cmd, e = EvPopen cmd (S server))
  \/ (exists d, e = EvProgress desc d)
  \/ e = EvReadAll (S server)
  \/ (exists n, e = EvReadSome (S server) n)
  \/ e = EvTerminate server.

(** The four ways a session can go, from the state [s] it starts in. *)
Inductive session_outcome `{Runtime} (g : globals) (name starting running target : string)
  (duration : Z) (namespace desc : string) (w : world) (s : state)
  : result (list Z * list float) -> state -> Prop :=
| session_no_server e :
    (g !! name = None /\ e = NameError name)
    \/ (exists v, g !! name = Some v
                  /\ spawn w (length (procs s)) (server_cmd v) = Raise e) ->
    session_outcome g name starting running target duration namespace desc w s
      (Raise e) (extend s [EvPrint starting] [])
| session_no_client v out e :
    g !! name = Some v ->
    spawn w (length (procs s)) (server_cmd v) = Ret out ->
    spawn w (S (length (procs s))) (client_cmd target duration namespace) = Raise e ->
    session_outcome g name starting running target duration namespace desc w s
      (Raise e)
      (extend s (to_client starting running (length (procs s)) v) [out])
| session_parse_raises v out lines e :
    g !! name = Some v ->
    spawn w (length (procs s)) (server_cmd v) = Ret out ->
    spawn w (S (length (procs s))) (client_cmd target duration namespace) = Ret lines ->
    parsed lines = Raise e ->
    session_outcome g name starting running target duration namespace desc w s
      (Raise e)
      (extend s (to_parse starting running (length (procs s)) v
                   target duration namespace desc lines) [out; lines])
| session_done v out lines r :
    g !! name = Some v ->
    spawn w (length (procs s)) (server_cmd v) = Ret out ->
    spawn w (S (length (procs s))) (client_cmd target duration namespace) = Ret lines ->
    parsed lines = Ret r ->
    session_outcome g name starting running target duration namespace desc w s
      (Ret r)
      (extend s (to_done starting running (length (procs s)) v
                   target duration namespace desc lines) [out; lines]).

(** A predicate that holds of no tick, of no diagnostic and of no reading
    counts only the seven other events of a session. *)
Definition quiet (p : event -> bool) : Prop :=
  p (EvSleep 1) = false
  /\ (forall msg, p (EvPrint ("Error parsing JSON: " ++ msg)%string) = false)
  /\ (forall h, p (EvReadAll h) = false)
  /\ (forall h n, p (EvReadSome h n) = false).

Definition returned {A : Type} (r : result A) : bool :=
  match r with
  | Ret _ => true
  | Raise _ => false
  end.

(** What the run needs to know of a session whose server is [server]. *)
Record session_facts `{Runtime} (server : handle) (events : list event) (outs : list (list string))
  (r : result (list Z * list float)) : Prop := {
  facts_terminate :
    forall h, count (is_terminate h) events
              = (if returned r && Nat.eqb h server then 1 else 0)%nat;
  facts_reads :
    forall k, In (EvReadAll k) events ->
      k = S server /\ exists out lines, outs = [out; lines] /\ parsed lines = r;
  facts_returned :
    returned r = true -> In (EvReadAll (S server)) events /\ length outs = 2%nat;
  facts_outs : (length outs <= 2)%nat;
  facts_show : count is_show events = O;
  facts_no_data : count (is_print_of no_data_message) events = O
}.

(** ** Runs *)

(** The state after the prompt. *)
Definition asked : state := extend init [EvInput prompt] [].

Definition first_session `{Runtime} (c : config) (g : globals) (duration : Z) (w : world) (s : state)
  : result (list Z * list float) -> state -> Prop :=
  session_outcome g "server1" (starting (line146 c))
    (running "Running first iperf test in namespace " (line142 c) duration)
    (line146 c) duration (line142 c) "MACsec Progress" w s.

Definition second_session `{Runtime} (c : config) (g : globals) (duration : Z) (w : world) (s : state)
  : result (list Z * list float) -> state -> Prop :=
  session_outcome g "server2" (starting (line147 c))
    (running "Running second iperf test in namespace " (line143 c) duration)
    (line146 c) duration (line143 c) "Plain Progress" w s.

(** The two ways of lines 175-178, what they add to the trace and how
    they end: as the drawing does, or with the message printed. *)
Inductive finish_outcome `{Runtime} (p1 p2 : list Z * list float) (w : world) (s : state)
  : result unit -> state -> Prop :=
| finish_plots fig :
    truthy (fst p1) && truthy (snd p1) && truthy (fst p2) && truthy (snd p2) = true ->
    plot_figure (fst p1) (snd p1) (fst p2) (snd p2) = Ret fig ->
    finish_outcome p1 p2 w s (draws w fig) (extend s [EvShow fig] [])
| finish_no_data :
    truthy (fst p1) && truthy (snd p1) && truthy (fst p2) && truthy (snd p2) = false ->
    finish_outcome p1 p2 w s (Ret tt) (extend s [EvPrint no_data_message] []).

Definition verdict (p1 p2 : list Z * list float) (fin : list event) : Prop :=
  if truthy (fst p1) && truthy (snd p1) && truthy (fst p2) && truthy (snd p2)
  then exists fig, fin = [EvShow fig]
  else fin = [EvPrint no_data_message].

(** The four ways a run can go. *)
Inductive main_outcome `{Runtime} (c : config) (g : globals) (w : world) : result unit -> state -> Prop :=
| main_no_duration e :
    (stdin_line w = None /\ e = EOFError)
    \/ (exists answer, stdin_line w = Some answer /\ int_of_str answer = Raise e) ->
    main_outcome c g w (Raise e) asked
| main_first_fails answer duration e s1 :
    stdin_line w = Some answer -> int_of_str answer = Ret duration ->
    first_session c g duration w asked (Raise e) s1 ->
    main_outcome c g w (Raise e) s1
| main_second_fails answer duration p1 s1 e s2 :
    stdin_line w = Some answer -> int_of_str answer = Ret duration ->
    first_session c g duration w asked (Ret p1) s1 ->
    second_session c g duration w s1 (Raise e) s2 ->
    main_outcome c g w (Raise e) s2
| main_finishes answer duration p1 s1 p2 s2 r s3 :
    stdin_line w = Some answer -> int_of_str answer = Ret duration ->
    first_session c g duration w asked (Ret p1) s1 ->
    second_session c g duration w s1 (Ret p2) s2 ->
    finish_outcome p1 p2 w s2 r s3 ->
    main_outcome c g w r s3.

(** ** Samples *)

Definition newline : string := String "010"%char EmptyString.

Definition quoted (s : string) : string :=
  String Ref.dquote (s ++ String Ref.dquote EmptyString).

(** An interval record with the throughput [bps], and one without. *)
Definition record_text (bps : option string) : string :=
  match bps with
  | Some x => "{" ++ quoted "sum" ++ ": {" ++ quoted "bits_per_second" ++ ": " ++ x ++ "}}"
  | None => "{" ++ quoted "sum" ++ ": {" ++ quoted "bytes" ++ ": 0}}"
  end.

(** The document with these records, one per line, as a process writes it. *)
Definition document_lines (records : list (option string)) : list string :=
  ("{" ++ quoted "intervals" ++ ": [" ++ newline)
  :: match records with
     | [] => []
     | r :: rest =>
         ("  " ++ record_text r ++ newline)
         :: map (fun r' => "  ," ++ record_text r' ++ newline) rest
     end
  ++ ["]}" ++ newline].

(** Three intervals, all with the field. *)
Definition full_output : list string :=
  document_lines [Some "9500000000.0"; Some "2000000000"; Some "8.25e9"].

Definition full_throughputs : list float :=
  [9500000000; 2000000000; 8250000000]%float.

(** Three intervals, the first without the field. *)
Definition gap_output : list string :=
  document_lines [None; Some "9500000000.0"; Some "2000000000"].

Definition gap_records : list (option float) :=
  [None; Some 9500000000%float; Some 2000000000%float].

(** Two synthetic series of ten samples, written in decimal (each literal
    stands for the nearest binary64 number); the second starts with a 0. *)

Local Set Warnings "-inexact-float".

Definition series_a : list float :=
  [9.41; 9.38; 9.4; 9.35; 9.42; 9.39; 9.37; 9.43; 9.36; 9.4]%float.

Definition series_b : list float :=
  [0; 12.5; 13.1; 12.9; 13; 12.7; 13.2; 12.8; 13.3; 12.6]%float.

Definition ticks : list Z := seqZ 1 10.

(** The literals filled in for a lab with four namespaces, and the two
    names [main] expects among the globals. *)
Definition lab_config : config :=
  {| line137 := "10.0.0.2"; line138 := "10.0.1.2";
     line142 := "ns1"; line143 := "ns3";
     line146 := "ns2"; line147 := "ns4" |}.

Definition lab_globals : globals := {[ "server1" := "ns2"; "server2" := "ns4" ]}.

(** The operator types 3; every spawn succeeds; the servers write nothing
    and the two clients write [out1] and [out2]; every figure is drawn. *)
Definition lab_world (out1 out2 : list string) : world :=
  {| stdin_line := Some "3";
     spawn := fun n _ =>
       match n with
       | 1%nat => Ret out1
       | 3%nat => Ret out2
       | _ => Ret []
       end;
     draws := fun _ => Ret tt |}.

Definition good_run : result unit * state :=
  main_with lab_config lab_globals (lab_world full_output gap_output) init.

(** The first client writes [[]]: JSON, but no object. *)
Definition bad_run : result unit * state :=
  main_with lab_config lab_globals (lab_world ["[]" ++ newline] full_output) init.

(** The second client writes nothing. *)
Definition silent_run : result unit * state :=
  main_with lab_config lab_globals (lab_world full_output []) init.

(** The file as it is. *)
Definition shipped_run : result unit * state :=
  main (lab_world full_output gap_output) init.

(** ** Malformed records

    An item of the interval list on which a turn of the loop raises: it is
    no object (it has no [get]), or its ["sum"] is a number, a boolean or
    [null] ([in] fails), or its ["bits_per_second"] is no number ([/] fails)
    or an int too large for [float]. *)

Definition is_scalar (v : json) : bool :=
  match v with
  | JNull | JBool _ | JInt _ | JFloat _ => true
  | _ => false
  end.

Definition is_object (v : json) : bool :=
  match v with
  | JDict _ => true
  | _ => false
  end.

(** A value that [/] takes: a float, or an int (a bool is one). *)
Definition is_numeric (v : json) : bool :=
  match v with
  | JBool _ | JInt _ | JFloat _ => true
  | _ => false
  end.

Inductive malformed_record : json -> exn -> Prop :=
| malformed_item v :
    is_object v = false ->
    malformed_record v AttributeError
| malformed_sum fields v :
    assoc "sum" fields = Some v ->
    is_scalar v = true ->
    malformed_record (JDict fields) TypeError
| malformed_throughput fields agg v :
    assoc "sum" fields = Some (JDict agg) ->
    assoc "bits_per_second" agg = Some v ->
    is_numeric v = false ->
    malformed_record (JDict fields) TypeError
| malformed_magnitude fields agg n :
    assoc "sum" fields = Some (JDict agg) ->
    assoc "bits_per_second" agg = Some (JInt n) ->
    float_of_int n = Raise OverflowError ->
    malformed_record (JDict fields) OverflowError.

(** No number of a decoded value is a NaN ([json.loads] makes one of the
    token [NaN] only; an infinity is a number). *)
Fixpoint no_nan (v : json) : bool :=
  match v with
  | JFloat x => negb (PrimFloat.is_nan x)
  | JList items =>
      (fix all (l : list json) : bool :=
         match l with
         | [] => true
         | item :: rest => no_nan item && all rest
         end) items
  | JDict fields =>
      (fix all (l : list (string * json)) : bool :=
         match l with
         | [] => true
         | (_, item) :: rest => no_nan item && all rest
         end) fields
  | _ => true
  end.

(** ** More on events *)

(** The seconds a trace spends in [time.sleep]. *)
Fixpoint slept (l : list event) : Z :=
  match l with
  | [] => 0
  | EvSleep seconds :: rest => seconds + slept rest
  | _ :: rest => slept rest
  end.

(** ** More samples *)

(** An object whose ["intervals"] is [null]. *)
Definition null_output : list string :=
  ["{" ++ quoted "intervals" ++ ": null}" ++ newline].

(** A document whose first throughput is the token [NaN]. *)
Definition nan_output : list string :=
  document_lines [Some "NaN"; Some "2000000000"].

(** Two samples of the greatest power of two that is a binary64 number. *)
Definition series_huge : list float := [0x1p+1023; 0x1p+1023]%float.

(** A client on a link of a few Mbit/s: every sample is below 0.0083 Gbit/s. *)
Definition series_slow : list float := [0.005; 0.004; 0.0062]%float.

(** What iperf3 writes when it cannot connect: an object with no intervals. *)
Definition error_output : list string :=
  ["{" ++ quoted "start" ++ ": {}, " ++ quoted "intervals" ++ ": [], "
   ++ quoted "error" ++ ": " ++ quoted "unable to connect to server" ++ "}" ++ newline].

(** A document whose second record has a throughput that is a string. *)
Definition broken_output : list string :=
  document_lines [Some "9500000000.0"; Some (quoted "fast"); Some "2000000000"].

(** A line that is not UTF-8 after a line that is. *)
Definition binary_output : list string :=
  ["{" ++ newline; String (ascii_of_N 255) newline].

(** The operator types nothing that is a number. *)
Definition mute_world : world :=
  {| stdin_line := Some "ten"; spawn := fun _ _ => Ret []; draws := fun _ => Ret tt |}.

(** * Properties of the parser *)

Section Parser.

Context `{rt : Runtime}.

Local Open Scope list_scope.

Lemma giga_nonzero : PrimFloat.eqb giga 0 = false.
Proof. reflexivity. Qed.

Lemma py_truediv_number v x :
  number_value v = Some x -> py_truediv v giga = Ret (x / giga)%float.
Proof.
  destruct v; cbn [number_value py_truediv]; try discriminate.
  - destruct (float_of_int n) eqn:E; [|discriminate].
    intros [= ->]. cbn [rbind]. now rewrite giga_nonzero.
  - intros [= ->]. now rewrite giga_nonzero.
Qed.

(** One turn of the loop on a record with the field, and on one without. *)
Lemma extract_loop_with idx fields agg v x rest ts bw :
  assoc "sum" fields = Some (JDict agg) ->
  assoc "bits_per_second" agg = Some v ->
  number_value v = Some x ->
  extract_loop idx (JDict fields :: rest) ts bw
  = extract_loop (idx + 1) rest (ts ++ [idx + 1]) (bw ++ [(x / giga)%float]).
Proof.
  intros Hsum Hbps Hnum. cbn [extract_loop py_get rbind].
  rewrite Hsum. cbn [py_contains rbind py_getitem]. rewrite Hbps.
  cbn [rbind]. rewrite (py_truediv_number _ _ Hnum). reflexivity.
Qed.

Lemma extract_loop_without idx r rest ts bw :
  interval_record r None ->
  extract_loop idx (r :: rest) ts bw = extract_loop (idx + 1) rest ts bw.
Proof.
  inversion 1 as [| fields agg Hsum Hbps | fields Hsum]; subst;
    cbn [extract_loop py_get rbind]; rewrite Hsum; cbn [py_contains rbind].
  - now rewrite Hbps.
  - reflexivity.
Qed.

Lemma extract_loop_records items recs :
  Forall2 interval_record items recs ->
  forall idx ts bw,
    extract_loop idx items ts bw
    = Ret (ts ++ (samples_from (idx + 1) recs).*1, bw ++ (samples_from (idx + 1) recs).*2).
Proof.
  induction 1 as [| r o items recs Hr _ IH]; intros idx ts bw.
  - cbn. now rewrite !app_nil_r.
  - destruct Hr as [fields agg v x Hsum Hbps Hnum | fields agg Hsum Hbps | fields Hsum].
    + rewrite (extract_loop_with _ _ _ _ _ _ _ _ Hsum Hbps Hnum), IH.
      cbn [samples_from fmap list_fmap fst snd]. now rewrite <- !app_assoc.
    + rewrite extract_loop_without by (eapply record_without_field; eauto).
      now rewrite IH.
    + rewrite extract_loop_without by (eapply record_without_sum; eauto).
      now rewrite IH.
Qed.

Lemma extract_document doc recs :
  structured_document doc recs ->
  extract doc = Ret ((samples_from 1 recs).*1, (samples_from 1 recs).*2).
Proof.
  intros (fields & items & -> & Hint & Hrecs).
  unfold extract. cbn [py_get rbind]. rewrite Hint. cbn [py_iter rbind].
  now rewrite (extract_loop_records _ _ Hrecs).
Qed.

(** The loop adds to both lists together. *)
Lemma extract_loop_lengths items :
  forall idx ts bw ts' bw',
    extract_loop idx items ts bw = Ret (ts', bw') ->
    length ts = length bw -> length ts' = length bw'.
Proof.
  induction items as [| r items IH]; intros idx ts bw ts' bw' Hrun Hlen.
  - cbn in Hrun. now injection Hrun as <- <-.
  - cbn [extract_loop] in Hrun.
    destruct (py_get r "sum" (JDict [])) as [sum_data|]; [|discriminate].
    cbn [rbind] in Hrun.
    destruct (py_contains "bits_per_second" sum_data) as [[]|]; [| |discriminate];
      cbn [rbind] in Hrun.
    + destruct (py_getitem sum_data "bits_per_second") as [raw|]; [|discriminate].
      cbn [rbind] in Hrun.
      destruct (py_truediv raw giga) as [x|]; [|discriminate].
      cbn [rbind] in Hrun. eapply IH; [exact Hrun|].
      rewrite !length_app. cbn. lia.
    + eapply IH; eauto.
Qed.

Lemma extract_lengths doc ts bw :
  extract doc = Ret (ts, bw) -> length ts = length bw.
Proof.
  unfold extract. destruct (py_get doc "intervals" (JList [])); [|discriminate].
  cbn [rbind]. destruct (py_iter a); [|discriminate]. cbn [rbind].
  intros Hrun. now apply (extract_loop_lengths _ _ _ _ _ _ Hrun).
Qed.

(** Nothing in the loop raises the decoder's exception. *)
Lemma float_of_int_raises n e : float_of_int n = Raise e -> e = OverflowError.
Proof.
  unfold float_of_int. destruct (binary_normalize prec emax n 0 false); congruence.
Qed.

Lemma py_truediv_not_json v y msg : py_truediv v y <> Raise (JSONDecodeError msg).
Proof.
  destruct v; cbn [py_truediv]; try discriminate.
  - destruct (float_of_int (if b then 1 else 0)) eqn:E; cbn [rbind].
    + destruct PrimFloat.eqb; discriminate.
    + apply float_of_int_raises in E as ->. discriminate.
  - destruct (float_of_int n) eqn:E; cbn [rbind].
    + destruct PrimFloat.eqb; discriminate.
    + apply float_of_int_raises in E as ->. discriminate.
  - destruct PrimFloat.eqb; discriminate.
Qed.

Lemma extract_loop_not_json items msg :
  forall idx ts bw, extract_loop idx items ts bw <> Raise (JSONDecodeError msg).
Proof.
  induction items as [| r items IH]; intros idx ts bw; [discriminate|].
  cbn [extract_loop].
  destruct r; cbn [py_get rbind]; try discriminate.
  destruct (match assoc "sum" fields with Some x => x | None => JDict [] end);
    cbn [py_contains rbind]; try discriminate.
  - destruct (is_substring _ _); [cbn; discriminate | apply IH].
  - destruct (existsb _ _); [cbn; discriminate | apply IH].
  - destruct (assoc "bits_per_second" fields0) eqn:E; [|apply IH].
    cbn [py_getitem rbind]. rewrite E. cbn [rbind].
    destruct (py_truediv j giga) eqn:E'; cbn [rbind]; [apply IH|].
    intros [= ->]. now apply py_truediv_not_json in E'.
Qed.

Lemma extract_not_json doc msg : extract doc <> Raise (JSONDecodeError msg).
Proof.
  unfold extract. destruct doc; cbn [py_get rbind]; try discriminate.
  destruct (match assoc "intervals" fields with Some x => x | None => JList [] end);
    cbn [py_iter rbind]; try discriminate; apply extract_loop_not_json.
Qed.

(** What the walk can raise: the [AttributeError] of [get], the
    [TypeError] of the loop, of [in], of the subscript and of [/], and the
    [OverflowError] of [float].  The subscript of line 72 is guarded by the
    test of line 70, so there is no [KeyError]; [1e9] is not zero. *)
Lemma py_truediv_raises v e :
  py_truediv v giga = Raise e -> e = TypeError \/ e = OverflowError.
Proof.
  destruct v; cbn [py_truediv]; try (now intros [= <-]; left).
  - destruct (float_of_int (if b then 1 else 0)) eqn:E; cbn [rbind].
    + rewrite giga_nonzero. discriminate.
    + apply float_of_int_raises in E as ->. intros [= <-]. now right.
  - destruct (float_of_int n) eqn:E; cbn [rbind].
    + rewrite giga_nonzero. discriminate.
    + apply float_of_int_raises in E as ->. intros [= <-]. now right.
Qed.

Lemma extract_loop_raises items e :
  forall idx ts bw,
    extract_loop idx items ts bw = Raise e ->
    e = AttributeError \/ e = TypeError \/ e = OverflowError.
Proof.
  induction items as [| r items IH]; intros idx ts bw; [discriminate|].
  cbn [extract_loop].
  destruct r; cbn [py_get rbind]; try (now intros [= <-]; left).
  destruct (match assoc "sum" fields with Some x => x | None => JDict [] end);
    cbn [py_contains rbind]; try (now intros [= <-]; right; left).
  - destruct (is_substring _ _); [cbn; now intros [= <-]; right; left | apply IH].
  - destruct (existsb _ _); [cbn; now intros [= <-]; right; left | apply IH].
  - destruct (assoc "bits_per_second" fields0) eqn:E; [|apply IH].
    cbn [py_getitem rbind]. rewrite E. cbn [rbind].
    destruct (py_truediv j giga) eqn:E'; cbn [rbind]; [apply IH|].
    intros [= <-]. right. now apply py_truediv_raises in E'.
Qed.

Lemma extract_raises doc e :
  extract doc = Raise e -> e = AttributeError \/ e = TypeError \/ e = OverflowError.
Proof.
  unfold extract. destruct doc; cbn [py_get rbind]; try (now intros [= <-]; left).
  destruct (match assoc "intervals" fields with Some x => x | None => JList [] end);
    cbn [py_iter rbind]; try (now intros [= <-]; right; left); apply extract_loop_raises.
Qed.

(** The loop of lines 55-57 gathers the texts of [decode_lines], and stops
    after the lines of [lines_taken]. *)
Lemma read_lines_run process lines :
  forall taken output_lines w s,
    read_lines process lines taken output_lines w s
    = match decode_lines lines output_lines with
      | Ret texts => (Ret texts, after_read s process)
      | Raise e => (Raise e, log s (EvReadSome process (taken + lines_taken lines)))
      end.
Proof.
  induction lines as [|line lines IH]; intros taken output_lines w s; [reflexivity|].
  cbn [read_lines decode_lines lines_taken].
  destruct (bytes_decode line) as [text|e]; cbn [rbind].
  - rewrite IH. destruct (decode_lines lines _); [reflexivity|].
    now rewrite Nat.add_succ_r.
  - unfold bind, emit, raise, log. now rewrite Nat.add_1_r.
Qed.

(** [parse_iperf_output], with the loop in one step: the output is read to
    its end and the text walked, or the exception of a line leaves. *)
Lemma parse_unfold process w s :
  parse_iperf_output process w s
  = match decode_lines (stdout_of s process) [] with
    | Ret output_lines =>
        try_except_json
          (data <- lift (json_loads (join_lines output_lines)) ;;
           lift (extract data))%prog
          (fun e => print ("Error parsing JSON: " ++ e)%string ;; ret ([], []))%prog
          w (after_read s process)
    | Raise e =>
        (Raise e, log s (EvReadSome process (lines_taken (stdout_of s process))))
    end.
Proof.
  unfold parse_iperf_output, bind at 1. fold (stdout_of s process).
  rewrite read_lines_run. now destruct (decode_lines _ []).
Qed.

(** [parse_iperf_output] on output that decodes: the result of the loop,
    and nothing printed. *)
Lemma parse_decoded w s process doc :
  decodes_to (stdout_of s process) doc ->
  parse_iperf_output process w s = (extract doc, after_read s process).
Proof.
  intros (output & (texts & Hdec & ->) & Hloads).
  rewrite parse_unfold, Hdec. unfold bind, lift, try_except_json. rewrite Hloads.
  destruct (extract doc) as [[ts bw]|e] eqn:E; [reflexivity|].
  destruct e; try reflexivity. now apply extract_not_json in E.
Qed.

(** ... and on output that [json.loads] rejects. *)
Lemma parse_rejected w s process output msg :
  captured_text (stdout_of s process) output ->
  json_loads output = Raise (JSONDecodeError msg) ->
  parse_iperf_output process w s
  = (Ret ([], []), log (after_read s process) (EvPrint ("Error parsing JSON: " ++ msg)%string)).
Proof.
  intros (texts & Hdec & ->) Hloads.
  rewrite parse_unfold, Hdec. unfold bind, lift, try_except_json. rewrite Hloads.
  reflexivity.
Qed.

(** ... on output with a line that does not decode, and on output that
    [json.loads] answers with another exception. *)
Lemma parse_undecoded w s process e :
  decode_lines (stdout_of s process) [] = Raise e ->
  parse_iperf_output process w s
  = (Raise e, log s (EvReadSome process (lines_taken (stdout_of s process)))).
Proof. intros Hdec. now rewrite parse_unfold, Hdec. Qed.

Lemma parse_passes w s process output e :
  captured_text (stdout_of s process) output ->
  json_loads output = Raise e ->
  (forall msg, e <> JSONDecodeError msg) ->
  parse_iperf_output process w s = (Raise e, after_read s process).
Proof.
  intros (texts & Hdec & ->) Hloads Hother.
  rewrite parse_unfold, Hdec. unfold bind, lift, try_except_json. rewrite Hloads.
  destruct e; try reflexivity. now destruct (Hother msg).
Qed.

End Parser.

Section ParserClaims.

Context `{rt : Runtime}.

Local Open Scope list_scope.

(** *** Facts about [samples_from] *)

Lemma lacking_le recs : (lacking recs <= length recs)%nat.
Proof. induction recs as [|[x|] recs IH]; cbn; lia. Qed.

Lemma samples_from_length recs :
  forall pos, length (samples_from pos recs) = (length recs - lacking recs)%nat.
Proof.
  induction recs as [|[x|] recs IH]; intros pos; cbn [samples_from length lacking].
  - reflexivity.
  - rewrite IH. pose proof (lacking_le recs). lia.
  - rewrite IH. reflexivity.
Qed.

(** Every sample stands for a record with the field, at the position that
    is its index. *)
Lemma samples_from_sound recs :
  forall pos k i y,
    samples_from pos recs !! k = Some (i, y) ->
    exists x, pos <= i /\ recs !! Z.to_nat (i - pos) = Some (Some x) /\ y = (x / giga)%float.
Proof.
  induction recs as [|[x|] recs IH]; intros pos k i y Hk; cbn [samples_from] in Hk.
  - discriminate.
  - destruct k as [|k]; cbn in Hk.
    + injection Hk as <- <-. exists x. rewrite Z.sub_diag. cbn. repeat split; lia.
    + destruct (IH _ _ _ _ Hk) as (x' & Hle & Hrec & ->). exists x'.
      replace (Z.to_nat (i - pos)) with (S (Z.to_nat (i - (pos + 1)))) by lia.
      cbn. repeat split; [lia | assumption].
  - destruct (IH _ _ _ _ Hk) as (x' & Hle & Hrec & ->). exists x'.
    replace (Z.to_nat (i - pos)) with (S (Z.to_nat (i - (pos + 1)))) by lia.
    cbn. repeat split; [lia | assumption].
Qed.

(** Every record with the field gives a sample. *)
Lemma samples_from_complete recs :
  forall pos n x,
    recs !! n = Some (Some x) ->
    exists k, samples_from pos recs !! k = Some (pos + Z.of_nat n, (x / giga)%float).
Proof.
  induction recs as [|[x'|] recs IH]; intros pos n x Hn; [discriminate| |].
  - destruct n as [|n].
    + injection Hn as ->. exists O. cbn. now rewrite Z.add_0_r.
    + destruct (IH (pos + 1) n x Hn) as [k Hk]. exists (S k).
      rewrite Nat2Z.inj_succ.
      replace (pos + Z.succ (Z.of_nat n)) with (pos + 1 + Z.of_nat n) by lia.
      exact Hk.
  - destruct n as [|n]; [discriminate|].
    destruct (IH (pos + 1) n x Hn) as [k Hk]. exists k.
    rewrite Nat2Z.inj_succ.
    replace (pos + Z.succ (Z.of_nat n)) with (pos + 1 + Z.of_nat n) by lia.
    exact Hk.
Qed.

Lemma samples_from_lower recs :
  forall pos, Forall (fun i => pos <= i) (samples_from pos recs).*1.
Proof.
  induction recs as [|[x|] recs IH]; intros pos; cbn; [constructor| |].
  - constructor; [lia|]. eapply Forall_impl; [apply IH|]. cbn. intros; lia.
  - eapply Forall_impl; [apply IH|]. cbn. intros; lia.
Qed.

Lemma samples_from_increasing recs :
  forall pos, StronglySorted Z.lt (samples_from pos recs).*1.
Proof.
  induction recs as [|[x|] recs IH]; intros pos; cbn; [constructor| |apply IH].
  constructor; [apply IH|].
  eapply Forall_impl; [apply samples_from_lower|]. cbn. intros; lia.
Qed.

Lemma samples_from_all raws :
  forall pos,
    samples_from pos (map Some raws)
    = zip (seqZ pos (Z.of_nat (length raws))) (map (fun x => (x / giga)%float) raws).
Proof.
  induction raws as [|x raws IH]; intros pos; [reflexivity|].
  cbn [map samples_from length].
  rewrite Nat2Z.inj_succ, seqZ_cons by lia. rewrite IH. cbn [map zip zip_with].
  do 3 f_equal. lia.
Qed.

(** *** The claims *)

(** C1 (as amended).  For a structured document of N interval records, M
    of them without the bits-per-second field, [parse_iperf_output] returns
    exactly N - M samples.  The index of a sample is the position (from 1)
    of its record among all N records, as [enumerate] counts them, and its
    value is the throughput of that record divided by 1e9; every record with
    the field gives one sample.  So a record without the field does take up
    an index, and the indices increase strictly, by more than 1 across such
    a record. *)
Theorem parse_indices_are_record_positions w s process doc recs :
  decodes_to (stdout_of s process) doc ->
  structured_document doc recs ->
  exists ts bw,
    parse_iperf_output process w s = (Ret (ts, bw), after_read s process)
    /\ length ts = (length recs - lacking recs)%nat
    /\ length bw = (length recs - lacking recs)%nat
    /\ (forall k i, ts !! k = Some i ->
          exists x, 1 <= i /\ recs !! Z.to_nat (i - 1) = Some (Some x)
                    /\ bw !! k = Some (x / giga)%float)
    /\ (forall n x, recs !! n = Some (Some x) ->
          exists k, ts !! k = Some (Z.of_nat n + 1) /\ bw !! k = Some (x / giga)%float)
    /\ StronglySorted Z.lt ts.
Proof.
  intros Hdec Hdoc.
  exists (samples_from 1 recs).*1, (samples_from 1 recs).*2.
  rewrite (parse_decoded _ _ _ _ Hdec), (extract_document _ _ Hdoc).
  split; [reflexivity|].
  rewrite !length_fmap, samples_from_length.
  do 2 (split; [reflexivity|]).
  split; [|split].
  - intros k i Hk. rewrite list_lookup_fmap in Hk.
    destruct (samples_from 1 recs !! k) as [[i' y]|] eqn:E; [|discriminate].
    injection Hk as ->.
    destruct (samples_from_sound _ _ _ _ _ E) as (x & Hle & Hrec & ->).
    exists x. rewrite list_lookup_fmap, E. auto.
  - intros n x Hn. destruct (samples_from_complete _ 1 _ _ Hn) as [k Hk].
    exists k. rewrite !list_lookup_fmap, Hk. cbn. split; [f_equal; lia | reflexivity].
  - apply samples_from_increasing.
Qed.

(** C7.  For a structured document whose N interval records all have the
    bits-per-second field, [parse_iperf_output] returns N samples: the
    indices are 1..N and each value is the throughput of that record divided
    (in binary64) by 1e9. *)
Theorem parse_all_records_with_field w s process doc raws :
  decodes_to (stdout_of s process) doc ->
  structured_document doc (map Some raws) ->
  parse_iperf_output process w s
  = (Ret (seqZ 1 (Z.of_nat (length raws)), map (fun x => (x / giga)%float) raws),
     after_read s process).
Proof.
  intros Hdec Hdoc.
  rewrite (parse_decoded _ _ _ _ Hdec), (extract_document _ _ Hdoc), samples_from_all.
  rewrite fst_zip, snd_zip; [reflexivity| |]; rewrite length_seqZ, length_map; lia.
Qed.

(** Whenever [parse_iperf_output] returns, its two lists are as long. *)
Lemma parse_returns_equal_lengths w s process ts bw s' :
  parse_iperf_output process w s = (Ret (ts, bw), s') ->
  length ts = length bw.
Proof.
  rewrite parse_unfold. unfold bind, lift, try_except_json.
  destruct (decode_lines _ []) as [texts|]; [|discriminate].
  destruct (json_loads (join_lines texts)) as [doc|[]]; try discriminate.
  - destruct (extract doc) as [[ts0 bw0]|e] eqn:E.
    + intros [= <- <- _]. now apply extract_lengths in E.
    + destruct e; try discriminate. now apply extract_not_json in E.
  - cbn. now intros [= <- <- _].
Qed.

(** C10.  Whenever [parse_iperf_output] returns, after a successful decode
    of any value or after a decode failure, the two lists it returns have
    the same length. *)
Theorem parse_lists_have_equal_length w s process ts bw s' :
  parse_iperf_output process w s = (Ret (ts, bw), s') ->
  length ts = length bw.
Proof. apply parse_returns_equal_lengths. Qed.

(** C2 (as amended).  [parse_iperf_output] catches the [JSONDecodeError]
    of [json.loads] and nothing else.  When the captured text is one that
    [json.loads] rejects with it, the function returns two empty lists and
    prints a diagnostic that carries the decoder's message.  Every other
    exception escapes, and nothing is printed: the exception of a line that
    does not decode (a [UnicodeDecodeError]; the lines after it are not
    read), any other exception of [json.loads], and the exception of the
    walk through a decoded value of another shape.  The walk raises an
    [AttributeError] for every value that is no object, and whatever the
    value, what it raises is an [AttributeError], a [TypeError] or an
    [OverflowError]: never a [KeyError]. *)
Theorem parse_catches_decode_error_only w s process :
  (forall output msg,
     captured_text (stdout_of s process) output ->
     json_loads output = Raise (JSONDecodeError msg) ->
     parse_iperf_output process w s
     = (Ret ([], []),
        {| trace := trace s ++ [EvReadAll process;
                                EvPrint ("Error parsing JSON: " ++ msg)%string];
           procs := procs s |}))
  /\ (forall e,
        decode_lines (stdout_of s process) [] = Raise e ->
        parse_iperf_output process w s
        = (Raise e, log s (EvReadSome process (lines_taken (stdout_of s process)))))
  /\ (forall output e,
        captured_text (stdout_of s process) output ->
        json_loads output = Raise e ->
        (forall msg, e <> JSONDecodeError msg) ->
        parse_iperf_output process w s = (Raise e, after_read s process))
  /\ (forall doc,
        decodes_to (stdout_of s process) doc ->
        parse_iperf_output process w s = (extract doc, after_read s process)
        /\ (is_object doc = false -> extract doc = Raise AttributeError)
        /\ (forall e, extract doc = Raise e ->
              e = AttributeError \/ e = TypeError \/ e = OverflowError)).
Proof.
  split; [|split; [|split]].
  - intros output msg Hcap Hloads. rewrite (parse_rejected _ _ _ _ _ Hcap Hloads).
    unfold log, after_read. cbn. now rewrite <- app_assoc.
  - intros e. apply parse_undecoded.
  - intros output e. apply parse_passes.
  - intros doc Hdec. split; [exact (parse_decoded _ _ _ _ Hdec)|]. split.
    + now destruct doc.
    + intros e. apply extract_raises.
Qed.

End ParserClaims.

(** ** The parser on the samples *)

Ltac run := vm_compute; reflexivity.

Ltac decoded :=
  eexists; split; [eexists; split; [run | reflexivity] | run].

Ltac structured :=
  eexists _, _; split; [reflexivity | split; [reflexivity |]];
  repeat (apply List.Forall2_cons;
          [first [ eapply record_with_field; reflexivity
                 | eapply record_without_field; reflexivity ] |]);
  apply List.Forall2_nil.

Lemma parse_indices_are_record_positions_witness :
  exists ts bw,
    parse_iperf_output O idle (wrote gap_output)
    = (Ret (ts, bw), after_read (wrote gap_output) O)
    /\ length ts = (length gap_records - lacking gap_records)%nat
    /\ length bw = (length gap_records - lacking gap_records)%nat
    /\ (forall k i, ts !! k = Some i ->
          exists x, 1 <= i /\ gap_records !! Z.to_nat (i - 1) = Some (Some x)
                    /\ bw !! k = Some (x / giga)%float)
    /\ (forall n x, gap_records !! n = Some (Some x) ->
          exists k, ts !! k = Some (Z.of_nat n + 1) /\ bw !! k = Some (x / giga)%float)
    /\ StronglySorted Z.lt ts.
Proof.
  eapply (parse_indices_are_record_positions idle (wrote gap_output) O).
  - decoded.
  - structured.
Defined.

(** C1 as the specification has it fails: of the three records of
    [gap_output] the first lacks the field, and the two samples have the
    indices 2 and 3, not 1 and 2. *)
Lemma parse_gap_indices_not_dense :
  (exists doc, decodes_to (stdout_of (wrote gap_output) O) doc
               /\ structured_document doc gap_records)
  /\ length gap_records = 3%nat /\ lacking gap_records = 1%nat
  /\ fst (parse_iperf_output O idle (wrote gap_output))
     = Ret ([2; 3], [(9500000000 / giga)%float; (2000000000 / giga)%float])
  /\ [2; 3] <> seqZ 1 (3 - 1).
Proof.
  split; [eexists; split; [decoded | structured]|].
  split; [reflexivity|]. split; [reflexivity|]. split; [run | discriminate].
Qed.

Lemma parse_all_records_with_field_witness :
  parse_iperf_output O idle (wrote full_output)
  = (Ret (seqZ 1 (Z.of_nat (length full_throughputs)),
          map (fun x => (x / giga)%float) full_throughputs),
     after_read (wrote full_output) O).
Proof.
  eapply (parse_all_records_with_field idle (wrote full_output) O).
  - decoded.
  - structured.
Defined.

Lemma parse_lists_have_equal_length_witness :
  parse_iperf_output O idle (wrote gap_output)
  = (Ret ([2; 3], [(9500000000 / giga)%float; (2000000000 / giga)%float]),
     after_read (wrote gap_output) O)
  /\ length [2; 3] = length [(9500000000 / giga)%float; (2000000000 / giga)%float].
Proof.
  assert (parse_iperf_output O idle (wrote gap_output)
          = (Ret ([2; 3], [(9500000000 / giga)%float; (2000000000 / giga)%float]),
             after_read (wrote gap_output) O)) as Hrun by run.
  split; [exact Hrun|].
  exact (parse_lists_have_equal_length idle (wrote gap_output) O _ _ _ Hrun).
Defined.

(** A client that could not connect writes nothing to its standard
    output; one writes a line that is not UTF-8; one writes [[]]. *)
Lemma parse_catches_decode_error_only_witness :
  parse_iperf_output O idle (wrote [])
  = (Ret ([], []),
     {| trace := [EvReadAll O;
                  EvPrint "Error parsing JSON: Expecting value: line 1 column 1 (char 0)"];
        procs := [[]] |})
  /\ parse_iperf_output O idle (wrote binary_output)
     = (Raise UnicodeDecodeError, log (wrote binary_output) (EvReadSome O 2))
  /\ parse_iperf_output O idle (wrote ["[]" ++ newline])
     = (Raise AttributeError, after_read (wrote ["[]" ++ newline]) O).
Proof.
  split; [|split].
  - eapply (proj1 (parse_catches_decode_error_only idle (wrote []) O) "").
    + eexists; split; [run | reflexivity].
    + run.
  - rewrite (proj1 (proj2 (parse_catches_decode_error_only idle (wrote binary_output) O))
               UnicodeDecodeError); run.
  - destruct (proj2 (proj2 (proj2 (parse_catches_decode_error_only
                                     idle (wrote ["[]" ++ newline]) O)))
                (JList [])) as (Hrun & Hobj & _); [decoded|].
    rewrite Hrun. now rewrite Hobj.
Defined.

(** C2 as the specification has it fails: the text [[]] is JSON but no
    structured document (its top level is a list), and [parse_iperf_output]
    neither returns empty lists nor keeps the exception in: the
    [AttributeError] of [data.get] escapes.  So do the [UnicodeDecodeError]
    of a line that is not UTF-8, the [TypeError] of the loop over an
    ["intervals"] that is [null], and the [OverflowError] of an integer
    throughput beyond the range of [float]. *)
Lemma parse_lets_exceptions_escape :
  json_loads "[]" = Ret (JList [])
  /\ fst (parse_iperf_output O idle (wrote ["[]" ++ newline])) = Raise AttributeError
  /\ fst (parse_iperf_output O idle (wrote [String (ascii_of_N 255) newline]))
     = Raise UnicodeDecodeError
  /\ fst (parse_iperf_output O idle (wrote null_output)) = Raise TypeError
  /\ extract (JDict [("intervals",
                      JList [JDict [("sum", JDict [("bits_per_second", JInt (10 ^ 400))])]])])
     = Raise OverflowError.
Proof. split; [run|]. split; [run|]. split; [run|]. split; run. Qed.

(** * Properties of the visualizer *)

(** ** The order of binary64 numbers

    [<?] and [<=?] are the IEEE comparisons: on numbers they are a total
    order (with [-0 = +0]); every comparison with a NaN is false. *)

Module FloatOrder.

Ltac cmp_cases :=
  repeat match goal with
  | H : context [(?a ?= ?b)%Z] |- _ => destruct (Z.compare_spec a b)
  | |- context [(?a ?= ?b)%Z] => destruct (Z.compare_spec a b)
  | H : context [PosDef.Pos.compare_cont Eq ?a ?b] |- _ =>
      change (PosDef.Pos.compare_cont Eq a b) with (Pos.compare a b) in *;
      destruct (Pos.compare_spec a b)
  | |- context [PosDef.Pos.compare_cont Eq ?a ?b] =>
      change (PosDef.Pos.compare_cont Eq a b) with (Pos.compare a b) in *;
      destruct (Pos.compare_spec a b)
  end.

Ltac by_cases :=
  cbn in *; cmp_cases; subst; try discriminate; try reflexivity; try lia.

Lemma SFleb_trans a b c : SFleb a b = true -> SFleb b c = true -> SFleb a c = true.
Proof.
  unfold SFleb, SFcompare.
  destruct a as [[]|[]| |[] m1 e1], b as [[]|[]| |[] m2 e2], c as [[]|[]| |[] m3 e3];
    try discriminate; try reflexivity; intros H1 H2; by_cases.
Qed.

Lemma SFltb_leb_trans a b c : SFltb a b = true -> SFleb b c = true -> SFltb a c = true.
Proof.
  unfold SFltb, SFleb, SFcompare.
  destruct a as [[]|[]| |[] m1 e1], b as [[]|[]| |[] m2 e2], c as [[]|[]| |[] m3 e3];
    try discriminate; try reflexivity; intros H1 H2; by_cases.
Qed.

Lemma SFltb_leb a b : SFltb a b = true -> SFleb a b = true.
Proof.
  unfold SFltb, SFleb. destruct (SFcompare a b) as [[]|]; congruence.
Qed.

Lemma SFleb_total a b :
  a <> S754_nan -> b <> S754_nan -> SFltb a b = false -> SFleb b a = true.
Proof.
  unfold SFltb, SFleb, SFcompare.
  destruct a as [[]|[]| |[] m1 e1], b as [[]|[]| |[] m2 e2];
    try congruence; try reflexivity; intros _ _ H; by_cases.
Qed.

Lemma SFleb_refl a : a <> S754_nan -> SFleb a a = true.
Proof.
  unfold SFleb, SFcompare. destruct a as [[]|[]| |[] m e]; try congruence; intros _.
  all: rewrite Z.compare_refl;
    change (PosDef.Pos.compare_cont Eq m m) with (Pos.compare m m);
    now rewrite Pos.compare_refl.
Qed.

Lemma number_spec x : is_number x <-> Prim2SF x <> S754_nan.
Proof.
  unfold is_number, PrimFloat.is_nan. rewrite FloatAxioms.eqb_spec. unfold SFeqb.
  split.
  - intros H E. rewrite E in H. discriminate.
  - intros H. pose proof (SFleb_refl _ H) as R. unfold SFleb in R.
    destruct (Prim2SF x) as [[]|[]| |[] m e]; try congruence; try reflexivity.
    all: cbn in *; rewrite Z.compare_refl in *;
      change (PosDef.Pos.compare_cont Eq m m) with (Pos.compare m m) in *;
      now rewrite Pos.compare_refl in *.
Qed.

Lemma leb_trans x y z :
  (x <=? y)%float = true -> (y <=? z)%float = true -> (x <=? z)%float = true.
Proof. rewrite !leb_spec. apply SFleb_trans. Qed.

Lemma ltb_leb_trans x y z :
  (x <? y)%float = true -> (y <=? z)%float = true -> (x <? z)%float = true.
Proof. rewrite !ltb_spec, leb_spec. apply SFltb_leb_trans. Qed.

Lemma ltb_leb x y : (x <? y)%float = true -> (x <=? y)%float = true.
Proof. rewrite ltb_spec, leb_spec. apply SFltb_leb. Qed.

Lemma leb_total x y :
  is_number x -> is_number y -> (x <? y)%float = false -> (y <=? x)%float = true.
Proof. rewrite ltb_spec, leb_spec, !number_spec. apply SFleb_total. Qed.

Lemma leb_refl x : is_number x -> (x <=? x)%float = true.
Proof. rewrite leb_spec, number_spec. apply SFleb_refl. Qed.

(** *** A product with a finite number other than zero is a number *)

Lemma iter_pos_invariant {A : Type} (P : A -> Prop) (f : A -> A) :
  (forall x, P x -> P (f x)) -> forall p x, P x -> P (SpecFloat.iter_pos f p x).
Proof.
  intros Hf. induction p as [p IH|p IH|]; intros x Hx; cbn; auto.
Qed.

Lemma shr_1_nonneg mrs : 0 <= shr_m mrs -> 0 <= shr_m (shr_1 mrs).
Proof.
  destruct mrs as [m r s]. cbn. destruct m as [|[p|p|]|p]; cbn; lia.
Qed.

Lemma shr_nonneg mrs e n : 0 <= shr_m mrs -> 0 <= shr_m (fst (shr mrs e n)).
Proof.
  intros H. unfold shr. destruct n; cbn; auto.
  now apply (iter_pos_invariant (fun r => 0 <= shr_m r)), H; apply shr_1_nonneg.
Qed.

Lemma shr_fexp_nonneg m e l : 0 <= m -> 0 <= shr_m (fst (shr_fexp prec emax m e l)).
Proof.
  intros H. unfold shr_fexp. apply shr_nonneg. now destruct l as [|[]].
Qed.

Lemma round_nearest_even_nonneg m l : 0 <= m -> 0 <= round_nearest_even m l.
Proof.
  intros H. unfold round_nearest_even. destruct l as [|[]]; try lia.
  destruct (IntDef.Z.even m); lia.
Qed.

Lemma binary_round_aux_number s m e l :
  0 <= m -> binary_round_aux prec emax s m e l <> S754_nan.
Proof.
  intros H. unfold binary_round_aux.
  pose proof (shr_fexp_nonneg m e l H) as H1.
  destruct (shr_fexp prec emax m e l) as [mrs' e']. cbn [fst] in H1.
  pose proof (shr_fexp_nonneg _ e' loc_Exact
                (round_nearest_even_nonneg _ (loc_of_shr_record mrs') H1)) as H2.
  destruct (shr_fexp prec emax _ e' loc_Exact) as [mrs'' e'']. cbn [fst] in H2.
  destruct (shr_m mrs''); [discriminate| |lia].
  destruct (e'' <=? emax - prec)%Z; discriminate.
Qed.

Lemma mul_finite_number x c s m e :
  Prim2SF c = S754_finite s m e -> is_number x -> is_number (x * c)%float.
Proof.
  rewrite !number_spec, mul_spec. intros -> Hx. unfold SF64mul, SFmul.
  destruct (Prim2SF x) as [sx|sx| |sx mx ex]; try congruence; try discriminate.
  apply binary_round_aux_number. lia.
Qed.

End FloatOrder.

Section Visualizer.

Context `{rt : Runtime}.

Local Open Scope list_scope.
Local Open Scope float_scope.

Import FloatOrder.

(** *** The builtin [min] and [max] on numbers *)

Lemma min_loop_least rest :
  forall best,
    is_number best -> Forall is_number rest ->
    is_number (min_loop best rest)
    /\ is_least (min_loop best rest) (best :: rest).
Proof.
  induction rest as [|item rest IH]; intros best Hb Hrest.
  - split; [exact Hb|]. split; [now left|]. constructor; [now apply leb_refl | constructor].
  - inversion Hrest as [|? ? Hitem Hrest']; subst. cbn [min_loop].
    set (best' := if item <? best then item else best).
    assert (is_number best') as Hb' by (unfold best'; now destruct (item <? best)).
    assert ((best' <=? best) = true /\ (best' <=? item) = true /\ In best' [best; item])
      as (Hle1 & Hle2 & Hin).
    { unfold best'. destruct (item <? best) eqn:E.
      - repeat split; [now apply ltb_leb | now apply leb_refl | cbn; auto].
      - repeat split; [now apply leb_refl | now apply leb_total | cbn; auto]. }
    destruct (IH best' Hb' Hrest') as (Hn & Hin' & Hall). split; [exact Hn|].
    inversion Hall as [|? ? Hhead Htail]; subst. split.
    + destruct Hin' as [<-|Hin']; [|now right; right].
      destruct Hin as [<-|[<-|[]]]; [now left | now right; left].
    + repeat constructor; [| |exact Htail]; eapply leb_trans; eauto.
Qed.

Lemma max_loop_greatest rest :
  forall best,
    is_number best -> Forall is_number rest ->
    is_number (max_loop best rest)
    /\ is_greatest (max_loop best rest) (best :: rest).
Proof.
  induction rest as [|item rest IH]; intros best Hb Hrest.
  - split; [exact Hb|]. split; [now left|]. constructor; [now apply leb_refl | constructor].
  - inversion Hrest as [|? ? Hitem Hrest']; subst. cbn [max_loop].
    set (best' := if best <? item then item else best).
    assert (is_number best') as Hb' by (unfold best'; now destruct (best <? item)).
    assert ((best <=? best') = true /\ (item <=? best') = true /\ In best' [best; item])
      as (Hle1 & Hle2 & Hin).
    { unfold best'. destruct (best <? item) eqn:E.
      - repeat split; [now apply ltb_leb | now apply leb_refl | cbn; auto].
      - repeat split; [now apply leb_refl | now apply leb_total | cbn; auto]. }
    destruct (IH best' Hb' Hrest') as (Hn & Hin' & Hall). split; [exact Hn|].
    inversion Hall as [|? ? Hhead Htail]; subst. split.
    + destruct Hin' as [<-|Hin']; [|now right; right].
      destruct Hin as [<-|[<-|[]]]; [now left | now right; left].
    + repeat constructor; [| |exact Htail]; eapply leb_trans; eauto.
Qed.

Lemma py_min_least l :
  l <> [] -> Forall is_number l ->
  exists m, py_min l = Ret m /\ is_number m /\ is_least m l.
Proof.
  destruct l as [|first rest]; [congruence|]. intros _ Hl.
  inversion Hl; subst. exists (min_loop first rest). split; [reflexivity|].
  now apply min_loop_least.
Qed.

Lemma py_max_greatest l :
  l <> [] -> Forall is_number l ->
  exists m, py_max l = Ret m /\ is_number m /\ is_greatest m l.
Proof.
  destruct l as [|first rest]; [congruence|]. intros _ Hl.
  inversion Hl; subst. exists (max_loop first rest). split; [reflexivity|].
  now apply max_loop_greatest.
Qed.

(** The least of two lists' least items is the least item of both. *)
Lemma py_min2_concat m1 m2 l1 l2 :
  is_number m1 -> is_number m2 -> is_least m1 l1 -> is_least m2 l2 ->
  is_number (py_min2 m1 m2) /\ is_least (py_min2 m1 m2) (l1 ++ l2).
Proof.
  intros H1 H2 [Hin1 Hall1] [Hin2 Hall2].
  destruct (min_loop_least [m2] m1 H1 ltac:(now repeat constructor))
    as (Hn & Hin & Hall).
  fold (py_min2 m1 m2) in *. split; [exact Hn|].
  inversion Hall as [|? ? Hle1 Hall']; subst.
  inversion Hall' as [|? ? Hle2 _]; subst. split.
  - apply in_or_app. destruct Hin as [<-|[<-|[]]]; auto.
  - apply Forall_app. split.
    + eapply List.Forall_impl; [|exact Hall1]. intros v Hv. cbn in *.
      eapply leb_trans; [exact Hle1 | exact Hv].
    + eapply List.Forall_impl; [|exact Hall2]. intros v Hv. cbn in *.
      eapply leb_trans; [exact Hle2 | exact Hv].
Qed.

Lemma py_max2_concat m1 m2 l1 l2 :
  is_number m1 -> is_number m2 -> is_greatest m1 l1 -> is_greatest m2 l2 ->
  is_number (py_max2 m1 m2) /\ is_greatest (py_max2 m1 m2) (l1 ++ l2).
Proof.
  intros H1 H2 [Hin1 Hall1] [Hin2 Hall2].
  destruct (max_loop_greatest [m2] m1 H1 ltac:(now repeat constructor))
    as (Hn & Hin & Hall).
  fold (py_max2 m1 m2) in *. split; [exact Hn|].
  inversion Hall as [|? ? Hle1 Hall']; subst.
  inversion Hall' as [|? ? Hle2 _]; subst. split.
  - apply in_or_app. destruct Hin as [<-|[<-|[]]]; auto.
  - apply Forall_app. split.
    + eapply List.Forall_impl; [|exact Hall1]. intros v Hv. cbn in *.
      eapply leb_trans; [exact Hv | exact Hle1].
    + eapply List.Forall_impl; [|exact Hall2]. intros v Hv. cbn in *.
      eapply leb_trans; [exact Hv | exact Hle2].
Qed.

(** The product of two binary64 numbers does not depend on their order. *)
Lemma mul_comm x y : x * y = y * x.
Proof.
  rewrite <- (SF2Prim_Prim2SF (x * y)), <- (SF2Prim_Prim2SF (y * x)), !mul_spec.
  f_equal. unfold SF64mul, SFmul.
  destruct (Prim2SF x) as [sx|sx| |sx mx ex], (Prim2SF y) as [sy|sy| |sy my ey];
    try reflexivity; try (now rewrite xorb_comm).
  now rewrite xorb_comm, Pos.mul_comm, Z.add_comm.
Qed.

(** What [plot_figure] computes on two series of numbers. *)
Lemma plot_figure_numbers timestamps1 bandwidths1 timestamps2 bandwidths2 :
  bandwidths1 <> [] -> bandwidths2 <> [] ->
  Forall is_number bandwidths1 -> Forall is_number bandwidths2 ->
  exists min1 max1 min2 max2,
    (is_number min1 /\ is_least min1 bandwidths1)
    /\ (is_number max1 /\ is_greatest max1 bandwidths1)
    /\ (is_number min2 /\ is_least min2 bandwidths2)
    /\ (is_number max2 /\ is_greatest max2 bandwidths2)
    /\ plot_figure timestamps1 bandwidths1 timestamps2 bandwidths2
       = Ret {| fig_series1 := (timestamps1, bandwidths1);
                fig_series2 := (timestamps2, bandwidths2);
                fig_min1 := min1; fig_max1 := max1; fig_avg1 := np_mean bandwidths1;
                fig_min2 := min2; fig_max2 := max2; fig_avg2 := np_mean bandwidths2;
                fig_ylim := (py_max2 (py_min2 min1 min2 * lit_0_8) lit_0_01,
                             py_max2 max1 max2 * lit_1_2) |}.
Proof.
  intros Hne1 Hne2 Hn1 Hn2.
  destruct (py_min_least _ Hne1 Hn1) as (min1 & Emin1 & Hmin1).
  destruct (py_max_greatest _ Hne1 Hn1) as (max1 & Emax1 & Hmax1).
  destruct (py_min_least _ Hne2 Hn2) as (min2 & Emin2 & Hmin2).
  destruct (py_max_greatest _ Hne2 Hn2) as (max2 & Emax2 & Hmax2).
  exists min1, max1, min2, max2. repeat (split; [assumption|]).
  unfold plot_figure. rewrite Emin1, Emax1, Emin2, Emax2. reflexivity.
Qed.

(** C6 (as amended).  For two non-empty series of numbers (no value is a
    NaN), the y range that
    [plot_bandwidth] sets has as its lower bound the larger of 0.8 x m and
    0.01, where m is the least value of the two series together, and as its
    upper bound 1.2 x M, where M is their greatest value; the lower bound is
    above 0 whatever m is, 0 included. *)
Theorem y_range_is_scaled_and_floored timestamps1 bandwidths1 timestamps2 bandwidths2 :
  bandwidths1 <> [] -> bandwidths2 <> [] ->
  Forall is_number bandwidths1 -> Forall is_number bandwidths2 ->
  exists fig m M,
    plot_figure timestamps1 bandwidths1 timestamps2 bandwidths2 = Ret fig
    /\ is_least m (bandwidths1 ++ bandwidths2)
    /\ is_greatest M (bandwidths1 ++ bandwidths2)
    /\ is_greatest (fst (fig_ylim fig)) [lit_0_8 * m; lit_0_01]
    /\ snd (fig_ylim fig) = lit_1_2 * M
    /\ (0 <? fst (fig_ylim fig)) = true.
Proof.
  intros Hne1 Hne2 Hn1 Hn2.
  destruct (plot_figure_numbers timestamps1 _ timestamps2 _ Hne1 Hne2 Hn1 Hn2)
    as (min1 & max1 & min2 & max2 & [Nmin1 Hmin1] & [Nmax1 Hmax1]
        & [Nmin2 Hmin2] & [Nmax2 Hmax2] & ->).
  destruct (py_min2_concat _ _ _ _ Nmin1 Nmin2 Hmin1 Hmin2) as [Nm Hm].
  destruct (py_max2_concat _ _ _ _ Nmax1 Nmax2 Hmax1 Hmax2) as [NM HM].
  eexists _, (py_min2 min1 min2), (py_max2 max1 max2).
  split; [reflexivity|]. cbn [fig_ylim fst snd].
  split; [exact Hm|]. split; [exact HM|].
  rewrite (mul_comm lit_0_8), (mul_comm lit_1_2).
  set (x := py_min2 min1 min2 * lit_0_8).
  assert (is_number x) as Nx
    by (eapply (mul_finite_number _ lit_0_8); [reflexivity | exact Nm]).
  destruct (max_loop_greatest [lit_0_01] x Nx ltac:(now repeat constructor))
    as (_ & Hlo).
  fold (py_max2 x lit_0_01) in Hlo.
  split; [exact Hlo|]. split; [reflexivity|].
  destruct Hlo as [_ Hall]. inversion Hall as [|? ? _ Hall']; subst.
  inversion Hall' as [|? ? Hfloor _]; subst.
  now apply (ltb_leb_trans 0 lit_0_01).
Qed.


End Visualizer.

(** ** The visualizer on two synthetic series

    Ten samples each, written in decimal (each literal stands for the
    nearest binary64 number); the second series starts with a 0. *)

Ltac numbers := repeat (apply List.Forall_cons; [reflexivity|]); apply List.Forall_nil.

Lemma y_range_is_scaled_and_floored_witness :
  exists fig m M,
    plot_figure ticks series_a ticks series_b = Ret fig
    /\ is_least m (series_a ++ series_b)
    /\ is_greatest M (series_a ++ series_b)
    /\ is_greatest (fst (fig_ylim fig)) [(lit_0_8 * m)%float; lit_0_01]
    /\ snd (fig_ylim fig) = (lit_1_2 * M)%float
    /\ (0 <? fst (fig_ylim fig))%float = true.
Proof.
  apply (y_range_is_scaled_and_floored ticks series_a ticks series_b);
    [discriminate | discriminate | numbers | numbers].
Defined.

(** C6 as the specification has it fails.  [json.loads] makes a NaN of the
    token [NaN], and the parser returns it; a series that starts with a NaN
    has it as its minimum (no later value is below it), and the lower bound
    of the y range is then a NaN: it is not above 0. *)
Lemma y_range_lower_bound_nan :
  fst (parse_iperf_output O idle (wrote nan_output))
  = Ret ([1; 2], [(nan / giga)%float; (2000000000 / giga)%float])
  /\ match plot_figure [1; 2] [(nan / giga)%float; (2000000000 / giga)%float]
                       [1; 2] [(nan / giga)%float; (2000000000 / giga)%float] with
     | Ret fig =>
         PrimFloat.is_nan (fst (fig_ylim fig)) && negb (0 <? fst (fig_ylim fig))%float
     | Raise _ => false
     end = true.
Proof. split; run. Qed.

(** The least value is 0 here, and the lower bound is the floor 0.01. *)
Example y_range_of_series :
  fig_ylim <$> (match plot_figure ticks series_a ticks series_b with
                | Ret fig => Some fig
                | Raise _ => None
                end)
  = Some (lit_0_01, (13.3 * lit_1_2)%float).
Proof. vm_compute. reflexivity. Qed.



(** On the two series, the statistics computed with [ref_runtime] are
    within a relative 1e-9 of the values computed by hand:
    min 9.35, max 9.43, mean 9.391 and min 0, max 13.3, mean 11.61. *)
Example statistics_of_series :
  match plot_figure ticks series_a ticks series_b with
  | Ret fig =>
      close_to (fig_min1 fig) (935 # 100) && close_to (fig_max1 fig) (943 # 100)
      && close_to (fig_avg1 fig) (9391 # 1000)
      && close_to (fig_min2 fig) 0 && close_to (fig_max2 fig) (133 # 10)
      && close_to (fig_avg2 fig) (1161 # 100)
  | Raise _ => false
  end = true.
Proof. vm_compute. reflexivity. Qed.

(** * Properties of the entry routine *)

Section Orchestrator.

Context `{rt : Runtime}.

Local Open Scope list_scope.

Ltac step :=
  match goal with
  | |- context [match ?p with (_, _) => _ end] => is_var p; destruct p
  | |- context [match ?m ?w ?s with _ => _ end] =>
      lazymatch type of (m w s) with
      | (result _ * state)%type => destruct (m w s) as [[?|?] ?]
      end
  end.

(** [main_with] is its two sessions. *)
Lemma main_with_sessions c g w s : main_with c g w s = main_in_sessions c g w s.
Proof.
  unfold main_with, main_in_sessions, session, finish, bind, ret,
    starting, running, prompt.
  repeat (step; cbv beta iota; try reflexivity).
Qed.

(** *** What each step does to the state *)

Lemma extend_extend s ev1 outs1 ev2 outs2 :
  extend (extend s ev1 outs1) ev2 outs2 = extend s (ev1 ++ ev2) (outs1 ++ outs2).
Proof. unfold extend. cbn. now rewrite <- !app_assoc. Qed.

Lemma emit_run e w s : emit e w s = (Ret tt, extend s [e] []).
Proof. unfold emit, extend. now rewrite app_nil_r. Qed.

Lemma sleep_ticks_run n w s :
  sleep_ticks n w s = (Ret tt, extend s (replicate n (EvSleep 1)) []).
Proof.
  revert s. induction n as [|n IH]; intros s.
  - cbn. unfold ret, extend. now rewrite !app_nil_r; destruct s.
  - cbn [sleep_ticks]. unfold bind, sleep. rewrite emit_run, IH, extend_extend.
    reflexivity.
Qed.

Lemma progress_wait_run desc d w s :
  progress_wait desc d w s
  = (Ret tt, extend s (EvProgress desc d :: replicate (Z.to_nat d) (EvSleep 1)) []).
Proof.
  unfold progress_wait, bind. rewrite emit_run, sleep_ticks_run, extend_extend.
  reflexivity.
Qed.

Lemma popen_run cmd w s :
  popen cmd w s
  = match spawn w (length (procs s)) cmd with
    | Ret out => (Ret (length (procs s)), extend s [EvPopen cmd (length (procs s))] [out])
    | Raise e => (Raise e, s)
    end.
Proof. reflexivity. Qed.

(** [parse_iperf_output] looks at nothing but what the process wrote. *)
Lemma parse_run process w s :
  parse_iperf_output process w s
  = (parsed (stdout_of s process),
     extend s (read_event process (stdout_of s process)
               :: parse_prints (stdout_of s process)) []).
Proof.
  unfold parsed, parse_prints, read_event. rewrite !parse_unfold.
  change (stdout_of (wrote (stdout_of s process)) O) with (stdout_of s process).
  unfold bind, lift, try_except_json, print, emit, ret, extend, log, after_read.
  cbn [wrote procs trace].
  destruct (decode_lines _ []) as [texts|e]; cbn; [|now rewrite app_nil_r].
  destruct (json_loads (join_lines texts)) as [doc|e]; cbn.
  - destruct (extract doc) as [[ts bw]|e] eqn:E; cbn; [now rewrite app_nil_r|].
    destruct e; cbn; try now rewrite app_nil_r.
    now apply extract_not_json in E.
  - destruct e; cbn; rewrite ?app_nil_r; try reflexivity.
    now rewrite <- app_assoc.
Qed.

Lemma stdout_of_extend s events out lines :
  stdout_of (extend s events [out; lines]) (S (length (procs s))) = lines.
Proof.
  unfold stdout_of, extend. cbn [procs].
  rewrite lookup_app_r by lia.
  replace (S (length (procs s)) - length (procs s))%nat with 1%nat by lia.
  reflexivity.
Qed.

Lemma session_run g name starting running target duration namespace desc w s :
  session_outcome g name starting running target duration namespace desc w s
    (fst (session g name starting running target duration namespace desc w s))
    (snd (session g name starting running target duration namespace desc w s)).
Proof.
  unfold session, bind, print, sleep, terminate, load_global, start_iperf_s, run_iperf.
  rewrite emit_run.
  destruct (g !! name) as [v|] eqn:Eg; cbn [raise ret fst snd];
    [|apply session_no_server; auto].
  unfold bind. rewrite popen_run. cbn [extend procs]. rewrite app_nil_r.
  destruct (spawn w (length (procs s)) _) as [out|e] eqn:Es; cbn [ret fst snd];
    [|apply session_no_server; right; eauto].
  rewrite !emit_run, popen_run, !extend_extend. cbn [extend procs app].
  rewrite length_app. cbn [length]. rewrite Nat.add_1_r.
  destruct (spawn w (S (length (procs s))) _) as [lines|e] eqn:Ec; cbn [ret fst snd].
  - rewrite progress_wait_run, parse_run, !extend_extend.
    cbn [app]. rewrite (stdout_of_extend s _ out lines).
    destruct (parsed lines) as [r|e] eqn:Ep; cbn [fst snd].
    + rewrite emit_run, extend_extend. cbn [ret fst snd app].
      eapply (eq_rect _ (session_outcome _ _ _ _ _ _ _ _ _ _ _));
        [eapply session_done; eauto|].
      unfold to_done, to_parse, to_client. cbn [app].
      rewrite <- !app_assoc. reflexivity.
    + eapply (eq_rect _ (session_outcome _ _ _ _ _ _ _ _ _ _ _));
        [eapply session_parse_raises; eauto|].
      unfold to_parse, to_client. reflexivity.
  - eapply (eq_rect _ (session_outcome _ _ _ _ _ _ _ _ _ _ _));
      [eapply session_no_client; eauto|].
    unfold to_client. cbn [app]. reflexivity.
Qed.

(** *** The runs of [main_with] *)

Lemma py_min_nonempty l : truthy l = true -> exists m, py_min l = Ret m.
Proof. destruct l; [discriminate|]. cbn. eauto. Qed.

Lemma py_max_nonempty l : truthy l = true -> exists m, py_max l = Ret m.
Proof. destruct l; [discriminate|]. cbn. eauto. Qed.

Lemma finish_run p1 p2 w s :
  finish_outcome p1 p2 w s (fst (finish p1 p2 w s)) (snd (finish p1 p2 w s)).
Proof.
  destruct p1 as [ts1 bw1], p2 as [ts2 bw2]. unfold finish.
  destruct (truthy ts1 && truthy bw1 && truthy ts2 && truthy bw2) eqn:E.
  - apply andb_true_iff in E as [E E4]. apply andb_true_iff in E as [E E3].
    apply andb_true_iff in E as [E1 E2].
    destruct (py_min_nonempty _ E2) as [min1 Hmin1].
    destruct (py_max_nonempty _ E2) as [max1 Hmax1].
    destruct (py_min_nonempty _ E4) as [min2 Hmin2].
    destruct (py_max_nonempty _ E4) as [max2 Hmax2].
    unfold plot_bandwidth, bind, lift.
    assert (exists fig, plot_figure ts1 bw1 ts2 bw2 = Ret fig) as [fig Hfig].
    { unfold plot_figure. rewrite Hmin1, Hmax1, Hmin2, Hmax2. cbn. eauto. }
    rewrite Hfig, emit_run. unfold draw. cbn [fst snd].
    apply finish_plots; cbn [fst snd]; [|exact Hfig].
    now rewrite E1, E2, E3, E4.
  - unfold print. rewrite emit_run. cbn [fst snd].
    now apply finish_no_data.
Qed.

Lemma main_run c g w r s :
  main_with c g w init = (r, s) -> main_outcome c g w r s.
Proof.
  rewrite main_with_sessions. unfold main_in_sessions, bind, input, lift.
  change {| trace := trace init ++ [EvInput prompt]; procs := procs init |} with asked.
  destruct (stdin_line w) as [answer|] eqn:Ein;
    [|intros [= <- <-]; apply main_no_duration; auto].
  destruct (int_of_str answer) as [duration|e] eqn:Eint;
    [|intros [= <- <-]; apply main_no_duration; right; eauto].
  pose proof (session_run g "server1" (starting (line146 c))
                (running "Running first iperf test in namespace " (line142 c) duration)
                (line146 c) duration (line142 c) "MACsec Progress" w asked) as H1.
  destruct (session g "server1" _ _ _ _ _ _ w asked) as [[p1|e] s1]; cbn [fst snd] in H1;
    [|intros [= <- <-]; eapply main_first_fails; eauto].
  pose proof (session_run g "server2" (starting (line147 c))
                (running "Running second iperf test in namespace " (line143 c) duration)
                (line146 c) duration (line143 c) "Plain Progress" w s1) as H2.
  destruct (session g "server2" _ _ _ _ _ _ w s1) as [[p2|e] s2]; cbn [fst snd] in H2;
    [|intros [= <- <-]; eapply main_second_fails; eauto].
  pose proof (finish_run p1 p2 w s2) as Hf. intros E. rewrite E in Hf.
  cbn [fst snd] in Hf. eapply main_finishes; eauto.
Qed.

(** *** The events of a session, one by one *)

Lemma in_ticks e n : In e (replicate n (EvSleep 1)) -> e = EvSleep 1.
Proof. induction n as [|n IH]; cbn; [tauto|]. intros [<-|H]; auto. Qed.

Lemma parse_prints_diagnostic lines :
  parse_prints lines = []
  \/ exists msg, parse_prints lines = [EvPrint ("Error parsing JSON: " ++ msg)%string].
Proof.
  unfold parse_prints. rewrite parse_unfold.
  unfold bind, lift, try_except_json, print, emit, ret, log, after_read.
  cbn [wrote procs trace]. destruct (decode_lines _ []) as [texts|e]; cbn; [|now left].
  destruct (json_loads (join_lines texts)) as [doc|e]; cbn.
  - destruct (extract doc) as [[ts bw]|e]; cbn; [now left|].
    destruct e; cbn; eauto.
  - destruct e; cbn; eauto.
Qed.

Lemma in_parse_prints e lines :
  In e (parse_prints lines) ->
  exists msg, e = EvPrint ("Error parsing JSON: " ++ msg)%string.
Proof.
  destruct (parse_prints_diagnostic lines) as [->|[msg ->]]; cbn; [tauto|].
  intros [<-|[]]. eauto.
Qed.

Lemma read_event_cases process lines :
  read_event process lines = EvReadAll process
  \/ exists n, read_event process lines = EvReadSome process n.
Proof. unfold read_event. destruct (decode_lines lines []); eauto. Qed.

(** The parser returns only after it has read the output to its end. *)
Lemma read_event_returned process lines p :
  parsed lines = Ret p -> read_event process lines = EvReadAll process.
Proof.
  unfold parsed, read_event. rewrite parse_unfold.
  change (stdout_of (wrote lines) O) with lines.
  now destruct (decode_lines lines []).
Qed.

Lemma read_event_not_popen process lines cmd h :
  read_event process lines <> EvPopen cmd h.
Proof. now destruct (read_event_cases process lines) as [-> | [n ->]]. Qed.

Lemma in_to_done e starting running server server_ns target duration namespace desc lines :
  In e (to_done starting running server server_ns target duration namespace desc lines) ->
  session_event server desc e.
Proof.
  unfold to_done, to_parse, to_client, session_event.
  rewrite !in_app_iff. cbn [In].
  intros [[H|[H|[H|H]]]|H].
  - destruct H as [<-|[<-|[<-|[<-|[]]]]]; eauto 10.
  - destruct H as [<-|[<-|[]]]; eauto 10.
  - apply in_ticks in H as ->. auto.
  - destruct H as [<-|H]; [|apply in_parse_prints in H as [msg ->]; eauto].
    destruct (read_event_cases (S server) lines) as [-> | [n ->]]; eauto 10.
  - destruct H as [<-|[]]. auto 10.
Qed.

Lemma in_to_parse e starting running server server_ns target duration namespace desc lines :
  In e (to_parse starting running server server_ns target duration namespace desc lines) ->
  session_event server desc e.
Proof.
  intros H. eapply in_to_done. unfold to_done. apply in_app_iff. left. exact H.
Qed.

Lemma in_to_client e starting running server server_ns desc :
  In e (to_client starting running server server_ns) -> session_event server desc e.
Proof.
  unfold to_client, session_event. cbn [In].
  intros [<-|[<-|[<-|[<-|[]]]]]; eauto 10.
Qed.

Lemma encrypted_not_plain e : session_event O "MACsec Progress" e -> ~ plain_step e.
Proof.
  unfold session_event, plain_step.
  intros [[? ->]|[->|[[? ->]|[[? ->]|[[? ->]|[->|[[? ->]| ->]]]]]]] [H|[H|[? H]]];
    discriminate.
Qed.

Lemma plain_not_encrypted e : session_event 2%nat "Plain Progress" e -> ~ encrypted_step e.
Proof.
  unfold session_event, encrypted_step.
  intros [[? ->]|[->|[[? ->]|[[? ->]|[[? ->]|[->|[[? ->]| ->]]]]]]] [H|[H|[? H]]];
    discriminate.
Qed.

(** *** Lists *)

Lemma app_split_second {A : Type} (l1 l2 pre : list A) (e : A) (post : list A) :
  l1 ++ l2 = pre ++ e :: post -> ~ In e l1 ->
  exists mid, pre = l1 ++ mid /\ l2 = mid ++ e :: post.
Proof.
  revert pre. induction l1 as [|a l1 IH]; intros pre Heq Hnot.
  - exists pre. auto.
  - destruct pre as [|b pre]; cbn in Heq; injection Heq as -> Heq.
    + exfalso. apply Hnot. now left.
    + destruct (IH pre Heq) as (mid & -> & ->); [intros H; apply Hnot; now right|].
      exists mid. auto.
Qed.

(** *** Sessions in a run *)

(** Whatever way a session goes, its events are session events; when it
    returns, they are all of [to_done]. *)
Lemma session_outcome_events g name starting running target duration namespace desc
  w s r s' :
  session_outcome g name starting running target duration namespace desc w s r s' ->
  exists events outs,
    s' = extend s events outs
    /\ (forall e, In e events -> session_event (length (procs s)) desc e)
    /\ (forall p, r = Ret p ->
          exists v out lines,
            events = to_done starting running (length (procs s)) v
                       target duration namespace desc lines
            /\ outs = [out; lines] /\ parsed lines = Ret p).
Proof.
  intros [e He | v out e Hg Hs Hc | v out lines e Hg Hs Hc Hp | v out lines p Hg Hs Hc Hp];
    eexists _, _; (split; [reflexivity|]); split; try discriminate.
  - intros e' [<-|[]]. left. eauto.
  - intros e'. apply in_to_client.
  - intros e'. apply in_to_parse.
  - intros e'. apply in_to_done.
  - intros p' [= <-]. eauto 10.
Qed.

Lemma to_done_encrypted starting running server_ns target duration namespace lines before p :
  parsed lines = Ret p ->
  encrypted_done
    (before ++ to_done starting running O server_ns target duration namespace
                 "MACsec Progress" lines).
Proof.
  intros Hp. exists server_ns, target, duration, namespace.
  apply sublist_inserts_l. unfold to_done, to_parse, to_client.
  rewrite (read_event_returned _ _ _ Hp). cbn [app].
  rewrite <- !app_assoc. cbn [app].
  apply sublist_cons, sublist_skip, sublist_skip, sublist_cons, sublist_skip, sublist_skip.
  apply sublist_inserts_l, sublist_skip, sublist_inserts_l, sublist_skip, sublist_nil.
Qed.

(** The trace of a run is the encrypted session followed by the plain
    one, and the second part is empty unless the first session is done. *)
Lemma main_trace_split c g w r s :
  main_with c g w init = (r, s) ->
  exists first second,
    trace s = first ++ second
    /\ (forall e, In e first -> ~ plain_step e)
    /\ (forall e, In e second -> ~ encrypted_step e)
    /\ (second = [] \/ encrypted_done first).
Proof.
  intros H. apply main_run in H.
  assert (forall e, In e (trace asked) -> ~ plain_step e) as Hasked.
  { intros e [<-|[]] [H'|[H'|[? H']]]; discriminate. }
  destruct H as [e He | answer d e s1 Hin Hint H1 | answer d p1 s1 e s2 Hin Hint H1 H2
                | answer d p1 s1 p2 s2 r' s3 Hin Hint H1 H2 Hf].
  - exists (trace asked), []. rewrite app_nil_r.
    split; [reflexivity|]. split; [exact Hasked|]. split; [intros ? []|auto].
  - apply session_outcome_events in H1 as (ev & outs & -> & Hev & _).
    exists (trace asked ++ ev), []. rewrite app_nil_r.
    split; [reflexivity|]. split; [|split; [intros ? []|auto]].
    intros e' [H'|H']%in_app_iff; [now apply Hasked|].
    now apply encrypted_not_plain, Hev.
  - apply session_outcome_events in H1 as (ev & outs & -> & Hev & Hdone).
    destruct (Hdone p1 eq_refl) as (v & out & lines & -> & -> & Hp).
    apply session_outcome_events in H2 as (ev2 & outs2 & -> & Hev2 & _).
    eexists _, ev2. split; [reflexivity|]. split; [|split].
    + intros e' [H'|H']%in_app_iff; [now apply Hasked|].
      now apply encrypted_not_plain, Hev.
    + intros e' H'. now apply plain_not_encrypted, Hev2.
    + right. eapply to_done_encrypted, Hp.
  - apply session_outcome_events in H1 as (ev & outs & -> & Hev & Hdone).
    destruct (Hdone p1 eq_refl) as (v & out & lines & -> & -> & Hp).
    apply session_outcome_events in H2 as (ev2 & outs2 & -> & Hev2 & _).
    match type of Hf with
    | context [extend asked ?l [out; lines]] => set (enc := l) in *
    end.
    assert (exists last, trace s3 = (trace asked ++ enc) ++ (ev2 ++ [last])
                         /\ ~ encrypted_step last) as (last & -> & Hlast).
    { destruct Hf as [fig _ _ | _]; eexists; cbn [extend trace];
        (split; [now rewrite <- !app_assoc|]);
        intros [H'|[H'|[? H']]]; discriminate. }
    eexists _, _. split; [reflexivity|]. split; [|split].
    + intros e' [H'|H']%in_app_iff; [now apply Hasked|].
      now apply encrypted_not_plain, Hev.
    + intros e' [H'|[<-|[]]]%in_app_iff; [|exact Hlast].
      now apply plain_not_encrypted, Hev2.
    + right. eapply to_done_encrypted, Hp.
Qed.

(** *** Counting events *)

Lemma count_app p l1 l2 : count p (l1 ++ l2) = (count p l1 + count p l2)%nat.
Proof. unfold count. now rewrite List.filter_app, length_app. Qed.

Lemma count_ticks p n : p (EvSleep 1) = false -> count p (replicate n (EvSleep 1)) = O.
Proof.
  intros Hp. unfold count. induction n as [|n IH]; [reflexivity|].
  cbn. now rewrite Hp.
Qed.

Lemma count_parse_prints p lines :
  (forall msg, p (EvPrint ("Error parsing JSON: " ++ msg)%string) = false) ->
  count p (parse_prints lines) = O.
Proof.
  intros Hp. destruct (parse_prints_diagnostic lines) as [->|[msg ->]]; [reflexivity|].
  unfold count. cbn. now rewrite Hp.
Qed.

Lemma count_in p e l : In e l -> p e = true -> (1 <= count p l)%nat.
Proof.
  intros Hin Hp. unfold count. induction l as [|a l IH]; [destruct Hin|].
  cbn. destruct Hin as [->|Hin]; [rewrite Hp; cbn; lia|].
  destruct (p a); cbn; [|auto]. apply IH in Hin. lia.
Qed.

Lemma count_to_parse p starting running server server_ns target duration namespace desc lines :
  quiet p ->
  count p (to_parse starting running server server_ns target duration namespace desc lines)
  = count p [EvPrint starting; EvPopen (server_cmd server_ns) server; EvPrint running;
             EvPopen (client_cmd target duration namespace) (S server);
             EvProgress desc duration].
Proof.
  intros (Hs & Hd & Hall & Hsome). unfold to_parse, to_client.
  rewrite !count_app, count_ticks by exact Hs.
  change (read_event (S server) lines :: parse_prints lines)
    with ([read_event (S server) lines] ++ parse_prints lines).
  rewrite count_app, count_parse_prints by exact Hd.
  assert (p (read_event (S server) lines) = false) as Hr
    by (destruct (read_event_cases (S server) lines) as [-> | [n ->]]; auto).
  unfold count. cbn. rewrite Hs, Hr.
  repeat match goal with |- context [if ?b then _ else _] => destruct b end; cbn; lia.
Qed.

Lemma count_to_done p starting running server server_ns target duration namespace desc lines :
  quiet p ->
  count p (to_done starting running server server_ns target duration namespace desc lines)
  = (count p [EvPrint starting; EvPopen (server_cmd server_ns) server; EvPrint running;
              EvPopen (client_cmd target duration namespace) (S server);
              EvProgress desc duration]
     + count p [EvTerminate server])%nat.
Proof.
  intros Hq. unfold to_done. now rewrite count_app, count_to_parse.
Qed.

Lemma quiet_terminate h : quiet (is_terminate h).
Proof. repeat split. Qed.

Lemma quiet_show : quiet is_show.
Proof. repeat split. Qed.

Lemma quiet_no_data : quiet (is_print_of no_data_message).
Proof. repeat split. Qed.

(** *** What a session signals, reads and shows *)

Section Session.

Variables (g : globals) (name starting running target : string) (duration : Z).
Variables (namespace desc : string) (w : world) (s : state).
Variables (r : result (list Z * list float)) (s' : state).
Hypothesis outcome :
  session_outcome g name starting running target duration namespace desc w s r s'.

(** The server is signaled once if the session returns, and no process is
    signaled otherwise. *)
Lemma session_terminates h :
  exists events outs,
    s' = extend s events outs
    /\ count (is_terminate h) events
       = (if returned r && Nat.eqb h (length (procs s)) then 1 else 0)%nat.
Proof.
  destruct outcome as [e He | v out e Hg Hs Hc | v out lines e Hg Hs Hc Hp
                      | v out lines p Hg Hs Hc Hp];
    eexists _, _; (split; [reflexivity|]).
  - reflexivity.
  - reflexivity.
  - rewrite count_to_parse by apply quiet_terminate. reflexivity.
  - rewrite count_to_done by apply quiet_terminate. unfold count. cbn.
    now destruct (Nat.eqb h (length (procs s))).
Qed.

(** The only output it reads is that of its client, the process after its
    server; what the parser makes of it is the result of the session. *)
Lemma session_reads :
  exists events outs,
    s' = extend s events outs
    /\ (length outs <= 2)%nat
    /\ (returned r = true -> length outs = 2%nat)
    /\ (forall k, In (EvReadAll k) events ->
          k = S (length (procs s))
          /\ exists out lines, outs = [out; lines] /\ parsed lines = r)
    /\ (returned r = true -> In (EvReadAll (S (length (procs s)))) events).
Proof.
  destruct outcome as [e He | v out e Hg Hs Hc | v out lines e Hg Hs Hc Hp
                      | v out lines p Hg Hs Hc Hp];
    eexists _, _; (split; [reflexivity|]); cbn [length returned];
    (split; [lia|]); (split; [first [discriminate | reflexivity]|]); split;
    try discriminate.
  - intros k [[=]|[]].
  - intros k [[=]|[[=]|[[=]|[[=]|[]]]]].
  - intros k H. apply in_to_parse in H.
    destruct H as [[? [=]]|[[=]|[[? [=]]|[[? [=]]|[[? [=]]|[[= ->]|[[? [=]]|[=]]]]]]]].
    eauto.
  - intros k H. apply in_to_done in H.
    destruct H as [[? [=]]|[[=]|[[? [=]]|[[? [=]]|[[? [=]]|[[= ->]|[[? [=]]|[=]]]]]]]].
    eauto.
  - intros _. unfold to_done, to_parse. rewrite (read_event_returned _ _ _ Hp).
    rewrite !in_app_iff. left. right. right. right. now left.
Qed.

Lemma session_shows_nothing :
  exists events outs, s' = extend s events outs /\ count is_show events = O.
Proof.
  destruct outcome as [e He | v out e Hg Hs Hc | v out lines e Hg Hs Hc Hp
                      | v out lines p Hg Hs Hc Hp];
    eexists _, _; (split; [reflexivity|]);
    rewrite ?count_to_parse, ?count_to_done by apply quiet_show; reflexivity.
Qed.

Lemma session_prints_no_verdict :
  String.eqb no_data_message starting = false ->
  String.eqb no_data_message running = false ->
  exists events outs,
    s' = extend s events outs /\ count (is_print_of no_data_message) events = O.
Proof.
  intros H1 H2.
  destruct outcome as [e He | v out e Hg Hs Hc | v out lines e Hg Hs Hc Hp
                      | v out lines p Hg Hs Hc Hp];
    eexists _, _; (split; [reflexivity|]);
    rewrite ?count_to_parse, ?count_to_done by apply quiet_no_data;
    unfold count, to_client; cbn [List.filter is_print_of]; rewrite ?H1, ?H2; reflexivity.
Qed.

End Session.

Lemma extend_inj s ev1 outs1 ev2 outs2 :
  extend s ev1 outs1 = extend s ev2 outs2 -> ev1 = ev2 /\ outs1 = outs2.
Proof.
  unfold extend. intros [= H1 H2]. split; eapply app_inv_head; eauto.
Qed.

Lemma session_facts_of_outcome g name starting running target duration namespace desc
  w s r s' :
  String.eqb no_data_message starting = false ->
  String.eqb no_data_message running = false ->
  session_outcome g name starting running target duration namespace desc w s r s' ->
  exists events outs,
    s' = extend s events outs /\ session_facts (length (procs s)) events outs r.
Proof.
  intros Hm1 Hm2 H.
  destruct (session_reads _ _ _ _ _ _ _ _ _ _ _ _ H)
    as (ev & outs & -> & Hle & Hlen & Hreads & Hret).
  exists ev, outs. split; [reflexivity|]. split; auto.
  - intros h. destruct (session_terminates _ _ _ _ _ _ _ _ _ _ _ _ H h)
      as (ev' & outs' & [<- <-]%extend_inj & Hcount). exact Hcount.
  - destruct (session_shows_nothing _ _ _ _ _ _ _ _ _ _ _ _ H)
      as (ev' & outs' & [<- <-]%extend_inj & Hcount). exact Hcount.
  - destruct (session_prints_no_verdict _ _ _ _ _ _ _ _ _ _ _ _ H Hm1 Hm2)
      as (ev' & outs' & [<- <-]%extend_inj & Hcount). exact Hcount.
Qed.

(** A session that did not take place. *)
Lemma session_facts_absent server e : session_facts server [] [] (Raise e).
Proof.
  split; cbn; auto; try discriminate; try lia; try (intros k []).
Qed.

Ltac pieces := repeat match goal with |- _ /\ _ => split end.

(** A run, in one piece: the prompt, the events and processes of the two
    sessions (none for a session that did not take place) and the verdict
    (none unless both sessions returned). *)
Lemma main_summary c g w r s :
  main_with c g w init = (r, s) ->
  exists ev1 outs1 r1 ev2 outs2 r2 fin,
    trace s = [EvInput prompt] ++ ev1 ++ ev2 ++ fin
    /\ procs s = outs1 ++ outs2
    /\ session_facts O ev1 outs1 r1
    /\ session_facts 2%nat ev2 outs2 r2
    /\ (returned r1 = false -> ev2 = [] /\ outs2 = [] /\ returned r2 = false)
    /\ (returned r2 = false -> fin = [])
    /\ (forall p1 p2, r1 = Ret p1 -> r2 = Ret p2 -> verdict p1 p2 fin).
Proof.
  intros H. apply main_run in H.
  assert (forall x, String.eqb no_data_message (starting x) = false) as Hm1
    by reflexivity.
  assert (forall d x, String.eqb no_data_message
            (running "Running first iperf test in namespace " x d) = false) as Hm2
    by reflexivity.
  assert (forall d x, String.eqb no_data_message
            (running "Running second iperf test in namespace " x d) = false) as Hm3
    by reflexivity.
  destruct H as [e He | answer d e s1 Hin Hint H1 | answer d p1 s1 e s2 Hin Hint H1 H2
                | answer d p1 s1 p2 s2 r' s3 Hin Hint H1 H2 Hf].
  - exists [], [], (Raise e), [], [], (Raise e), [].
    pieces; auto using session_facts_absent; try discriminate.
  - apply session_facts_of_outcome in H1 as (ev1 & outs1 & -> & F1); auto.
    exists ev1, outs1, (Raise e), [], [], (Raise e), [].
    cbn [extend trace procs asked init]. rewrite ?app_nil_r.
    pieces; auto using session_facts_absent; try discriminate.
  - apply session_facts_of_outcome in H1 as (ev1 & outs1 & -> & F1); auto.
    apply session_facts_of_outcome in H2 as (ev2 & outs2 & -> & F2); auto.
    destruct (facts_returned _ _ _ _ F1 eq_refl) as [_ Hlen].
    cbn [extend trace procs asked init app] in F2. rewrite Hlen in F2.
    exists ev1, outs1, (Ret p1), ev2, outs2, (Raise e), [].
    cbn [extend trace procs asked init app]. rewrite ?app_nil_r, <- ?app_assoc.
    pieces; auto; try discriminate.
  - apply session_facts_of_outcome in H1 as (ev1 & outs1 & -> & F1); auto.
    apply session_facts_of_outcome in H2 as (ev2 & outs2 & -> & F2); auto.
    destruct (facts_returned _ _ _ _ F1 eq_refl) as [_ Hlen].
    cbn [extend trace procs asked init app] in F2. rewrite Hlen in F2.
    assert (exists fin, s3 = extend (extend (extend asked ev1 outs1) ev2 outs2) fin []
                        /\ verdict p1 p2 fin) as (fin & -> & Hfin).
    { destruct Hf as [fig Hc Hfig | Hc]; eexists; (split; [reflexivity|]);
        unfold verdict; rewrite Hc; eauto. }
    exists ev1, outs1, (Ret p1), ev2, outs2, (Ret p2), fin.
    cbn [extend trace procs asked init app]. rewrite ?app_nil_r, <- ?app_assoc.
    pieces; auto; try discriminate.
    intros p1' p2' [= <-] [= <-]. exact Hfin.
Qed.

(** C9.  In every run, when a step of the plain session takes place, the
    encrypted session has gone through all of its steps, from the start of
    its server to the termination of that server, and no step of the
    encrypted session takes place from then on: the two sessions never
    overlap. *)
Theorem encrypted_session_done_before_plain c g w r s pre e post :
  main_with c g w init = (r, s) ->
  trace s = pre ++ e :: post ->
  plain_step e ->
  encrypted_done pre /\ Forall (fun e' => ~ encrypted_step e') (e :: post).
Proof.
  intros Hrun Hsplit Hplain.
  destruct (main_trace_split _ _ _ _ _ Hrun) as (l1 & l2 & Htrace & H1 & H2 & Hdone).
  rewrite Htrace in Hsplit.
  destruct (app_split_second _ _ _ _ _ Hsplit) as (mid & -> & ->).
  { intros Hin. now apply (H1 _ Hin). }
  split.
  - destruct Hdone as [Hnil|(sn & t & d & ns & Hsub)].
    + now destruct mid.
    + exists sn, t, d, ns. now apply sublist_inserts_r.
  - apply List.Forall_forall. intros e' He'. apply H2, in_app_iff. now right.
Qed.

(** The verdict is at most one event, a figure or the message. *)
Lemma verdict_cases r1 r2 fin :
  (returned r2 = false -> fin = []) ->
  (returned r1 = false -> returned r2 = false) ->
  (forall p1 p2, r1 = Ret p1 -> r2 = Ret p2 -> verdict p1 p2 fin) ->
  fin = [] \/ (exists fig, fin = [EvShow fig]) \/ fin = [EvPrint no_data_message].
Proof.
  intros Hnone Hboth Hv. destruct r2 as [p2|e2]; [|left; now apply Hnone].
  destruct r1 as [p1|e1]; [|now specialize (Hboth eq_refl)].
  specialize (Hv p1 p2 eq_refl eq_refl). unfold verdict in Hv.
  destruct (truthy _ && _ && _ && _); auto.
Qed.

Lemma stdout_of_first s out lines rest :
  procs s = [out; lines] ++ rest -> stdout_of s 1%nat = lines.
Proof. unfold stdout_of. now intros ->. Qed.

Lemma stdout_of_second s outs1 out lines :
  length outs1 = 2%nat -> procs s = outs1 ++ [out; lines] -> stdout_of s 3%nat = lines.
Proof.
  unfold stdout_of. intros Hlen ->.
  destruct outs1 as [|a [|b [|]]]; try discriminate. reflexivity.
Qed.

(** C3 (as amended).  In every run no process is signaled to terminate
    more than once, and a signal goes only to a server whose session has
    handed the output of its client (the next process) to the parser, which
    has read it to the end.  Once
    it has, the server is signaled exactly once if the parser returns (with
    samples, with none, or after a decode failure it reports) and not at all
    if an exception escapes the parser. *)
Theorem server_signaled_once_iff_parser_returns c g w r s h :
  main_with c g w init = (r, s) ->
  (count (is_terminate h) (trace s) <= 1)%nat
  /\ (count (is_terminate h) (trace s) = 1%nat -> In (EvReadAll (S h)) (trace s))
  /\ (In (EvReadAll (S h)) (trace s) ->
      (count (is_terminate h) (trace s) = 1%nat
       <-> exists p, parsed (stdout_of s (S h)) = Ret p)).
Proof.
  intros Hrun.
  destruct (main_summary _ _ _ _ _ Hrun)
    as (ev1 & outs1 & r1 & ev2 & outs2 & r2 & fin
        & Htrace & Hprocs & F1 & F2 & Hskip & Hnone & Hverdict).
  assert (count (is_terminate h) fin = O /\ ~ In (EvReadAll (S h)) fin) as [Hfin Hfin'].
  { assert (fin = [] \/ (exists fig, fin = [EvShow fig])
            \/ fin = [EvPrint no_data_message]) as [->|[[fig ->]| ->]].
    { apply (verdict_cases r1 r2); auto. intros H. now apply Hskip. }
    - split; [reflexivity | intros []].
    - split; [reflexivity | intros [[=]|[]]].
    - split; [reflexivity | intros [[=]|[]]]. }
  assert (count (is_terminate h) (trace s)
          = ((if returned r1 && Nat.eqb h O then 1 else 0)
             + (if returned r2 && Nat.eqb h 2%nat then 1 else 0))%nat) as Hcount.
  { rewrite Htrace, !count_app, Hfin.
    rewrite (facts_terminate _ _ _ _ F1), (facts_terminate _ _ _ _ F2).
    unfold count. cbn. lia. }
  assert (In (EvReadAll (S h)) (trace s)
          -> (h = 0%nat /\ exists out lines, outs1 = [out; lines] /\ parsed lines = r1)
             \/ (h = 2%nat /\ returned r1 = true
                 /\ exists out lines, outs2 = [out; lines] /\ parsed lines = r2))
    as Hread.
  { rewrite Htrace, !in_app_iff. intros [[[=]|[]]|[H|[H|H]]].
    - apply (facts_reads _ _ _ _ F1) in H as [[= ->] H]. auto.
    - destruct (returned r1) eqn:E1.
      + apply (facts_reads _ _ _ _ F2) in H as [[= ->] H]. auto.
      + destruct (Hskip eq_refl) as (-> & _). destruct H.
    - now apply Hfin' in H. }
  split; [|split].
  - rewrite Hcount.
    destruct (returned r1), (returned r2), h as [|[|[|]]]; cbn; lia.
  - rewrite Hcount, Htrace, !in_app_iff. intros H.
    destruct (returned r1) eqn:E1, (returned r2) eqn:E2, h as [|[|[|]]];
      cbn in H; try discriminate.
    all: try (right; left; exact (proj1 (facts_returned _ _ _ _ F1 E1))).
    all: right; right; left; exact (proj1 (facts_returned _ _ _ _ F2 E2)).
  - intros Hin. rewrite Hcount.
    destruct (Hread Hin) as [(-> & out & lines & -> & <-)
                            |(-> & E1 & out & lines & -> & <-)].
    + rewrite (stdout_of_first s out lines outs2 Hprocs).
      destruct (parsed lines) as [p|e]; cbn.
      * split; eauto. intros _. destruct (returned r2); reflexivity.
      * split; [destruct (returned r2); discriminate | intros [? [=]]].
    + destruct (facts_returned _ _ _ _ F1 E1) as [_ Hlen].
      rewrite (stdout_of_second s outs1 out lines Hlen Hprocs). rewrite E1.
      destruct (parsed lines) as [p|e]; cbn.
      * split; eauto.
      * split; [discriminate | intros [? [=]]].
Qed.

Lemma parsed_equal_lengths lines ts bw :
  parsed lines = Ret (ts, bw) -> length ts = length bw.
Proof.
  unfold parsed. destruct (parse_iperf_output O idle (wrote lines)) as [r' s'] eqn:E.
  cbn. intros ->. exact (parse_returns_equal_lengths _ _ _ _ _ _ E).
Qed.

Lemma truthy_length {A B : Type} (l : list A) (k : list B) :
  length l = length k -> truthy k = truthy l.
Proof. destruct l, k; cbn; congruence. Qed.

(** C4.  When both sessions are done (the second server has been
    signaled), both parsers have returned; if both returned samples, the
    run calls the visualizer once (one figure is handed to the plotting
    library) and does not print the no-data message; if either returned
    none, it does not call the visualizer and prints the no-data message
    once. *)
Theorem one_figure_iff_both_sessions_have_samples c g w r s :
  main_with c g w init = (r, s) ->
  In (EvTerminate 2%nat) (trace s) ->
  exists ts1 bw1 ts2 bw2,
    parsed (stdout_of s 1%nat) = Ret (ts1, bw1)
    /\ parsed (stdout_of s 3%nat) = Ret (ts2, bw2)
    /\ length ts1 = length bw1 /\ length ts2 = length bw2
    /\ (ts1 <> [] /\ ts2 <> [] ->
        count is_show (trace s) = 1%nat
        /\ count (is_print_of no_data_message) (trace s) = O)
    /\ (ts1 = [] \/ ts2 = [] ->
        count is_show (trace s) = O
        /\ count (is_print_of no_data_message) (trace s) = 1%nat).
Proof.
  intros Hrun Hdone.
  destruct (main_summary _ _ _ _ _ Hrun)
    as (ev1 & outs1 & r1 & ev2 & outs2 & r2 & fin
        & Htrace & Hprocs & F1 & F2 & Hskip & Hnone & Hverdict).
  assert (returned r1 = true /\ returned r2 = true) as [E1 E2].
  { assert (fin = [] \/ (exists fig, fin = [EvShow fig])
            \/ fin = [EvPrint no_data_message]) as Hfin.
    { apply (verdict_cases r1 r2); auto. intros H. now apply Hskip. }
    apply (count_in (is_terminate 2%nat)) in Hdone; [|reflexivity].
    rewrite Htrace, !count_app in Hdone.
    rewrite (facts_terminate _ _ _ _ F1), (facts_terminate _ _ _ _ F2) in Hdone.
    rewrite andb_false_r in Hdone.
    destruct (returned r2) eqn:E2.
    - split; [|reflexivity]. destruct (returned r1); [reflexivity|].
      now destruct (Hskip eq_refl) as (_ & _ & ?).
    - exfalso. destruct Hfin as [->|[[fig ->]| ->]]; cbn in Hdone; lia. }
  destruct r1 as [[ts1 bw1]|]; [|discriminate].
  destruct r2 as [[ts2 bw2]|]; [|discriminate].
  destruct (facts_returned _ _ _ _ F1 eq_refl) as [Hin1 Hlen1].
  destruct (facts_returned _ _ _ _ F2 eq_refl) as [Hin2 Hlen2].
  destruct (facts_reads _ _ _ _ F1 _ Hin1) as (_ & out1 & lines1 & -> & Hp1).
  destruct (facts_reads _ _ _ _ F2 _ Hin2) as (_ & out2 & lines2 & -> & Hp2).
  exists ts1, bw1, ts2, bw2.
  rewrite (stdout_of_first s out1 lines1 _ Hprocs).
  rewrite (stdout_of_second s _ out2 lines2 Hlen1 Hprocs).
  pose proof (parsed_equal_lengths _ _ _ Hp1) as L1.
  pose proof (parsed_equal_lengths _ _ _ Hp2) as L2.
  do 4 (split; [assumption|]).
  specialize (Hverdict _ _ eq_refl eq_refl). unfold verdict in Hverdict.
  cbn [fst snd] in Hverdict.
  rewrite (truthy_length _ _ L1), (truthy_length _ _ L2), !andb_diag in Hverdict.
  rewrite <- andb_assoc, andb_diag in Hverdict.
  rewrite Htrace, !count_app.
  rewrite (facts_show _ _ _ _ F1), (facts_show _ _ _ _ F2).
  rewrite (facts_no_data _ _ _ _ F1), (facts_no_data _ _ _ _ F2).
  split.
  - intros [N1 N2]. destruct ts1; [congruence|]. destruct ts2; [congruence|].
    cbn in Hverdict. destruct Hverdict as [fig ->]. split; reflexivity.
  - intros [-> | ->]; cbn in Hverdict; rewrite ?andb_false_r in Hverdict;
      rewrite Hverdict; split; reflexivity.
Qed.

(** C5, the first half of the defect.  With the file as it is, and a
    duration typed at the prompt, [main] prints its first message, looks
    [server1] up, and stops on a [NameError]: no process is started. *)
Theorem main_stops_at_server1 w answer duration :
  stdin_line w = Some answer ->
  int_of_str answer = Ret duration ->
  main w init
  = (Raise (NameError "server1"),
     {| trace := [EvInput prompt; EvPrint "Starting iperf server in namespace ..."];
        procs := [] |}).
Proof.
  intros Hin Hint. unfold main, main_with, bind, input, lift, print, emit, load_global.
  rewrite Hin, Hint. reflexivity.
Qed.

(** C5, the second half.  Whatever the six literals and the globals are,
    every client is started against the address assigned at line 146 (the
    second assignment of [server_macsec]): the plain client, process 3, is
    not given the value of [server_plain]. *)
Theorem clients_target_line146 c g w r s cmd :
  main_with c g w init = (r, s) ->
  In (EvPopen cmd 3%nat) (trace s) ->
  exists duration, cmd = client_cmd (line146 c) duration (line143 c).
Proof.
  intros Hrun Hin. apply main_run in Hrun.
  assert (~ In (EvPopen cmd 3%nat) (trace asked)) as Hasked by (intros [[=]|[]]).
  assert (forall m1 m2 v t d ns desc lines,
             ~ In (EvPopen cmd 3%nat) (to_done m1 m2 O v t d ns desc lines)) as Hfirst.
  { intros m1 m2 v t d ns desc lines H. unfold to_done, to_parse, to_client in H.
    rewrite !in_app_iff in H. cbn [In] in H.
    destruct H as [[H|[H|[H|H]]]|H].
    - destruct H as [[=]|[[=]|[[=]|[[=]|[]]]]].
    - destruct H as [[=]|[[=]|[]]].
    - apply in_ticks in H. discriminate.
    - destruct H as [H|H]; [now apply read_event_not_popen in H|].
      apply in_parse_prints in H as [? [=]].
    - destruct H as [[=]|[]]. }
  assert (forall m1 m2 v t d ns desc lines,
             In (EvPopen cmd 3%nat) (to_done m1 m2 2%nat v t d ns desc lines) ->
             cmd = client_cmd t d ns) as Hsecond.
  { intros m1 m2 v t d ns desc lines H. unfold to_done, to_parse, to_client in H.
    rewrite !in_app_iff in H. cbn [In] in H.
    destruct H as [[H|[H|[H|H]]]|H].
    - destruct H as [[=]|[[=]|[[=]|[[=]|[]]]]].
    - destruct H as [[= <-]|[[=]|[]]]. reflexivity.
    - apply in_ticks in H. discriminate.
    - destruct H as [H|H]; [now apply read_event_not_popen in H|].
      apply in_parse_prints in H as [? [=]].
    - destruct H as [[=]|[]]. }
  destruct Hrun as [e He | answer d e s1 Hw Hint H1 | answer d p1 s1 e s2 Hw Hint H1 H2
                   | answer d p1 s1 p2 s2 r' s3 Hw Hint H1 H2 Hf].
  - contradiction.
  - exfalso. unfold first_session in H1.
    destruct H1 as [e' He' | v out e' Hg Hs Hc | v out lines e' Hg Hs Hc Hp
                   | v out lines p Hg Hs Hc Hp]; cbn [extend trace] in Hin;
      apply in_app_iff in Hin as [Hin|Hin]; try contradiction.
    + destruct Hin as [[=]|[]].
    + destruct Hin as [[=]|[[=]|[[=]|[[=]|[]]]]].
    + eapply Hfirst. unfold to_done. apply in_app_iff. left. exact Hin.
    + eapply Hfirst. exact Hin.
  - unfold first_session in H1. unfold second_session in H2. exists d.
    inversion H1 as [| | |v out lines p Hg Hs Hc Hp]; subst. clear H1.
    destruct H2 as [e' He' | v' out' e' Hg' Hs' Hc' | v' out' lines' e' Hg' Hs' Hc' Hp'
                   | v' out' lines' p' Hg' Hs' Hc' Hp']; cbn [extend trace procs] in Hin;
      rewrite <- ?app_assoc in Hin;
      apply in_app_iff in Hin as [Hin|Hin]; try contradiction;
      apply in_app_iff in Hin as [Hin|Hin]; try (now apply Hfirst in Hin).
    + destruct Hin as [[=]|[]].
    + destruct Hin as [[=]|[[=]|[[=]|[[=]|[]]]]].
    + cbn in Hin. eapply Hsecond. unfold to_done. apply in_app_iff. left. exact Hin.
    + cbn in Hin. eapply Hsecond. exact Hin.
  - unfold first_session in H1. unfold second_session in H2. exists d.
    inversion H1 as [| | |v out lines p Hg Hs Hc Hp]; subst. clear H1.
    inversion H2 as [| | |v' out' lines' p' Hg' Hs' Hc' Hp']; subst. clear H2.
    destruct Hf as [fig _ _ | _]; cbn [extend trace procs] in Hin;
      rewrite <- ?app_assoc in Hin;
      (apply in_app_iff in Hin as [Hin|Hin]; [contradiction|]);
      (apply in_app_iff in Hin as [Hin|Hin]; [now apply Hfirst in Hin|]);
      (apply in_app_iff in Hin as [Hin|Hin];
       [eapply Hsecond; exact Hin | destruct Hin as [[=]|[]]]).
Qed.

End Orchestrator.

(** ** Runs *)

Lemma run_eq {A B : Type} (x : A * B) : x = (fst x, snd x).
Proof. now destruct x. Qed.

Ltac found := vm_compute; repeat first [left; reflexivity | right].

Example good_run_trace :
  fst good_run = Ret tt
  /\ map about (trace (snd good_run))
     = [None; None; Some 0; None; None; Some 1; None; None; None; None; Some 1; Some 0;
        None; Some 2; None; None; Some 3; None; None; None; None; Some 3; Some 2;
        None]%nat.
Proof. split; run. Qed.

Lemma encrypted_session_done_before_plain_witness :
  encrypted_done (take 13%nat (trace (snd good_run)))
  /\ Forall (fun e' => ~ encrypted_step e')
       (EvPopen (server_cmd "ns4") 2%nat :: drop 14%nat (trace (snd good_run))).
Proof.
  apply (encrypted_session_done_before_plain lab_config lab_globals
           (lab_world full_output gap_output) (fst good_run) (snd good_run)).
  - apply run_eq.
  - run.
  - left. reflexivity.
Defined.

Lemma server_signaled_once_iff_parser_returns_witness :
  (count (is_terminate 0%nat) (trace (snd good_run)) <= 1)%nat
  /\ (count (is_terminate 0%nat) (trace (snd good_run)) = 1%nat ->
      In (EvReadAll 1%nat) (trace (snd good_run)))
  /\ (In (EvReadAll 1%nat) (trace (snd good_run)) ->
      (count (is_terminate 0%nat) (trace (snd good_run)) = 1%nat
       <-> exists p, parsed (stdout_of (snd good_run) 1%nat) = Ret p)).
Proof.
  apply (server_signaled_once_iff_parser_returns lab_config lab_globals
           (lab_world full_output gap_output) (fst good_run) (snd good_run) O).
  apply run_eq.
Defined.

(** C3 as the specification has it fails.  In [bad_run] the encrypted
    server is started and its client runs, an [AttributeError] escapes the
    parser, and the run ends there: the server is never signaled (and the
    plain session never takes place). *)
Lemma server_left_running :
  bad_run
  = (Raise AttributeError,
     {| trace :=
          [EvInput prompt;
           EvPrint "Starting iperf server in namespace ns2...";
           EvPopen (server_cmd "ns2") 0%nat;
           EvSleep 1;
           EvPrint "Running first iperf test in namespace ns1 for 3 seconds...";
           EvPopen (client_cmd "ns2" 3 "ns1") 1%nat;
           EvProgress "MACsec Progress" 3;
           EvSleep 1; EvSleep 1; EvSleep 1;
           EvReadAll 1%nat];
        procs := [[]; ["[]" ++ newline]] |})
  /\ count (is_terminate 0%nat) (trace (snd bad_run)) = O.
Proof. split; run. Qed.

Lemma one_figure_iff_both_sessions_have_samples_witness :
  exists ts1 bw1 ts2 bw2,
    parsed (stdout_of (snd good_run) 1%nat) = Ret (ts1, bw1)
    /\ parsed (stdout_of (snd good_run) 3%nat) = Ret (ts2, bw2)
    /\ length ts1 = length bw1 /\ length ts2 = length bw2
    /\ (ts1 <> [] /\ ts2 <> [] ->
        count is_show (trace (snd good_run)) = 1%nat
        /\ count (is_print_of no_data_message) (trace (snd good_run)) = O)
    /\ (ts1 = [] \/ ts2 = [] ->
        count is_show (trace (snd good_run)) = O
        /\ count (is_print_of no_data_message) (trace (snd good_run)) = 1%nat).
Proof.
  apply (one_figure_iff_both_sessions_have_samples lab_config lab_globals
           (lab_world full_output gap_output) (fst good_run) (snd good_run)).
  - apply run_eq.
  - found.
Defined.

(** Both sessions with samples: one figure.  A silent second client: the
    message, and no figure. *)
Example verdict_of_runs :
  (count is_show (trace (snd good_run)), count (is_print_of no_data_message)
                                           (trace (snd good_run))) = (1, 0)%nat
  /\ (count is_show (trace (snd silent_run)), count (is_print_of no_data_message)
                                                (trace (snd silent_run))) = (0, 1)%nat.
Proof. split; run. Qed.

Lemma main_stops_at_server1_witness :
  shipped_run
  = (Raise (NameError "server1"),
     {| trace := [EvInput prompt; EvPrint "Starting iperf server in namespace ..."];
        procs := [] |}).
Proof.
  apply (main_stops_at_server1 (lab_world full_output gap_output) "3" 3);
    reflexivity.
Defined.

(** With the names bound, both clients are sent to [ns2], the value of
    line 146: not to an address, and the plain client not to the plain
    server. *)
Example clients_of_good_run :
  In (EvPopen (client_cmd "ns2" 3 "ns1") 1%nat) (trace (snd good_run))
  /\ In (EvPopen (client_cmd "ns2" 3 "ns3") 3%nat) (trace (snd good_run)).
Proof. split; found. Qed.

(** * Further properties of the parser *)

Section ParserShapes.

Context `{rt : Runtime}.

Local Open Scope list_scope.

(** *** Lines that do not decode *)

Lemma decode_lines_raises good bad rest e :
  forall acc texts,
    decode_lines good acc = Ret texts ->
    bytes_decode bad = Raise e ->
    decode_lines (good ++ bad :: rest) acc = Raise e
    /\ lines_taken (good ++ bad :: rest) = S (length good).
Proof.
  induction good as [|line good IH]; intros acc texts Hgood Hbad.
  - cbn. now rewrite Hbad.
  - cbn [app decode_lines lines_taken length] in *.
    destruct (bytes_decode line) as [text|]; [|discriminate].
    cbn [rbind] in *. destruct (IH _ _ Hgood Hbad) as [-> ->]. auto.
Qed.

(** X1.  The loop of lines 55-57 decodes each line as it is read, before
    the [try] block is entered: when a line does not decode, after lines
    that do, the exception of [decode] leaves [parse_iperf_output] whatever
    it is.  The lines up to that one have been read and what follows it is
    never read, so it has no part in the outcome; nothing is printed and no
    text is given to [json.loads]. *)
Theorem parse_undecodable_line_escapes w s process good bad rest texts e :
  stdout_of s process = good ++ bad :: rest ->
  decode_lines good [] = Ret texts ->
  bytes_decode bad = Raise e ->
  parse_iperf_output process w s
  = (Raise e, log s (EvReadSome process (S (length good)))).
Proof.
  intros Hout Hgood Hbad.
  destruct (decode_lines_raises _ _ rest _ _ _ Hgood Hbad) as [Hdec Htaken].
  rewrite parse_unfold, Hout, Hdec. now rewrite Htaken.
Qed.

(** X2.  Whatever the process wrote and however the call ends,
    [parse_iperf_output] spawns and forgets no process, and adds to the
    trace one reading of that process's output and at most one more event.
    Either the output is read to its end, and then the only other event
    there can be is the diagnostic of a decode failure, with which the result
    is the two empty lists; or the reading stops at a line that does not
    decode, and then an exception leaves the function and nothing else is
    added. *)
Theorem parse_reads_and_reports w s process r s' :
  parse_iperf_output process w s = (r, s') ->
  procs s' = procs s
  /\ (trace s' = trace s ++ [EvReadAll process]
      \/ (exists msg,
            trace s' = trace s ++ [EvReadAll process;
                                   EvPrint ("Error parsing JSON: " ++ msg)%string]
            /\ r = Ret ([], []))
      \/ (exists n e,
            trace s' = trace s ++ [EvReadSome process n]
            /\ r = Raise e
            /\ decode_lines (stdout_of s process) [] = Raise e)).
Proof.
  rewrite parse_unfold.
  unfold bind, lift, try_except_json, print, emit, ret, log, after_read.
  destruct (decode_lines _ []) as [texts|e]; [|intros [= <- <-]; cbn; eauto 10].
  destruct (json_loads (join_lines texts)) as [doc|e].
  - destruct (extract doc) as [[ts bw]|e] eqn:E; [intros [= <- <-]; cbn; auto|].
    destruct e; try (intros [= <- <-]; cbn; auto).
    now apply extract_not_json in E.
  - destruct e; intros [= <- <-]; cbn; auto.
    split; [reflexivity|]. right. left. exists msg. now rewrite <- app_assoc.
Qed.

(** *** Documents of other shapes *)

(** X3.  A decoded object that has no ["intervals"] field (the default of
    [data.get] is the empty list), or whose interval list is empty, as in
    the report of a client that could not connect, gives two empty lists;
    nothing is printed. *)
Theorem parse_document_without_intervals w s process fields :
  decodes_to (stdout_of s process) (JDict fields) ->
  assoc "intervals" fields = None \/ assoc "intervals" fields = Some (JList []) ->
  parse_iperf_output process w s = (Ret ([], []), after_read s process).
Proof.
  intros Hdec Hint. rewrite (parse_decoded _ _ _ _ Hdec).
  unfold extract. cbn [py_get rbind]. now destruct Hint as [-> | ->].
Qed.

(** X4.  When the text decodes to a value that is no object (a list, a
    string, a number, [true], [false] or [null]), the [AttributeError] of
    [data.get] leaves [parse_iperf_output]; when it decodes to an object
    whose ["intervals"] is a number, a boolean or [null], the [TypeError] of
    the loop over it does.  Neither is caught and nothing is printed. *)
Theorem parse_rejects_other_shapes w s process doc :
  decodes_to (stdout_of s process) doc ->
  (is_object doc = false ->
   parse_iperf_output process w s = (Raise AttributeError, after_read s process))
  /\ (forall fields v,
        doc = JDict fields -> assoc "intervals" fields = Some v -> is_scalar v = true ->
        parse_iperf_output process w s = (Raise TypeError, after_read s process)).
Proof.
  intros Hdec. rewrite (parse_decoded _ _ _ _ Hdec). split.
  - now destruct doc.
  - intros fields v -> Hv Hs. unfold extract. cbn [py_get rbind]. rewrite Hv.
    now destruct v.
Qed.

(** *** The loop, item by item *)

Lemma extract_loop_app items more :
  forall idx ts bw,
    extract_loop idx (items ++ more) ts bw
    = match extract_loop idx items ts bw with
      | Ret (ts', bw') => extract_loop (idx + Z.of_nat (length items)) more ts' bw'
      | Raise e => Raise e
      end.
Proof.
  induction items as [|r items IH]; intros idx ts bw.
  - cbn. now rewrite Z.add_0_r.
  - cbn [app extract_loop length].
    destruct (py_get r "sum" (JDict [])) as [sum_data|]; [|reflexivity].
    cbn [rbind].
    destruct (py_contains "bits_per_second" sum_data) as [[]|]; [| |reflexivity];
      cbn [rbind].
    + destruct (py_getitem sum_data "bits_per_second") as [raw|]; [|reflexivity].
      cbn [rbind].
      destruct (py_truediv raw giga) as [x|]; [|reflexivity].
      cbn [rbind]. rewrite IH. now replace (idx + 1 + Z.of_nat (length items))
        with (idx + Z.of_nat (S (length items))) by lia.
    + rewrite IH. now replace (idx + 1 + Z.of_nat (length items))
        with (idx + Z.of_nat (S (length items))) by lia.
Qed.

Lemma extract_loop_malformed bad e rest idx ts bw :
  malformed_record bad e -> extract_loop idx (bad :: rest) ts bw = Raise e.
Proof.
  intros [v Hv | fields v Hsum Hv | fields agg v Hsum Hbps Hv | fields agg n Hsum Hbps Hn];
    cbn [extract_loop py_get rbind].
  - now destruct v.
  - rewrite Hsum. now destruct v.
  - rewrite Hsum. cbn [py_contains rbind py_getitem]. rewrite Hbps. cbn [rbind].
    now destruct v.
  - rewrite Hsum. cbn [py_contains rbind py_getitem]. rewrite Hbps. cbn [rbind py_truediv].
    now rewrite Hn.
Qed.

(** X5.  The loop stops at the first malformed record: after any number of
    interval records, an item that is no object raises [AttributeError], a
    ["sum"] that is a number, a boolean or [null] raises [TypeError], a
    ["bits_per_second"] that is a string, a list, an object or [null] raises
    [TypeError], and one that is an integer beyond the range of [float]
    raises [OverflowError].  The exception leaves [parse_iperf_output]: the
    samples of the records before it are lost, whatever follows it. *)
Theorem parse_stops_at_malformed_record w s process fields items recs bad rest e :
  decodes_to (stdout_of s process) (JDict fields) ->
  assoc "intervals" fields = Some (JList (items ++ bad :: rest)) ->
  Forall2 interval_record items recs ->
  malformed_record bad e ->
  parse_iperf_output process w s = (Raise e, after_read s process).
Proof.
  intros Hdec Hint Hrecs Hbad. rewrite (parse_decoded _ _ _ _ Hdec).
  unfold extract. cbn [py_get rbind]. rewrite Hint. cbn [py_iter rbind].
  rewrite extract_loop_app, (extract_loop_records _ _ Hrecs).
  now rewrite (extract_loop_malformed _ _ _ _ _ _ Hbad).
Qed.

(** The indices the loop adds increase, and lie among the positions of
    its items. *)
Lemma extract_loop_indices items :
  forall idx ts bw ts' bw',
    extract_loop idx items ts bw = Ret (ts', bw') ->
    exists new,
      ts' = ts ++ new
      /\ StronglySorted Z.lt new
      /\ Forall (fun i => idx < i <= idx + Z.of_nat (length items)) new.
Proof.
  induction items as [|r items IH]; intros idx ts bw ts' bw' Hrun.
  - cbn in Hrun. injection Hrun as <- <-. exists []. rewrite app_nil_r.
    repeat constructor.
  - cbn [extract_loop] in Hrun.
    destruct (py_get r "sum" (JDict [])) as [sum_data|]; [|discriminate].
    cbn [rbind] in Hrun.
    destruct (py_contains "bits_per_second" sum_data) as [[]|]; [| |discriminate];
      cbn [rbind] in Hrun.
    + destruct (py_getitem sum_data "bits_per_second") as [raw|]; [|discriminate].
      cbn [rbind] in Hrun.
      destruct (py_truediv raw giga) as [x|]; [|discriminate].
      cbn [rbind] in Hrun.
      destruct (IH _ _ _ _ _ Hrun) as (new & -> & Hsorted & Hbounds).
      exists ((idx + 1) :: new). rewrite <- app_assoc. split; [reflexivity|]. split.
      * constructor; [exact Hsorted|].
        eapply List.Forall_impl; [|exact Hbounds]. cbn. intros; lia.
      * constructor; [cbn [length]; lia|].
        eapply List.Forall_impl; [|exact Hbounds]. cbn [length]. intros; lia.
    + destruct (IH _ _ _ _ _ Hrun) as (new & -> & Hsorted & Hbounds).
      exists new. split; [reflexivity|]. split; [exact Hsorted|].
      eapply List.Forall_impl; [|exact Hbounds]. cbn [length]. intros; lia.
Qed.

Lemma increasing_in_range l :
  forall a n,
    StronglySorted Z.lt l -> Forall (fun i => a < i <= a + n) l ->
    Z.of_nat (length l) <= Z.max 0 n.
Proof.
  induction l as [|h t IH]; intros a n Hsorted Hrange; [cbn; lia|].
  inversion Hsorted as [|? ? Ht Hh]; subst.
  inversion Hrange as [|? ? Hhead Htail]; subst.
  assert (Forall (fun i => h < i <= h + (a + n - h)) t) as Hrange'.
  { apply List.Forall_forall. intros i Hi.
    pose proof (proj1 (List.Forall_forall _ _) Hh i Hi).
    pose proof (proj1 (List.Forall_forall _ _) Htail i Hi). cbn in *. lia. }
  specialize (IH h (a + n - h) Ht Hrange'). cbn [length]. lia.
Qed.

Lemma extract_indices doc ts bw :
  extract doc = Ret (ts, bw) ->
  StronglySorted Z.lt ts
  /\ Forall (fun i => 1 <= i) ts
  /\ (forall fields items,
        doc = JDict fields -> assoc "intervals" fields = Some (JList items) ->
        Forall (fun i => i <= Z.of_nat (length items)) ts
        /\ (length ts <= length items)%nat).
Proof.
  unfold extract. destruct (py_get doc "intervals" (JList [])) as [v|] eqn:Ev; [|discriminate].
  cbn [rbind]. destruct (py_iter v) as [l|] eqn:El; [|discriminate]. cbn [rbind].
  intros Hrun. destruct (extract_loop_indices _ _ _ _ _ _ Hrun) as (new & -> & Hs & Hb).
  cbn [app]. split; [exact Hs|]. split.
  - eapply List.Forall_impl; [|exact Hb]. cbn. intros; lia.
  - intros fields items -> Hint. cbn in Ev. rewrite Hint in Ev. injection Ev as <-.
    cbn in El. injection El as <-. split.
    + eapply List.Forall_impl; [|exact Hb]. cbn. intros; lia.
    + pose proof (increasing_in_range _ _ _ Hs Hb). lia.
Qed.

(** When [parse_iperf_output] returns, it is after a decode failure or
    with what the loop made of the decoded document. *)
Lemma parse_returned w s process p s' :
  parse_iperf_output process w s = (Ret p, s') ->
  p = ([], [])
  \/ exists doc, decodes_to (stdout_of s process) doc /\ extract doc = Ret p.
Proof.
  rewrite parse_unfold. unfold bind, lift, try_except_json.
  destruct (decode_lines _ []) as [texts|] eqn:Et; [|discriminate].
  destruct (json_loads (join_lines texts)) as [doc|[]] eqn:El; try discriminate.
  - destruct (extract doc) as [p'|e] eqn:E.
    + intros [= <- _]. right. exists doc. split; [|exact E].
      exists (join_lines texts). split; [|exact El]. now exists texts.
    + destruct e; try discriminate. now apply extract_not_json in E.
  - cbn. intros [= <- _]. now left.
Qed.

Lemma decodes_to_unique lines doc doc' :
  decodes_to lines doc -> decodes_to lines doc' -> doc = doc'.
Proof.
  intros (output & (texts & Ht & ->) & Hl) (output' & (texts' & Ht' & ->) & Hl').
  congruence.
Qed.

(** X6.  Whenever [parse_iperf_output] returns, whatever was decoded, the
    indices it returns are at least 1 and increase strictly; when the
    document is an object with a list of N intervals, of whatever items,
    they are at most N, and there are at most N of them. *)
Theorem parse_indices_increase w s process ts bw s' :
  parse_iperf_output process w s = (Ret (ts, bw), s') ->
  StronglySorted Z.lt ts
  /\ Forall (fun i => 1 <= i) ts
  /\ (forall fields items,
        decodes_to (stdout_of s process) (JDict fields) ->
        assoc "intervals" fields = Some (JList items) ->
        Forall (fun i => i <= Z.of_nat (length items)) ts
        /\ (length ts <= length items)%nat).
Proof.
  intros Hrun.
  destruct (parse_returned _ _ _ _ _ Hrun) as [[= -> ->] | (doc & Hdec & Hext)].
  - split; [constructor|]. split; [constructor|]. intros fields items _ _.
    split; [constructor | cbn; lia].
  - destruct (extract_indices _ _ _ Hext) as (Hs & Hlow & Hup).
    split; [exact Hs|]. split; [exact Hlow|]. intros fields items Hdec' Hint.
    apply (Hup fields items); [|exact Hint].
    exact (decodes_to_unique _ _ _ Hdec Hdec').
Qed.

End ParserShapes.

(** ** Quotients and conversions are numbers

    A binary64 operation gives a NaN only from a NaN or from an undefined
    form; the division by [1e9] and the conversion of an int have neither. *)

Module FloatQuotient.

Import FloatOrder.

Lemma binary_round_number s m e : binary_round prec emax s m e <> S754_nan.
Proof.
  unfold binary_round. destruct (shl_align m e _) as [mz ez].
  apply binary_round_aux_number. lia.
Qed.

Lemma binary_normalize_number m e szero : binary_normalize prec emax m e szero <> S754_nan.
Proof.
  unfold binary_normalize. destruct m; [discriminate| |]; apply binary_round_number.
Qed.

Lemma SF2Prim_number sf : sf <> S754_nan -> is_number (SF2Prim sf).
Proof.
  intros Hsf. apply number_spec. destruct sf as [[]|[]| |s m e]; try discriminate;
    try congruence.
  cbn [SF2Prim].
  assert (Prim2SF (Z.ldexp (of_uint63 (Uint63Axioms.of_Z (Z.pos m))) e) <> S754_nan) as H.
  { rewrite Z_ldexp_spec, of_uint63_spec. unfold SFldexp.
    pose proof (binary_normalize_number
                  (Uint63Axioms.to_Z (Uint63Axioms.of_Z (Z.pos m))) 0 false) as Hn.
    destruct (binary_normalize _ _ _ _ _) as [| | |sx mx ex]; try congruence; try discriminate.
    apply binary_round_number. }
  destruct s; [|exact H].
  rewrite opp_spec. destruct (Prim2SF _); try discriminate. congruence.
Qed.

Lemma float_of_int_number n x : float_of_int n = Ret x -> is_number x.
Proof.
  unfold float_of_int.
  pose proof (binary_normalize_number n 0 false) as Hn.
  destruct (binary_normalize prec emax n 0 false) as [s|s| |s m e] eqn:E;
    try discriminate; try congruence; intros [= <-]; exact (SF2Prim_number _ Hn).
Qed.

Lemma div_giga_number x : is_number x -> is_number (x / giga)%float.
Proof.
  rewrite !number_spec, div_spec. unfold SF64div, SFdiv.
  change (Prim2SF giga) with (S754_finite false 8388608000000000 (-23)).
  destruct (Prim2SF x) as [sx|sx| |sx mx ex]; try congruence; try discriminate.
  intros _.
  destruct (SFdiv_core_binary prec emax (Z.pos mx) ex 8388608000000000 (-23))
    as [[mz ez] lz] eqn:E.
  apply binary_round_aux_number.
  unfold SFdiv_core_binary in E.
  set (m' := match (_ - _ - _)%Z with 0 => _ | Z.pos _ => _ | Z.neg _ => _ end) in E.
  assert (0 <= m') as Hm'.
  { unfold m'. destruct (_ - _ - _)%Z as [|p|p]; [lia| |lia].
    change (IntDef.Z.shiftl (Z.pos mx) (Z.pos p)) with (Z.shiftl (Z.pos mx) (Z.pos p)).
    apply Z.shiftl_nonneg. lia. }
  change (IntDef.Z.div_eucl m' 8388608000000000) with (Z.div_eucl m' 8388608000000000) in E.
  pose proof (Z.div_pos m' 8388608000000000 Hm' ltac:(lia)) as Hq.
  unfold Z.div in Hq. destruct (Z.div_eucl m' 8388608000000000) as [q r].
  injection E as <- _ _. exact Hq.
Qed.

End FloatQuotient.

Section ParserValues.

Context `{rt : Runtime}.

Local Open Scope list_scope.

Import FloatQuotient.

(** *** Values without a NaN *)

Lemma no_nan_list items : no_nan (JList items) = forallb no_nan items.
Proof. induction items as [|i items IH]; [reflexivity|]. cbn in *. now rewrite IH. Qed.

Lemma no_nan_assoc fields k v :
  no_nan (JDict fields) = true -> assoc k fields = Some v -> no_nan v = true.
Proof.
  induction fields as [|[k' v'] fields IH]; [discriminate|].
  cbn [assoc]. intros [H1 H2]%andb_true_iff.
  destruct (String.eqb k k'); [now intros [= <-] | now apply IH].
Qed.

Lemma py_get_no_nan v k dflt r :
  no_nan v = true -> no_nan dflt = true -> py_get v k dflt = Ret r -> no_nan r = true.
Proof.
  destruct v; try discriminate. cbn [py_get]. intros Hv Hd [= <-].
  destruct (assoc k fields) eqn:E; [|exact Hd]. exact (no_nan_assoc _ _ _ Hv E).
Qed.

Lemma py_iter_no_nan v items :
  no_nan v = true -> py_iter v = Ret items -> forallb no_nan items = true.
Proof.
  destruct v; try discriminate; cbn [py_iter]; intros Hv [= <-].
  - now induction (list_ascii_of_string s).
  - now rewrite <- no_nan_list.
  - clear Hv. induction fields as [|kv fields IH]; [reflexivity | exact IH].
Qed.

Lemma py_truediv_no_nan raw y :
  no_nan raw = true -> py_truediv raw giga = Ret y -> is_number y.
Proof.
  destruct raw; cbn [py_truediv no_nan]; try discriminate.
  - destruct (float_of_int _) as [x|] eqn:E; [|discriminate]. cbn [rbind].
    rewrite giga_nonzero. intros _ [= <-].
    apply div_giga_number. exact (float_of_int_number _ _ E).
  - destruct (float_of_int n) as [x|] eqn:E; [|discriminate]. cbn [rbind].
    rewrite giga_nonzero. intros _ [= <-].
    apply div_giga_number. exact (float_of_int_number _ _ E).
  - rewrite giga_nonzero. intros Hx [= <-]. apply div_giga_number.
    unfold is_number. now destruct (PrimFloat.is_nan x).
Qed.

Lemma extract_loop_numbers items :
  forallb no_nan items = true ->
  forall idx ts bw ts' bw',
    Forall is_number bw ->
    extract_loop idx items ts bw = Ret (ts', bw') ->
    Forall is_number bw'.
Proof.
  induction items as [|r items IH]; intros Hitems idx ts bw ts' bw' Hbw Hrun.
  - cbn in Hrun. now injection Hrun as <- <-.
  - cbn [forallb] in Hitems. apply andb_true_iff in Hitems as [Hr Hitems].
    cbn [extract_loop] in Hrun.
    destruct (py_get r "sum" (JDict [])) as [sum_data|] eqn:Es; [|discriminate].
    apply py_get_no_nan in Es; [|exact Hr|reflexivity].
    cbn [rbind] in Hrun.
    destruct (py_contains "bits_per_second" sum_data) as [[]|]; [| |discriminate];
      cbn [rbind] in Hrun.
    + destruct (py_getitem sum_data "bits_per_second") as [raw|] eqn:Eg; [|discriminate].
      cbn [rbind] in Hrun.
      destruct (py_truediv raw giga) as [x|] eqn:Ed; [|discriminate].
      cbn [rbind] in Hrun.
      eapply (IH Hitems); [|exact Hrun].
      apply Forall_app. split; [exact Hbw|]. constructor; [|constructor].
      apply (py_truediv_no_nan raw); [|exact Ed].
      destruct sum_data; try discriminate. cbn [py_getitem] in Eg.
      destruct (assoc "bits_per_second" fields) eqn:Ea; [|discriminate].
      injection Eg as <-. exact (no_nan_assoc _ _ _ Es Ea).
    + eapply (IH Hitems); eauto.
Qed.

(** X7.  When the decoded document holds no NaN, every value that
    [parse_iperf_output] returns is a number, whatever the shape of the
    document: neither the conversion of an integer throughput nor the
    division by [1e9] makes a NaN.  These are the series for which the
    statistics and the y range of the visualizer are the least and the
    greatest values. *)
Theorem parse_values_are_numbers w s process doc ts bw s' :
  decodes_to (stdout_of s process) doc ->
  no_nan doc = true ->
  parse_iperf_output process w s = (Ret (ts, bw), s') ->
  Forall is_number bw.
Proof.
  intros Hdec Hdoc. rewrite (parse_decoded _ _ _ _ Hdec). intros [= Hrun _].
  unfold extract in Hrun.
  destruct (py_get doc "intervals" (JList [])) as [v|] eqn:Ev; [|discriminate].
  apply py_get_no_nan in Ev; [|exact Hdoc|reflexivity].
  cbn [rbind] in Hrun. destruct (py_iter v) as [items|] eqn:Ei; [|discriminate].
  apply py_iter_no_nan in Ei; [|exact Ev]. cbn [rbind] in Hrun.
  eapply (extract_loop_numbers _ Ei); [|exact Hrun]. constructor.
Qed.

End ParserValues.

(** ** The parser on more samples *)

Lemma parse_undecodable_line_escapes_witness :
  parse_iperf_output O idle (wrote (binary_output ++ full_output))
  = (Raise UnicodeDecodeError,
     log (wrote (binary_output ++ full_output)) (EvReadSome O 2)).
Proof.
  eapply (parse_undecodable_line_escapes idle (wrote (binary_output ++ full_output)) O
            ["{" ++ newline] (String (ascii_of_N 255) newline) full_output).
  - reflexivity.
  - run.
  - run.
Defined.

Lemma parse_reads_and_reports_witness :
  procs (snd (parse_iperf_output O idle (wrote []))) = procs (wrote [])
  /\ (trace (snd (parse_iperf_output O idle (wrote [])))
      = (trace (wrote []) ++ [EvReadAll O])%list
      \/ (exists msg,
            trace (snd (parse_iperf_output O idle (wrote [])))
            = (trace (wrote []) ++ [EvReadAll O;
                                    EvPrint ("Error parsing JSON: " ++ msg)%string])%list
            /\ fst (parse_iperf_output O idle (wrote [])) = Ret ([], []))
      \/ (exists n e,
            trace (snd (parse_iperf_output O idle (wrote [])))
            = (trace (wrote []) ++ [EvReadSome O n])%list
            /\ fst (parse_iperf_output O idle (wrote [])) = Raise e
            /\ decode_lines (stdout_of (wrote []) O) [] = Raise e)).
Proof.
  apply (parse_reads_and_reports idle (wrote []) O). apply run_eq.
Defined.

Lemma parse_document_without_intervals_witness :
  parse_iperf_output O idle (wrote error_output)
  = (Ret ([], []), after_read (wrote error_output) O).
Proof.
  eapply (parse_document_without_intervals idle (wrote error_output) O).
  - decoded.
  - right. reflexivity.
Defined.

Lemma parse_rejects_other_shapes_witness :
  parse_iperf_output O idle (wrote ["[]" ++ newline])
  = (Raise AttributeError, after_read (wrote ["[]" ++ newline]) O)
  /\ parse_iperf_output O idle (wrote null_output)
     = (Raise TypeError, after_read (wrote null_output) O).
Proof.
  split.
  - apply (proj1 (parse_rejects_other_shapes idle (wrote ["[]" ++ newline]) O (JList [])
                   ltac:(decoded))).
    reflexivity.
  - apply (proj2 (parse_rejects_other_shapes idle (wrote null_output) O
                   (JDict [("intervals", JNull)]) ltac:(decoded))
             [("intervals", JNull)] JNull); reflexivity.
Defined.

Lemma parse_stops_at_malformed_record_witness :
  parse_iperf_output O idle (wrote broken_output)
  = (Raise TypeError, after_read (wrote broken_output) O).
Proof.
  eapply (parse_stops_at_malformed_record idle (wrote broken_output) O _
            [JDict [("sum", JDict [("bits_per_second", JFloat 9500000000)])]]
            [Some 9500000000%float]
            (JDict [("sum", JDict [("bits_per_second", JStr "fast")])])
            [JDict [("sum", JDict [("bits_per_second", JInt 2000000000)])]]).
  - decoded.
  - reflexivity.
  - apply List.Forall2_cons; [|apply List.Forall2_nil].
    eapply record_with_field; reflexivity.
  - eapply malformed_throughput; reflexivity.
Defined.

Lemma parse_indices_increase_witness :
  parse_iperf_output O idle (wrote gap_output)
  = (Ret ([2; 3], [(9500000000 / giga)%float; (2000000000 / giga)%float]),
     after_read (wrote gap_output) O)
  /\ StronglySorted Z.lt [2; 3]
  /\ Forall (fun i => 1 <= i) [2; 3]
  /\ (forall fields items,
        decodes_to (stdout_of (wrote gap_output) O) (JDict fields) ->
        assoc "intervals" fields = Some (JList items) ->
        Forall (fun i => i <= Z.of_nat (length items)) [2; 3]
        /\ (length [2; 3] <= length items)%nat).
Proof.
  assert (parse_iperf_output O idle (wrote gap_output)
          = (Ret ([2; 3], [(9500000000 / giga)%float; (2000000000 / giga)%float]),
             after_read (wrote gap_output) O)) as Hrun by run.
  split; [exact Hrun|].
  exact (parse_indices_increase idle (wrote gap_output) O _ _ _ Hrun).
Defined.

Lemma parse_values_are_numbers_witness :
  parse_iperf_output O idle (wrote gap_output)
  = (Ret ([2; 3], [(9500000000 / giga)%float; (2000000000 / giga)%float]),
     after_read (wrote gap_output) O)
  /\ Forall is_number [(9500000000 / giga)%float; (2000000000 / giga)%float].
Proof.
  assert (parse_iperf_output O idle (wrote gap_output)
          = (Ret ([2; 3], [(9500000000 / giga)%float; (2000000000 / giga)%float]),
             after_read (wrote gap_output) O)) as Hrun by run.
  split; [exact Hrun|].
  eapply (parse_values_are_numbers idle (wrote gap_output) O); [| |exact Hrun].
  - decoded.
  - run.
Defined.

(** * Further properties of the visualizer *)

Section VisualizerShapes.

Context `{rt : Runtime}.

Local Open Scope list_scope.
Local Open Scope float_scope.

Import FloatOrder.

(** X8.  With an empty series of values (the first or the second),
    [plot_bandwidth] raises the [ValueError] of [min] at lines 82-86, before
    anything is drawn: nothing is handed to the plotting library and the
    state is as it was.  The
    indices play no part in it. *)
Theorem plot_bandwidth_empty_series timestamps1 bandwidths1 timestamps2 bandwidths2 w s :
  bandwidths1 = [] \/ bandwidths2 = [] ->
  plot_bandwidth timestamps1 bandwidths1 timestamps2 bandwidths2 w s
  = (Raise ValueError, s).
Proof.
  unfold plot_bandwidth, bind, lift, plot_figure.
  intros [-> | ->]; [reflexivity|].
  destruct bandwidths1 as [|first rest]; reflexivity.
Qed.

Lemma min_loop_item rest : forall best, In (min_loop best rest) (best :: rest).
Proof.
  induction rest as [|item rest IH]; intros best; [now left|].
  cbn [min_loop]. destruct (IH (if item <? best then item else best)) as [<-|H].
  - destruct (item <? best); [right; now left | now left].
  - right. now right.
Qed.

Lemma max_loop_item rest : forall best, In (max_loop best rest) (best :: rest).
Proof.
  induction rest as [|item rest IH]; intros best; [now left|].
  cbn [max_loop]. destruct (IH (if best <? item then item else best)) as [<-|H].
  - destruct (best <? item); [right; now left | now left].
  - right. now right.
Qed.

(** X9.  For two non-empty series of any values, a NaN among them or not,
    lines 82-96 compute their statistics without an exception; the minimum
    and the maximum reported for a series are values of that series, and
    the two series are handed on to the drawing as they were given. *)
Theorem statistics_are_samples timestamps1 bandwidths1 timestamps2 bandwidths2 :
  bandwidths1 <> [] -> bandwidths2 <> [] ->
  exists fig,
    plot_figure timestamps1 bandwidths1 timestamps2 bandwidths2 = Ret fig
    /\ fig_series1 fig = (timestamps1, bandwidths1)
    /\ fig_series2 fig = (timestamps2, bandwidths2)
    /\ In (fig_min1 fig) bandwidths1 /\ In (fig_max1 fig) bandwidths1
    /\ In (fig_min2 fig) bandwidths2 /\ In (fig_max2 fig) bandwidths2.
Proof.
  destruct bandwidths1 as [|first1 rest1]; [congruence|].
  destruct bandwidths2 as [|first2 rest2]; [congruence|]. intros _ _.
  eexists. split; [reflexivity|].
  cbn [fig_series1 fig_series2 fig_min1 fig_max1 fig_min2 fig_max2].
  repeat split; first [apply min_loop_item | apply max_loop_item].
Qed.

Lemma ltb_number x y : (x <? y) = true -> is_number x.
Proof.
  rewrite ltb_spec, number_spec. intros H E. rewrite E in H. discriminate.
Qed.

Lemma mul_number_left x y : is_number (x * y) -> is_number x.
Proof.
  rewrite !number_spec, mul_spec. intros H E. apply H. rewrite E. reflexivity.
Qed.

(** X10.  The floor of line 95 is put under the lower bound only: when
    every value of the two series, scaled by 1.2, is below 0.01 (a link of
    less than about 8.3 Mbit/s, or two series of zeros), the upper bound of
    the y range that [plot_bandwidth] sets is below its lower bound. *)
Theorem y_range_inverted_below_floor timestamps1 bandwidths1 timestamps2 bandwidths2 :
  bandwidths1 <> [] -> bandwidths2 <> [] ->
  Forall (fun v => (v * lit_1_2 <? lit_0_01) = true) (bandwidths1 ++ bandwidths2) ->
  exists fig,
    plot_figure timestamps1 bandwidths1 timestamps2 bandwidths2 = Ret fig
    /\ (snd (fig_ylim fig) <? fst (fig_ylim fig)) = true.
Proof.
  intros Hne1 Hne2 Hslow.
  assert (Forall is_number (bandwidths1 ++ bandwidths2)) as Hn.
  { eapply List.Forall_impl; [|exact Hslow]. intros v Hv. cbn in Hv.
    eapply mul_number_left, ltb_number, Hv. }
  apply Forall_app in Hn as [Hn1 Hn2].
  destruct (plot_figure_numbers timestamps1 _ timestamps2 _ Hne1 Hne2 Hn1 Hn2)
    as (min1 & max1 & min2 & max2 & [Nmin1 Hmin1] & [Nmax1 Hmax1]
        & [Nmin2 Hmin2] & [Nmax2 Hmax2] & ->).
  destruct (py_min2_concat _ _ _ _ Nmin1 Nmin2 Hmin1 Hmin2) as [Nm Hm].
  destruct (py_max2_concat _ _ _ _ Nmax1 Nmax2 Hmax1 Hmax2) as [NM [HM _]].
  eexists. split; [reflexivity|]. cbn [fig_ylim fst snd].
  set (x := py_min2 min1 min2 * lit_0_8).
  assert (is_number x) as Nx
    by (eapply (mul_finite_number _ lit_0_8); [reflexivity | exact Nm]).
  destruct (max_loop_greatest [lit_0_01] x Nx ltac:(now repeat constructor))
    as (_ & _ & Hall).
  fold (py_max2 x lit_0_01) in Hall.
  inversion Hall as [|? ? _ Hall']; subst.
  inversion Hall' as [|? ? Hfloor _]; subst.
  eapply ltb_leb_trans; [|exact Hfloor].
  exact (proj1 (List.Forall_forall _ _) Hslow _ HM).
Qed.

End VisualizerShapes.

(** ** The visualizer on more samples *)

Lemma plot_bandwidth_empty_series_witness :
  plot_bandwidth ticks series_a [] [] idle init = (Raise ValueError, init).
Proof.
  apply (plot_bandwidth_empty_series ticks series_a [] [] idle init). now right.
Defined.

Lemma statistics_are_samples_witness :
  exists fig,
    plot_figure ticks series_a ticks series_b = Ret fig
    /\ fig_series1 fig = (ticks, series_a)
    /\ fig_series2 fig = (ticks, series_b)
    /\ In (fig_min1 fig) series_a /\ In (fig_max1 fig) series_a
    /\ In (fig_min2 fig) series_b /\ In (fig_max2 fig) series_b.
Proof.
  apply (statistics_are_samples ticks series_a ticks series_b); discriminate.
Defined.

Lemma y_range_inverted_below_floor_witness :
  exists fig,
    plot_figure [1; 2; 3] series_slow [1; 2; 3] series_slow = Ret fig
    /\ (snd (fig_ylim fig) <? fst (fig_ylim fig))%float = true.
Proof.
  apply (y_range_inverted_below_floor [1; 2; 3] series_slow [1; 2; 3] series_slow);
    [discriminate | discriminate |].
  repeat (apply List.Forall_cons; [reflexivity|]); apply List.Forall_nil.
Defined.

(** On the slow series the range runs from 0.01 down to 0.00744. *)
Example y_range_of_slow_series :
  fig_ylim <$> (match plot_figure [1; 2; 3] series_slow [1; 2; 3] series_slow with
                | Ret fig => Some fig
                | Raise _ => None
                end)
  = Some (lit_0_01, (0.0062 * lit_1_2)%float).
Proof. vm_compute. reflexivity. Qed.

(** * Further properties of the entry routine *)

Section Processes.

Context `{rt : Runtime}.

Local Open Scope list_scope.

(** X11.  When the operating system starts the command of [run_iperf],
    the call returns a new handle and adds one event, the start of that
    command; the output of the processes started before is as it was, and
    [parse_iperf_output] on the handle parses exactly what the new process
    writes. *)
Theorem client_output_reaches_parser server_ip duration namespace w s out :
  spawn w (length (procs s)) (client_cmd server_ip duration namespace) = Ret out ->
  exists process s1,
    run_iperf server_ip duration namespace w s = (Ret process, s1)
    /\ trace s1 = trace s ++ [EvPopen (client_cmd server_ip duration namespace) process]
    /\ stdout_of s1 process = out
    /\ (forall k, (k < length (procs s))%nat -> stdout_of s1 k = stdout_of s k)
    /\ fst (parse_iperf_output process w s1) = parsed out.
Proof.
  intros Hspawn. unfold run_iperf, bind, ret. rewrite popen_run.
  fold (client_cmd server_ip duration namespace). rewrite Hspawn.
  eexists _, _. split; [reflexivity|]. split; [reflexivity|].
  assert (stdout_of (extend s [EvPopen (client_cmd server_ip duration namespace)
                                 (length (procs s))] [out]) (length (procs s)) = out) as Hout.
  { unfold stdout_of, extend. cbn [procs]. rewrite lookup_app_r by lia.
    now rewrite Nat.sub_diag. }
  split; [exact Hout|]. split.
  - intros k Hk. unfold stdout_of, extend. cbn [procs]. now rewrite lookup_app_l.
  - rewrite parse_run. cbn [fst]. now rewrite Hout.
Qed.

End Processes.

Section Runs.

Context `{rt : Runtime}.

Local Open Scope list_scope.

Ltac conjuncts := repeat match goal with |- _ /\ _ => split end.

(** The run in one piece, with the result and the figure. *)
Lemma main_anatomy c g w r s :
  main_with c g w init = (r, s) ->
  exists ev1 outs1 r1 ev2 outs2 r2 fin,
    trace s = [EvInput prompt] ++ ev1 ++ ev2 ++ fin
    /\ procs s = outs1 ++ outs2
    /\ session_facts O ev1 outs1 r1
    /\ session_facts 2%nat ev2 outs2 r2
    /\ (returned r1 = false -> ev2 = [] /\ outs2 = [] /\ returned r2 = false)
    /\ (returned r2 = false -> fin = [] /\ returned r = false)
    /\ (forall p1 p2, r1 = Ret p1 -> r2 = Ret p2 ->
          (fin = [EvPrint no_data_message] /\ r = Ret tt)
          \/ exists fig,
               fin = [EvShow fig] /\ r = draws w fig
               /\ plot_figure (fst p1) (snd p1) (fst p2) (snd p2) = Ret fig).
Proof.
  intros H. apply main_run in H.
  assert (forall x, String.eqb no_data_message (starting x) = false) as Hm1
    by reflexivity.
  assert (forall d x, String.eqb no_data_message
            (running "Running first iperf test in namespace " x d) = false) as Hm2
    by reflexivity.
  assert (forall d x, String.eqb no_data_message
            (running "Running second iperf test in namespace " x d) = false) as Hm3
    by reflexivity.
  destruct H as [e He | answer d e s1 Hin Hint H1 | answer d p1 s1 e s2 Hin Hint H1 H2
                | answer d p1 s1 p2 s2 r' s3 Hin Hint H1 H2 Hf].
  - exists [], [], (Raise e), [], [], (Raise e), [].
    conjuncts; auto using session_facts_absent; discriminate.
  - apply session_facts_of_outcome in H1 as (ev1 & outs1 & -> & F1); auto.
    exists ev1, outs1, (Raise e), [], [], (Raise e), [].
    cbn [extend trace procs asked init]. rewrite ?app_nil_r.
    conjuncts; auto using session_facts_absent; discriminate.
  - apply session_facts_of_outcome in H1 as (ev1 & outs1 & -> & F1); auto.
    apply session_facts_of_outcome in H2 as (ev2 & outs2 & -> & F2); auto.
    destruct (facts_returned _ _ _ _ F1 eq_refl) as [_ Hlen].
    cbn [extend trace procs asked init app] in F2. rewrite Hlen in F2.
    exists ev1, outs1, (Ret p1), ev2, outs2, (Raise e), [].
    cbn [extend trace procs asked init app]. rewrite ?app_nil_r, <- ?app_assoc.
    conjuncts; auto; discriminate.
  - apply session_facts_of_outcome in H1 as (ev1 & outs1 & -> & F1); auto.
    apply session_facts_of_outcome in H2 as (ev2 & outs2 & -> & F2); auto.
    destruct (facts_returned _ _ _ _ F1 eq_refl) as [_ Hlen].
    cbn [extend trace procs asked init app] in F2. rewrite Hlen in F2.
    assert (exists fin,
              s3 = extend (extend (extend asked ev1 outs1) ev2 outs2) fin []
              /\ ((fin = [EvPrint no_data_message] /\ r' = Ret tt)
                  \/ exists fig,
                       fin = [EvShow fig] /\ r' = draws w fig
                       /\ plot_figure (fst p1) (snd p1) (fst p2) (snd p2) = Ret fig))
      as (fin & -> & Hfin).
    { destruct Hf as [fig Hc Hfig | Hc]; eexists; (split; [reflexivity|]); eauto. }
    exists ev1, outs1, (Ret p1), ev2, outs2, (Ret p2), fin.
    cbn [extend trace procs asked init app]. rewrite ?app_nil_r, <- ?app_assoc.
    conjuncts; auto; try discriminate.
    intros p1' p2' [= <-] [= <-]. exact Hfin.
Qed.

Lemma count_none p l : count p l = O -> forall e, In e l -> p e = false.
Proof.
  intros Hc e Hin. destruct (p e) eqn:E; [|reflexivity].
  pose proof (count_in p e l Hin E). lia.
Qed.

Lemma count_some p l : (1 <= count p l)%nat -> exists e, In e l /\ p e = true.
Proof.
  unfold count. induction l as [|a l IH]; cbn; [lia|].
  destruct (p a) eqn:E; [eauto|]. intros H. destruct (IH H) as (e & ? & ?). eauto.
Qed.

Lemma is_terminate_true h e : is_terminate h e = true -> e = EvTerminate h.
Proof. destruct e; try discriminate. cbn. now intros ->%Nat.eqb_eq. Qed.

(** X12.  [main] returns normally only after the plain server has been
    signaled to terminate.  A run gives its verdict, the values of a figure
    handed to the plotting library or the no-data message, once if the plain
    server has been signaled and not at all otherwise.  After the message
    [main] returns; after a figure is handed over, [main] ends as the
    drawing of lines 98-133 does, so an exception of the plotting library
    (for a y range that is not finite, for one) leaves [main], and it is
    the only one that can once both sessions are done. *)
Theorem main_result_and_verdict c g w r s :
  main_with c g w init = (r, s) ->
  (r = Ret tt -> In (EvTerminate 2%nat) (trace s))
  /\ (count is_show (trace s) + count (is_print_of no_data_message) (trace s)
      = count (is_terminate 2%nat) (trace s))%nat
  /\ (forall fig, In (EvShow fig) (trace s) -> r = draws w fig)
  /\ (In (EvPrint no_data_message) (trace s) -> r = Ret tt)
  /\ (In (EvTerminate 2%nat) (trace s) ->
      In (EvPrint no_data_message) (trace s) \/ exists fig, In (EvShow fig) (trace s)).
Proof.
  intros Hrun.
  destruct (main_anatomy _ _ _ _ _ Hrun)
    as (ev1 & outs1 & r1 & ev2 & outs2 & r2 & fin
        & Htrace & Hprocs & F1 & F2 & Hskip & Hnone & Hverdict).
  assert (if returned r2
          then (fin = [EvPrint no_data_message] /\ r = Ret tt)
               \/ exists fig, fin = [EvShow fig] /\ r = draws w fig
          else fin = [] /\ returned r = false) as Hfin.
  { destruct r2 as [p2|e2]; [|now apply Hnone].
    destruct r1 as [p1|e1]; [|now destruct (Hskip eq_refl) as (_ & _ & ?)].
    destruct (Hverdict p1 p2 eq_refl eq_refl) as [?|(fig & ? & ? & _)]; cbn; eauto. }
  assert (count (is_terminate 2%nat) (trace s) = if returned r2 then 1 else 0)%nat
    as Hcount.
  { rewrite Htrace, !count_app.
    rewrite (facts_terminate _ _ _ _ F1), (facts_terminate _ _ _ _ F2).
    rewrite andb_false_r. unfold count.
    destruct (returned r2); [destruct Hfin as [[-> _]|(fig & -> & _)] | destruct Hfin as [-> _]];
      reflexivity. }
  assert (forall e, In e (trace s) -> is_show e = true \/ is_print_of no_data_message e = true ->
                    In e fin) as Hlast.
  { intros e. rewrite Htrace, !in_app_iff. intros [[<-|[]]|[H|[H|H]]] Hp; [| | |exact H].
    - destruct Hp; discriminate.
    - rewrite (count_none _ _ (facts_show _ _ _ _ F1) _ H) in Hp.
      rewrite (count_none _ _ (facts_no_data _ _ _ _ F1) _ H) in Hp.
      destruct Hp; discriminate.
    - rewrite (count_none _ _ (facts_show _ _ _ _ F2) _ H) in Hp.
      rewrite (count_none _ _ (facts_no_data _ _ _ _ F2) _ H) in Hp.
      destruct Hp; discriminate. }
  conjuncts.
  - intros ->.
    assert (1 <= count (is_terminate 2%nat) (trace s))%nat as Hone.
    { rewrite Hcount. destruct (returned r2); [lia|]. now destruct Hfin. }
    apply count_some in Hone as (e & Hin & He).
    now apply is_terminate_true in He as ->.
  - rewrite Hcount, Htrace, !count_app.
    rewrite (facts_show _ _ _ _ F1), (facts_show _ _ _ _ F2).
    rewrite (facts_no_data _ _ _ _ F1), (facts_no_data _ _ _ _ F2).
    unfold count.
    destruct (returned r2); [destruct Hfin as [[-> _]|(fig & -> & _)] | destruct Hfin as [-> _]];
      reflexivity.
  - intros fig Hin. apply Hlast in Hin; [|now left].
    destruct (returned r2); [|now destruct Hfin as [-> _]].
    destruct Hfin as [[-> _]|(fig' & -> & ->)].
    + now destruct Hin as [[=]|[]].
    + destruct Hin as [[= ->]|[]]. reflexivity.
  - intros Hin. apply Hlast in Hin; [|right; apply String.eqb_refl].
    destruct (returned r2); [|now destruct Hfin as [-> _]].
    destruct Hfin as [[_ ->]|(fig' & -> & _)]; [reflexivity|].
    now destruct Hin as [[=]|[]].
  - intros Hin. apply (count_in (is_terminate 2%nat)) in Hin; [|reflexivity].
    rewrite Hcount in Hin. rewrite Htrace, !in_app_iff.
    destruct (returned r2); [|lia].
    destruct Hfin as [[-> _]|(fig & -> & _)].
    + left. do 3 right. now left.
    + right. exists fig. rewrite !in_app_iff. do 3 right. now left.
Qed.

Lemma plot_figure_series ts1 bw1 ts2 bw2 fig :
  plot_figure ts1 bw1 ts2 bw2 = Ret fig ->
  fig_series1 fig = (ts1, bw1) /\ fig_series2 fig = (ts2, bw2).
Proof.
  unfold plot_figure.
  destruct (py_min bw1); [|discriminate]. cbn [rbind].
  destruct (py_max bw1); [|discriminate]. cbn [rbind].
  destruct (py_min bw2); [|discriminate]. cbn [rbind].
  destruct (py_max bw2); [|discriminate]. cbn [rbind].
  intros [= <-]. split; reflexivity.
Qed.

(** X13.  A figure that a run hands to the plotting library is made of
    what the two parsers returned, in this order: its first series is the result of
    [parse_iperf_output] on the output of process 1, the encrypted client,
    and its second series that on the output of process 3, the plain
    client. *)
Theorem figure_shows_what_the_parsers_returned c g w r s fig :
  main_with c g w init = (r, s) ->
  In (EvShow fig) (trace s) ->
  exists ts1 bw1 ts2 bw2,
    parsed (stdout_of s 1%nat) = Ret (ts1, bw1)
    /\ parsed (stdout_of s 3%nat) = Ret (ts2, bw2)
    /\ plot_figure ts1 bw1 ts2 bw2 = Ret fig
    /\ fig_series1 fig = (ts1, bw1)
    /\ fig_series2 fig = (ts2, bw2).
Proof.
  intros Hrun Hin.
  destruct (main_anatomy _ _ _ _ _ Hrun)
    as (ev1 & outs1 & r1 & ev2 & outs2 & r2 & fin
        & Htrace & Hprocs & F1 & F2 & Hskip & Hnone & Hverdict).
  rewrite Htrace, !in_app_iff in Hin.
  destruct Hin as [[[=]|[]]|[Hin|[Hin|Hin]]].
  - now apply (count_none _ _ (facts_show _ _ _ _ F1)) in Hin.
  - now apply (count_none _ _ (facts_show _ _ _ _ F2)) in Hin.
  - destruct r2 as [[ts2 bw2]|e2]; [|now destruct (Hnone eq_refl) as [-> _]].
    destruct r1 as [[ts1 bw1]|e1]; [|now destruct (Hskip eq_refl) as (_ & _ & ?)].
    destruct (Hverdict _ _ eq_refl eq_refl) as [[-> _]|(fig' & -> & _ & Hplot)];
      [now destruct Hin as [[=]|[]]|].
    destruct Hin as [[= ->]|[]]. cbn [fst snd] in Hplot.
    destruct (facts_returned _ _ _ _ F1 eq_refl) as [Hin1 Hlen1].
    destruct (facts_returned _ _ _ _ F2 eq_refl) as [Hin2 Hlen2].
    destruct (facts_reads _ _ _ _ F1 _ Hin1) as (_ & out1 & lines1 & -> & Hp1).
    destruct (facts_reads _ _ _ _ F2 _ Hin2) as (_ & out2 & lines2 & -> & Hp2).
    exists ts1, bw1, ts2, bw2.
    rewrite (stdout_of_first s out1 lines1 _ Hprocs).
    rewrite (stdout_of_second s _ out2 lines2 Hlen1 Hprocs).
    destruct (plot_figure_series _ _ _ _ _ Hplot). auto.
Qed.

Lemma extend_nil s : extend s [] [] = s.
Proof. unfold extend. rewrite !app_nil_r. now destruct s. Qed.

(** A run is the prompt alone, or the prompt and the first session, or
    both sessions and the verdict. *)
Lemma main_decomposed c g w r s :
  main_with c g w init = (r, s) ->
  ((stdin_line w = None
    \/ exists answer e, stdin_line w = Some answer /\ int_of_str answer = Raise e)
   /\ s = asked /\ returned r = false)
  \/ exists answer d ev1 outs1 r1,
       stdin_line w = Some answer /\ int_of_str answer = Ret d
       /\ first_session c g d w asked r1 (extend asked ev1 outs1)
       /\ ((returned r1 = false /\ s = extend asked ev1 outs1 /\ returned r = false)
           \/ exists ev2 outs2 r2 fin,
                returned r1 = true /\ length outs1 = 2%nat
                /\ second_session c g d w (extend asked ev1 outs1) r2
                     (extend (extend asked ev1 outs1) ev2 outs2)
                /\ s = extend (extend (extend asked ev1 outs1) ev2 outs2) fin []
                /\ (if returned r2
                    then (exists fig, fin = [EvShow fig]) \/ fin = [EvPrint no_data_message]
                    else fin = [] /\ returned r = false)).
Proof.
  intros H. apply main_run in H.
  destruct H as [e He | answer d e s1 Hin Hint H1 | answer d p1 s1 e s2 Hin Hint H1 H2
                | answer d p1 s1 p2 s2 r' s3 Hin Hint H1 H2 Hf].
  - left. split; [|auto]. destruct He as [[? _]|(answer & ? & ?)]; eauto.
  - right. pose proof H1 as H1'.
    apply session_outcome_events in H1' as (ev1 & outs1 & -> & _).
    exists answer, d, ev1, outs1, (Raise e). auto 10.
  - right. pose proof H1 as H1'.
    apply session_outcome_events in H1' as (ev1 & outs1 & -> & _ & Hdone).
    destruct (Hdone p1 eq_refl) as (v & out & lines & _ & Houts & _).
    pose proof H2 as H2'.
    apply session_outcome_events in H2' as (ev2 & outs2 & -> & _).
    exists answer, d, ev1, outs1, (Ret p1). do 3 (split; [assumption|]). right.
    exists ev2, outs2, (Raise e), []. rewrite extend_nil. subst outs1.
    split; [reflexivity|]. split; [reflexivity|]. split; [exact H2|].
    split; [reflexivity|]. split; reflexivity.
  - right. pose proof H1 as H1'.
    apply session_outcome_events in H1' as (ev1 & outs1 & -> & _ & Hdone).
    destruct (Hdone p1 eq_refl) as (v & out & lines & _ & Houts & _).
    pose proof H2 as H2'.
    apply session_outcome_events in H2' as (ev2 & outs2 & -> & _).
    exists answer, d, ev1, outs1, (Ret p1). do 3 (split; [assumption|]). right.
    destruct Hf as [fig _ _ | _].
    + exists ev2, outs2, (Ret p2), [EvShow fig]. subst outs1.
      split; [reflexivity|]. split; [reflexivity|]. split; [exact H2|].
      split; [reflexivity|]. left. eauto.
    + exists ev2, outs2, (Ret p2), [EvPrint no_data_message]. subst outs1.
      split; [reflexivity|]. split; [reflexivity|]. split; [exact H2|].
      split; [reflexivity|]. now right.
Qed.

(** *** What a session starts, how long it sleeps, and in what order *)

Lemma slept_app l1 l2 : slept (l1 ++ l2) = slept l1 + slept l2.
Proof.
  induction l1 as [|e l1 IH]; [reflexivity|]. destruct e; cbn [app slept]; lia.
Qed.

Lemma slept_ticks n : slept (replicate n (EvSleep 1)) = Z.of_nat n.
Proof. induction n as [|n IH]; [reflexivity|]. cbn [replicate slept]. lia. Qed.

Lemma slept_parse_prints lines : slept (parse_prints lines) = 0.
Proof. now destruct (parse_prints_diagnostic lines) as [->|[msg ->]]. Qed.

Lemma slept_to_parse m1 m2 server v t d ns desc lines :
  slept (to_parse m1 m2 server v t d ns desc lines) = 1 + Z.max 0 d.
Proof.
  unfold to_parse, to_client. rewrite !slept_app, slept_ticks.
  destruct (read_event_cases (S server) lines) as [-> | [n ->]];
    cbn [slept]; rewrite slept_parse_prints; lia.
Qed.

(** Where an item of two lists put together lies. *)
Lemma app_split_cases {A : Type} (l1 l2 pre : list A) (e : A) (post : list A) :
  l1 ++ l2 = pre ++ e :: post ->
  (exists post1, l1 = pre ++ e :: post1)
  \/ exists pre2, pre = l1 ++ pre2 /\ l2 = pre2 ++ e :: post.
Proof.
  revert pre. induction l1 as [|a l1 IH]; intros pre Heq.
  - right. exists pre. auto.
  - destruct pre as [|b pre]; cbn in Heq; injection Heq as -> Heq.
    + left. now exists l1.
    + destruct (IH pre Heq) as [[post1 ->] | (pre2 & -> & ->)].
      * left. now exists post1.
      * right. now exists pre2.
Qed.

Lemma no_terminate_in_to_parse h m1 m2 server v t d ns desc lines :
  ~ In (EvTerminate h) (to_parse m1 m2 server v t d ns desc lines).
Proof.
  unfold to_parse, to_client. rewrite !in_app_iff. cbn [In].
  intros [H|[H|[H|H]]].
  - destruct H as [[=]|[[=]|[[=]|[[=]|[]]]]].
  - destruct H as [[=]|[[=]|[]]].
  - apply in_ticks in H. discriminate.
  - destruct H as [H|H]; [|apply in_parse_prints in H as [? [=]]].
    now destruct (read_event_cases (S server) lines) as [E | [n E]]; rewrite E in H.
Qed.

Section SessionMore.

Variables (g : globals) (name starting running target : string) (duration : Z).
Variables (namespace desc : string) (w : world) (s : state).
Variables (r : result (list Z * list float)) (s' : state).
Hypothesis outcome :
  session_outcome g name starting running target duration namespace desc w s r s'.

Lemma session_spawns :
  exists events outs,
    s' = extend s events outs
    /\ forall cmd h, In (EvPopen cmd h) events ->
         (h = length (procs s) /\ exists v, g !! name = Some v /\ cmd = server_cmd v)
         \/ (h = S (length (procs s)) /\ cmd = client_cmd target duration namespace).
Proof.
  destruct outcome as [e He | v out e Hg Hs Hc | v out lines e Hg Hs Hc Hp
                      | v out lines p Hg Hs Hc Hp];
    eexists _, _; (split; [reflexivity|]); intros cmd h;
    unfold to_done, to_parse, to_client; rewrite ?in_app_iff; cbn [In]; intros Hin.
  - destruct Hin as [[=]|[]].
  - destruct Hin as [[=]|[[= <- <-]|[[=]|[[=]|[]]]]]. eauto.
  - destruct Hin as [Hin|[Hin|[Hin|Hin]]].
    + destruct Hin as [[=]|[[= <- <-]|[[=]|[[=]|[]]]]]. eauto.
    + destruct Hin as [[= <- <-]|[[=]|[]]]. auto.
    + apply in_ticks in Hin. discriminate.
    + destruct Hin as [Hin|Hin]; [now apply read_event_not_popen in Hin|].
      apply in_parse_prints in Hin as [? [=]].
  - destruct Hin as [[Hin|[Hin|[Hin|Hin]]]|Hin].
    + destruct Hin as [[=]|[[= <- <-]|[[=]|[[=]|[]]]]]. eauto.
    + destruct Hin as [[= <- <-]|[[=]|[]]]. auto.
    + apply in_ticks in Hin. discriminate.
    + destruct Hin as [Hin|Hin]; [now apply read_event_not_popen in Hin|].
      apply in_parse_prints in Hin as [? [=]].
    + destruct Hin as [[=]|[]].
Qed.

Lemma session_sleeps :
  exists events outs,
    s' = extend s events outs
    /\ 0 <= slept events <= 1 + Z.max 0 duration
    /\ (returned r = true -> slept events = 1 + Z.max 0 duration).
Proof.
  destruct outcome as [e He | v out e Hg Hs Hc | v out lines e Hg Hs Hc Hp
                      | v out lines p Hg Hs Hc Hp];
    eexists _, _; (split; [reflexivity|]).
  - cbn. split; [lia | discriminate].
  - cbn. split; [lia | discriminate].
  - rewrite slept_to_parse. split; [lia | discriminate].
  - unfold to_done. rewrite slept_app, slept_to_parse. cbn. split; lia.
Qed.

Lemma session_starts :
  exists events outs, s' = extend s events outs /\ events <> [].
Proof.
  destruct outcome as [e He | v out e Hg Hs Hc | v out lines e Hg Hs Hc Hp
                      | v out lines p Hg Hs Hc Hp];
    eexists _, _; (split; [reflexivity|]); discriminate.
Qed.

(** Only the output of the client is read, to its end or in part; and only
    the server is signaled, after the output of its client has been read to
    its end. *)
Lemma session_order :
  exists events outs,
    s' = extend s events outs
    /\ (length outs <= 2)%nat
    /\ (forall k, In (EvReadAll k) events \/ (exists n, In (EvReadSome k n) events) ->
          k = S (length (procs s)) /\ length outs = 2%nat)
    /\ (forall pre h post, events = pre ++ EvTerminate h :: post ->
          h = length (procs s) /\ In (EvReadAll (S h)) pre).
Proof.
  assert (forall m1 m2 server v t d ns dsc lines k,
            In (EvReadAll k) (to_parse m1 m2 server v t d ns dsc lines)
            \/ (exists n, In (EvReadSome k n) (to_parse m1 m2 server v t d ns dsc lines)) ->
            k = S server) as Hread.
  { intros m1 m2 server v t d ns dsc lines k H.
    assert (exists e, In e (to_parse m1 m2 server v t d ns dsc lines)
                      /\ (e = EvReadAll k \/ exists n, e = EvReadSome k n)) as (e & Hin & He)
      by (destruct H as [H|[n H]]; eauto 10).
    apply in_to_parse in Hin.
    destruct Hin as [[? ->]|[->|[[? ->]|[[? ->]|[[? ->]|[->|[[? ->]| ->]]]]]]],
             He as [He|[n He]]; congruence. }
  destruct outcome as [e He | v out e Hg Hs Hc | v out lines e Hg Hs Hc Hp
                      | v out lines p Hg Hs Hc Hp];
    eexists _, _; (split; [reflexivity|]); cbn [length]; (split; [lia|]); split.
  - intros k [[[=]|[]]|[n [[=]|[]]]].
  - intros pre h post Heq. exfalso.
    assert (In (EvTerminate h) [EvPrint starting]) as [[=]|[]].
    rewrite Heq. apply in_elt.
  - intros k [H|[n H]]; exfalso; unfold to_client in H; cbn [In] in H;
      now destruct H as [[=]|[[=]|[[=]|[[=]|[]]]]].
  - intros pre h post Heq. exfalso.
    assert (In (EvTerminate h) (to_client starting running (length (procs s)) v))
      as [[=]|[[=]|[[=]|[[=]|[]]]]].
    rewrite Heq. apply in_elt.
  - intros k H. split; [|reflexivity]. exact (Hread _ _ _ _ _ _ _ _ _ _ H).
  - intros pre h post Heq. exfalso.
    apply (no_terminate_in_to_parse h starting running (length (procs s)) v
             target duration namespace desc lines).
    rewrite Heq. apply in_elt.
  - intros k H. split; [|reflexivity].
    apply (Hread starting running (length (procs s)) v target duration namespace desc lines).
    unfold to_done in H. destruct H as [H|[n H]]; apply in_app_iff in H as [H|H]; eauto;
      now destruct H as [[=]|[]].
  - intros pre h post Heq. unfold to_done in Heq.
    destruct (app_split_second _ _ _ _ _ Heq) as (mid & -> & Hmid);
      [apply no_terminate_in_to_parse|].
    destruct mid as [|x mid]; cbn in Hmid; injection Hmid as <- Hmid;
      [|now destruct mid].
    split; [reflexivity|]. rewrite app_nil_r. unfold to_parse.
    rewrite (read_event_returned _ _ _ Hp), !in_app_iff. do 3 right. now left.
Qed.

End SessionMore.

Tactic Notation "session_lemma" constr(L) constr(H) "as" simple_intropattern(pat) :=
  let ev' := fresh "ev" in
  let outs' := fresh "outs" in
  let E := fresh "E" in
  destruct (L _ _ _ _ _ _ _ _ _ _ _ _ H) as (ev' & outs' & E & pat);
  apply extend_inj in E as [<- <-].

(** X14.  A run starts at most four processes.  It reads the output of
    the clients only (processes 1 and 3), to the end or up to a line that
    does not decode, and of none it has not started.  It signals the
    servers only (processes 0 and 2), and signals a server only after the
    output of its client has been read to the end: the reading comes before
    the signal in the trace. *)
Theorem main_touches_only_its_processes c g w r s :
  main_with c g w init = (r, s) ->
  (length (procs s) <= 4)%nat
  /\ (forall k, In (EvReadAll k) (trace s) \/ (exists n, In (EvReadSome k n) (trace s)) ->
        (k = 1 \/ k = 3)%nat /\ (k < length (procs s))%nat)
  /\ (forall pre h post, trace s = pre ++ EvTerminate h :: post ->
        (h = 0 \/ h = 2)%nat /\ In (EvReadAll (S h)) pre).
Proof.
  intros Hrun.
  assert (forall k pre, In (EvReadAll k) (trace asked ++ pre)
                        \/ (exists n, In (EvReadSome k n) (trace asked ++ pre)) ->
                        In (EvReadAll k) pre \/ (exists n, In (EvReadSome k n) pre)) as Hasked.
  { intros k pre [[[=]|H]|[n [[=]|H]]]; eauto. }
  destruct (main_decomposed _ _ _ _ _ Hrun)
    as [(_ & -> & _) | (answer & d & ev1 & outs1 & r1 & Hw & Hint & H1 & Hrest)].
  { conjuncts; [cbn; lia | |].
    - intros k [[[=]|[]]|[n [[=]|[]]]].
    - intros pre h post Heq. exfalso.
      assert (In (EvTerminate h) (trace asked)) as [[=]|[]].
      rewrite Heq. apply in_elt. }
  session_lemma session_order H1 as (Hlen1 & Hr1 & Ht1).
  destruct Hrest as [(_ & -> & _) | (ev2 & outs2 & r2 & fin & _ & Hlen & H2 & -> & Hfin)].
  - cbn [extend trace procs asked init app]. conjuncts; [lia | |].
    + intros k H. apply (Hasked k ev1) in H. destruct (Hr1 k H) as [-> Hl].
      cbn. split; [auto | lia].
    + intros pre h post Heq.
      destruct pre as [|x pre]; cbn in Heq; injection Heq as Hx Heq; [discriminate|].
      destruct (Ht1 _ _ _ Heq) as [-> Hin]. cbn. split; [auto|]. now right.
  - session_lemma session_order H2 as (Hlen2 & Hr2 & Ht2).
    cbn [extend trace procs asked init app] in *. rewrite Hlen in *.
    assert (forall e, In e fin -> is_show e = true \/ is_print_of no_data_message e = true)
      as Hlast.
    { intros e Hin. destruct (returned r2); [|now destruct Hfin as [-> _]].
      destruct Hfin as [[fig ->]| ->]; destruct Hin as [<-|[]]; auto. }
    conjuncts.
    + rewrite !app_nil_r, length_app. lia.
    + intros k H. rewrite !app_nil_r, length_app, Hlen.
      assert (In (EvReadAll k) ev1 \/ (exists n, In (EvReadSome k n) ev1)
              \/ In (EvReadAll k) ev2 \/ (exists n, In (EvReadSome k n) ev2)) as Hk.
      { destruct H as [H|[n H]].
        - destruct H as [[=]|H]. rewrite <- !app_assoc, !in_app_iff in H.
          destruct H as [H|[H|H]]; auto.
          apply Hlast in H. destruct H; discriminate.
        - destruct H as [[=]|H]. rewrite <- !app_assoc, !in_app_iff in H.
          destruct H as [H|[H|H]]; eauto.
          apply Hlast in H. destruct H; discriminate. }
      destruct Hk as [Hk|[Hk|Hk]].
      * destruct (Hr1 k (or_introl Hk)) as [-> _]. cbn. split; [auto | lia].
      * destruct (Hr1 k (or_intror Hk)) as [-> _]. cbn. split; [auto | lia].
      * destruct (Hr2 k Hk) as [-> Hl]. cbn. split; [auto | lia].
    + intros pre h post Heq.
      destruct pre as [|x pre]; cbn in Heq; injection Heq as Hx Heq; [discriminate|].
      rewrite <- !app_assoc in Heq.
      destruct (app_split_cases _ _ _ _ _ Heq) as [[post1 E1] | (pre2 & -> & Heq2)].
      * destruct (Ht1 _ _ _ E1) as [-> Hin]. cbn. split; [auto|]. now right.
      * destruct (app_split_cases _ _ _ _ _ Heq2) as [[post2 E2] | (pre3 & -> & Heq3)].
        -- destruct (Ht2 _ _ _ E2) as [-> Hin]. split; [auto|].
           right. apply in_app_iff. now right.
        -- exfalso. assert (In (EvTerminate h) fin) as Hin
             by (rewrite Heq3; apply in_elt).
           apply Hlast in Hin. destruct Hin; discriminate.
Qed.

(** X15.  Every process of a run is started after a duration has been
    read, and with one of four commands: the servers (processes 0 and 2)
    in the namespaces that the globals [server1] and [server2] hold, not in
    the ones the messages name; the clients (processes 1 and 3) in the
    namespaces of lines 142 and 143, for that duration, and both against the
    address of line 146.  The values of lines 137, 138 and 147 reach no
    command. *)
Theorem main_spawns c g w r s cmd h :
  main_with c g w init = (r, s) ->
  In (EvPopen cmd h) (trace s) ->
  exists answer duration,
    stdin_line w = Some answer /\ int_of_str answer = Ret duration
    /\ ((h = 0%nat /\ exists v, g !! "server1" = Some v /\ cmd = server_cmd v)
        \/ (h = 1%nat /\ cmd = client_cmd (line146 c) duration (line142 c))
        \/ (h = 2%nat /\ exists v, g !! "server2" = Some v /\ cmd = server_cmd v)
        \/ (h = 3%nat /\ cmd = client_cmd (line146 c) duration (line143 c))).
Proof.
  intros Hrun Hin.
  destruct (main_decomposed _ _ _ _ _ Hrun)
    as [(_ & -> & _) | (answer & d & ev1 & outs1 & r1 & Hw & Hint & H1 & Hrest)].
  { now destruct Hin as [[=]|[]]. }
  exists answer, d. do 2 (split; [assumption|]).
  session_lemma session_spawns H1 as Hs1.
  destruct Hrest as [(_ & -> & _) | (ev2 & outs2 & r2 & fin & _ & Hlen & H2 & -> & Hfin)].
  - cbn [extend trace asked init app] in Hin. destruct Hin as [[=]|Hin].
    destruct (Hs1 _ _ Hin) as [[-> ?]|[-> ?]]; auto.
  - session_lemma session_spawns H2 as Hs2.
    cbn [extend trace procs asked init app] in *. rewrite Hlen in *.
    rewrite <- !app_assoc in Hin. destruct Hin as [[=]|Hin].
    rewrite !in_app_iff in Hin. destruct Hin as [Hin|[Hin|Hin]].
    + destruct (Hs1 _ _ Hin) as [[-> ?]|[-> ?]]; auto.
    + destruct (Hs2 _ _ Hin) as [[-> ?]|[-> ?]]; auto 10.
    + exfalso. destruct (returned r2); [|now destruct Hfin as [-> _]].
      destruct Hfin as [[fig ->]| ->]; now destruct Hin as [[=]|[]].
Qed.

(** X16.  With the duration d read at the prompt, a run sleeps at most
    2 x (1 + max(0, d)) seconds, and exactly that long when [main] returns:
    one second after the start of each server and one per turn of each
    progress loop, which has no turn for a negative d. *)
Theorem main_sleeps c g w r s answer duration :
  main_with c g w init = (r, s) ->
  stdin_line w = Some answer ->
  int_of_str answer = Ret duration ->
  0 <= slept (trace s) <= 2 * (1 + Z.max 0 duration)
  /\ (r = Ret tt -> slept (trace s) = 2 * (1 + Z.max 0 duration)).
Proof.
  intros Hrun Hw Hint.
  destruct (main_decomposed _ _ _ _ _ Hrun)
    as [([?|(? & ? & ? & ?)] & _) | (answer' & d & ev1 & outs1 & r1 & Hw' & Hint' & H1 & Hrest)];
    try congruence.
  assert (d = duration) as -> by congruence.
  session_lemma session_sleeps H1 as [Hb1 He1].
  destruct Hrest as [(_ & -> & Hr) | (ev2 & outs2 & r2 & fin & E1 & Hlen & H2 & -> & Hfin)].
  - cbn [extend trace asked init app slept]. split; [lia|]. intros ->. discriminate.
  - session_lemma session_sleeps H2 as [Hb2 He2].
    cbn [extend trace asked init app slept]. rewrite !slept_app.
    destruct (returned r2) eqn:E2.
    + assert (slept fin = 0) as -> by now destruct Hfin as [[fig ->]| ->].
      rewrite He1, He2 by congruence. split; [lia|]. intros _. lia.
    + destruct Hfin as [-> Hr]. cbn [slept]. split; [lia|]. intros ->. discriminate.
Qed.

(** X17.  A run goes no further than the prompt exactly when no duration
    is read: the input is at its end, or [int] rejects the answer (line 139
    is not guarded, the exception leaves [main]).  Nothing is printed and no
    process is started then. *)
Theorem main_only_prompts_without_duration c g w r s :
  main_with c g w init = (r, s) ->
  (trace s = [EvInput prompt]
   <-> stdin_line w = None
       \/ exists answer e, stdin_line w = Some answer /\ int_of_str answer = Raise e).
Proof.
  intros Hrun.
  destruct (main_decomposed _ _ _ _ _ Hrun)
    as [(Hno & -> & _) | (answer & d & ev1 & outs1 & r1 & Hw & Hint & H1 & Hrest)].
  { split; [intros _; exact Hno | reflexivity]. }
  session_lemma session_starts H1 as Hne.
  split.
  - intros Htrace. exfalso.
    destruct Hrest as [(_ & -> & _) | (ev2 & outs2 & r2 & fin & _ & _ & _ & -> & _)];
      cbn [extend trace asked init app] in Htrace; destruct ev1; try congruence;
      discriminate.
  - intros [?|(? & ? & ? & ?)]; congruence.
Qed.

End Runs.

(** ** More runs *)

Lemma client_output_reaches_parser_witness :
  exists process s1,
    run_iperf "10.0.0.2" 3 "ns1" (lab_world full_output gap_output) (wrote [])
    = (Ret process, s1)
    /\ trace s1 = (trace (wrote []) ++ [EvPopen (client_cmd "10.0.0.2" 3 "ns1") process])%list
    /\ stdout_of s1 process = full_output
    /\ (forall k, (k < length (procs (wrote [])))%nat ->
          stdout_of s1 k = stdout_of (wrote []) k)
    /\ fst (parse_iperf_output process (lab_world full_output gap_output) s1)
       = parsed full_output.
Proof.
  apply (client_output_reaches_parser "10.0.0.2" 3 "ns1"
           (lab_world full_output gap_output) (wrote []) full_output).
  reflexivity.
Defined.

Lemma main_result_and_verdict_witness :
  (fst good_run = Ret tt -> In (EvTerminate 2%nat) (trace (snd good_run)))
  /\ (count is_show (trace (snd good_run))
      + count (is_print_of no_data_message) (trace (snd good_run))
      = count (is_terminate 2%nat) (trace (snd good_run)))%nat
  /\ (forall fig, In (EvShow fig) (trace (snd good_run)) ->
        fst good_run = draws (lab_world full_output gap_output) fig)
  /\ (In (EvPrint no_data_message) (trace (snd good_run)) -> fst good_run = Ret tt)
  /\ (In (EvTerminate 2%nat) (trace (snd good_run)) ->
      In (EvPrint no_data_message) (trace (snd good_run))
      \/ exists fig, In (EvShow fig) (trace (snd good_run))).
Proof.
  apply (main_result_and_verdict lab_config lab_globals
           (lab_world full_output gap_output) (fst good_run) (snd good_run)).
  apply run_eq.
Defined.

(** When the plotting library rejects the values (here whatever they are),
    its exception leaves [main] after both servers have been signaled and
    the figure handed over. *)
Example drawing_fails :
  let w := {| stdin_line := Some "3";
              spawn := spawn (lab_world full_output gap_output);
              draws := fun _ => Raise ValueError |} in
  let run := main_with lab_config lab_globals w init in
  fst run = Raise ValueError
  /\ count (is_terminate 0%nat) (trace (snd run)) = 1%nat
  /\ count (is_terminate 2%nat) (trace (snd run)) = 1%nat
  /\ count is_show (trace (snd run)) = 1%nat.
Proof. split; [run|]. split; [run|]. split; run. Qed.

Lemma figure_shows_what_the_parsers_returned_witness :
  exists fig,
    In (EvShow fig) (trace (snd good_run))
    /\ exists ts1 bw1 ts2 bw2,
         parsed (stdout_of (snd good_run) 1%nat) = Ret (ts1, bw1)
         /\ parsed (stdout_of (snd good_run) 3%nat) = Ret (ts2, bw2)
         /\ plot_figure ts1 bw1 ts2 bw2 = Ret fig
         /\ fig_series1 fig = (ts1, bw1)
         /\ fig_series2 fig = (ts2, bw2).
Proof.
  assert (exists fig, In (EvShow fig) (trace (snd good_run))) as [fig Hin].
  { vm_compute. eexists. repeat first [left; reflexivity | right]. }
  exists fig. split; [exact Hin|].
  apply (figure_shows_what_the_parsers_returned lab_config lab_globals
           (lab_world full_output gap_output) (fst good_run) (snd good_run) fig).
  - apply run_eq.
  - exact Hin.
Defined.

Lemma main_touches_only_its_processes_witness :
  (length (procs (snd good_run)) <= 4)%nat
  /\ (forall k, In (EvReadAll k) (trace (snd good_run))
                \/ (exists n, In (EvReadSome k n) (trace (snd good_run))) ->
        (k = 1 \/ k = 3)%nat /\ (k < length (procs (snd good_run)))%nat)
  /\ (forall pre h post, trace (snd good_run) = (pre ++ EvTerminate h :: post)%list ->
        (h = 0 \/ h = 2)%nat /\ In (EvReadAll (S h)) pre).
Proof.
  apply (main_touches_only_its_processes lab_config lab_globals
           (lab_world full_output gap_output) (fst good_run) (snd good_run)).
  apply run_eq.
Defined.

Lemma main_spawns_witness :
  exists answer duration,
    stdin_line (lab_world full_output gap_output) = Some answer
    /\ int_of_str answer = Ret duration
    /\ ((3 = 0 /\ exists v, lab_globals !! "server1" = Some v
                            /\ client_cmd "ns2" 3 "ns3" = server_cmd v)
        \/ (3 = 1 /\ client_cmd "ns2" 3 "ns3"
                      = client_cmd (line146 lab_config) duration (line142 lab_config))
        \/ (3 = 2 /\ exists v, lab_globals !! "server2" = Some v
                               /\ client_cmd "ns2" 3 "ns3" = server_cmd v)
        \/ (3 = 3 /\ client_cmd "ns2" 3 "ns3"
                      = client_cmd (line146 lab_config) duration (line143 lab_config)))%nat.
Proof.
  apply (main_spawns lab_config lab_globals (lab_world full_output gap_output)
           (fst good_run) (snd good_run) (client_cmd "ns2" 3 "ns3") 3%nat).
  - apply run_eq.
  - found.
Defined.

Lemma main_sleeps_witness :
  0 <= slept (trace (snd good_run)) <= 2 * (1 + Z.max 0 3)
  /\ (fst good_run = Ret tt -> slept (trace (snd good_run)) = 2 * (1 + Z.max 0 3)).
Proof.
  apply (main_sleeps lab_config lab_globals (lab_world full_output gap_output)
           (fst good_run) (snd good_run) "3" 3).
  - apply run_eq.
  - reflexivity.
  - run.
Defined.

(** The good run sleeps eight seconds; with the answer -2 a run makes no
    turn of a progress loop and still starts its clients, for -2 seconds. *)
Example sleep_of_runs :
  slept (trace (snd good_run)) = 8
  /\ (let w := {| stdin_line := Some "-2";
                  spawn := spawn (lab_world full_output gap_output);
                  draws := fun _ => Ret tt |} in
      let run := main_with lab_config lab_globals w init in
      slept (trace (snd run)) = 2
      /\ In (EvPopen (client_cmd "ns2" (-2) "ns1") 1%nat) (trace (snd run))).
Proof. split; [run|]. split; [run | found]. Qed.

Lemma main_only_prompts_without_duration_witness :
  trace (snd (main_with lab_config lab_globals mute_world init)) = [EvInput prompt]
  <-> stdin_line mute_world = None
      \/ exists answer e, stdin_line mute_world = Some answer
                          /\ int_of_str answer = Raise e.
Proof.
  apply (main_only_prompts_without_duration lab_config lab_globals mute_world
           (fst (main_with lab_config lab_globals mute_world init))).
  apply run_eq.
Defined.

(** The answer [ten] is no int: the [ValueError] of [int] ends the run. *)
Example mute_run :
  main_with lab_config lab_globals mute_world init = (Raise ValueError, asked).
Proof. run. Qed.
